(** * GCIF: the filtered, context-modelled pixel engine

    A shallow embedding of the parts of the GCIF codec that live in
    [encoder/MonoWriter.cpp], [encoder/LZMatchFinder.hpp],
    [encoder/ImageRGBAWriter.hpp] and [decoder/ImageRGBAReader.hpp], and of
    the older writers in [ImageCMWriter.hpp] and in the second half of
    [decoder/ImageRGBAReader.hpp] (class ImageLPWriter).

    Conventions.
    - Machine integers are [Z]; a wrap-around is written where the source
      has one ([u8w], [u16w], [u32w]).
    - A C array is a [list Z] read with [peek] and written with [poke]
      (stdpp's lookup and insert); a raw pointer that the source lets run
      past its array is an offset into a total memory [Z -> Z].
    - A collaborator whose code is in another file of the repository (the
      entropy estimator, the filter catalogues, the score and chaos tables,
      the bit reader) is a [Variable] of the enclosing [Section]. *)

From Stdlib Require Import ZArith List Lia Bool.
From stdpp Require Import base numbers list gmap.

Local Open Scope Z_scope.

(** ** Machine arithmetic and arrays *)

Definition u8w (v : Z) : Z := v mod 256.
Definition u16w (v : Z) : Z := v mod 65536.
Definition u32w (v : Z) : Z := v mod 4294967296.
Definition u64w (v : Z) : Z := v mod 18446744073709551616.

(** [0x7fffffff], the start value of every "best entropy so far". *)
Definition INT_MAX : Z := 2147483647.

Definition peek (l : list Z) (i : nat) : Z := default 0 (l !! i).
Definition poke (l : list Z) (i : nat) (v : Z) : list Z := <[i := v]> l.

(** Tile sentinels ([MASK_TILE], [TODO_TILE] of the writers). *)
Definition MASK_TILE : Z := 255.
Definition TODO_TILE : Z := 0.

(** * MonoWriter *)

Module Mono.

(** [MonoWriter::Parameters]: the plane to compress and its knobs. *)
Record Parameters := mkParameters {
  data : list Z;
  num_syms : Z;
  size_x : nat;
  size_y : nat;
  min_bits : Z;
  max_bits : Z;
  mask : nat -> nat -> bool
}.

(** The writer's members that the methods below read or write.  The child
    writer of [recurseCompress] is an owned optional value of the same type. *)
#[local] Unset Elimination Schemes.
Inductive MonoWriter := mkMonoWriter {
  _params : Parameters;
  _tile_bits_x : Z;
  _tile_bits_y : Z;
  _tile_size_x : Z;
  _tile_size_y : Z;
  _tiles_x : Z;
  _tiles_y : Z;
  _tiles_count : Z;
  _tiles : list Z;
  _tile_row_filters : list Z;
  _residuals : list Z;
  _normal_filter_count : Z;
  _sympal_filter_count : Z;
  _filter_count : Z;
  _filter_indices : list Z;
  _sympal : list Z;
  _row_filter_entropy : Z;
  _chaos : list Z;
  _chaos_levels : Z;
  _chaos_entropy : Z;
  _filter_encoder : option MonoWriter
}.
#[local] Set Elimination Schemes.

(** Modelled from the spec: [getTile] is declared in MonoWriter.hpp, which is
    not among the sources; it returns the filter id of the tile that holds
    element (x, y), the tiles being stored row by row as [IsMasked] reads
    them. *)
Definition getTile (w : MonoWriter) (x y : nat) : Z :=
  peek (_tiles w)
       (Z.to_nat (Z.shiftr (Z.of_nat x) (_tile_bits_x w)
                  + Z.shiftr (Z.of_nat y) (_tile_bits_y w) * _tiles_x w)).

(** [MonoWriter::IsMasked], on tile coordinates. *)
Definition IsMasked (w : MonoWriter) (x y : nat) : bool :=
  peek (_tiles w) (Z.to_nat (Z.of_nat x + Z.of_nat y * _tiles_x w)) =? MASK_TILE.

(** ** The chaos scan shared by [designChaos] and [initializeEncoders] *)

(** One symbol handed to the estimator (or encoder) of a chaos bin. *)
Record Coded := mkCoded { c_x : nat; c_y : nat; c_bin : Z; c_sym : Z }.

Record Scan := mkScan {
  sc_chaos : list Z;        (* the workspace [_chaos]; [last] is [_chaos + 1] *)
  sc_residuals : nat;       (* the cursor [residuals - _residuals] *)
  sc_coded : list Coded     (* the symbols added so far, oldest first *)
}.

Section ChaosScan.
(** [RESIDUAL_SCORE] and one row [CHAOS_MAPS[levels - 1]] of the chaos
    tables. *)
Variable RESIDUAL_SCORE : Z -> Z.
Variable CHAOS : Z -> Z.
Variable w : MonoWriter.

(** The bin the source computes: [CHAOS[RESIDUAL_SCORE[last[-1]] +
    RESIDUAL_SCORE[last[0]]]] with [last = _chaos + 1]. *)
Definition local_chaos (chaos : list Z) : Z :=
  CHAOS (RESIDUAL_SCORE (peek chaos 0) + RESIDUAL_SCORE (peek chaos 1)).

(** The body of the column loop. [last[x]] is [_chaos[x + 1]]. *)
Definition scan_elem (y : nat) (s : Scan) (x : nat) : Scan :=
  let f := getTile w x y in
  if (f =? MASK_TILE) || mask (_params w) x y then
    mkScan (poke (sc_chaos s) (S x) 0) (S (sc_residuals s)) (sc_coded s)
  else if _normal_filter_count w <=? f then
    mkScan (poke (sc_chaos s) (S x) 0) (S (sc_residuals s)) (sc_coded s)
  else
    let chaos := local_chaos (sc_chaos s) in
    let residual_sym := peek (_residuals w) (sc_residuals s) in
    mkScan (poke (sc_chaos s) (S x) residual_sym)
           (S (sc_residuals s))
           (sc_coded s ++ [mkCoded x y chaos residual_sym]).

(** The body of the row loop: [last[-1] = 0], then every column. *)
Definition scan_row (s : Scan) (y : nat) : Scan :=
  let s0 := mkScan (poke (sc_chaos s) 0 0) (sc_residuals s) (sc_coded s) in
  fold_left (scan_elem y) (seq 0 (size_x (_params w))) s0.

(** [CAT_CLR(_chaos, chaos_size)], then every row. *)
Definition scan_plane : Scan :=
  fold_left scan_row (seq 0 (size_y (_params w)))
            (mkScan (replicate (S (size_x (_params w))) 0) 0%nat []).
End ChaosScan.

(** The bin the claim describes for element (x, y) of an unmasked plane of
    normal tiles, in the spec's words: the score of the residual just
    produced at (x - 1, y) plus the score of the residual stored for column x
    of the row before (zero on the first row). *)
Definition chaos_bin_claimed (RESIDUAL_SCORE CHAOS : Z -> Z) (w : MonoWriter)
    (x y : nat) : Z :=
  let sx := size_x (_params w) in
  let left := peek (_residuals w) (y * sx + x - 1) in
  let above := if (0 <? y)%nat then peek (_residuals w) ((y - 1) * sx + x)
               else 0 in
  CHAOS (RESIDUAL_SCORE left + RESIDUAL_SCORE above).

(** ** [MonoWriter::designChaos] *)

(** The symbols a scan added to the estimator of bin [ii], oldest first. *)
Definition bin_symbols (coded : list Coded) (ii : Z) : list Z :=
  c_sym <$> filter (fun c => c_bin c = ii) coded.

Definition set_chaos (w : MonoWriter) (chaos : list Z) (levels entropy : Z)
  : MonoWriter :=
  mkMonoWriter (_params w) (_tile_bits_x w) (_tile_bits_y w) (_tile_size_x w)
    (_tile_size_y w) (_tiles_x w) (_tiles_y w) (_tiles_count w) (_tiles w)
    (_tile_row_filters w) (_residuals w) (_normal_filter_count w)
    (_sympal_filter_count w) (_filter_count w) (_filter_indices w) (_sympal w)
    (_row_filter_entropy w) chaos levels entropy (_filter_encoder w).

Section DesignChaos.
Variable RESIDUAL_SCORE : Z -> Z.
(** [CHAOS_MAPS i] is the table [CHAOS_MAPS[i]]. *)
Variable CHAOS_MAPS : Z -> Z -> Z.
(** [EntropyEstimator]: what [entropyOverall()] returns after [init()] and
    one [addSingle] per symbol of the list. *)
Variable entropyOverall : list Z -> Z.
(** The constant of MonoWriter.hpp; [writeTables] asserts it is at most 16. *)
Variable MAX_CHAOS_LEVELS : nat.

(** The chaos levels the [for] loop visits:
    [chaos_levels = 1; chaos_levels < MAX_CHAOS_LEVELS; ++chaos_levels]. *)
Definition tried_levels : list nat := seq 1 (MAX_CHAOS_LEVELS - 1).

Definition level_scan (w : MonoWriter) (chaos_levels : nat) : Scan :=
  scan_plane RESIDUAL_SCORE (CHAOS_MAPS (Z.of_nat chaos_levels - 1)) w.

(** [u32 entropy = 0; for ii < chaos_levels: entropy += ee[ii].entropyOverall()]. *)
Definition levels_entropy (w : MonoWriter) (chaos_levels : nat) : Z :=
  fold_left
    (fun entropy ii =>
       u32w (entropy
             + entropyOverall (bin_symbols (sc_coded (level_scan w chaos_levels))
                                           (Z.of_nat ii))))
    (seq 0 chaos_levels) 0.

(** [if (best_entropy > entropy) { best_entropy = entropy; best = levels }]. *)
Definition try_levels (w : MonoWriter) (best : Z * Z) (chaos_levels : nat)
  : Z * Z :=
  let entropy := levels_entropy w chaos_levels in
  if entropy <? fst best then (entropy, Z.of_nat chaos_levels) else best.

Definition best_chaos (w : MonoWriter) : Z * Z :=
  fold_left (try_levels w) tried_levels (INT_MAX, 1).

Definition designChaos (w : MonoWriter) : MonoWriter :=
  let workspace :=
    match MAX_CHAOS_LEVELS with
    | S (S n) => sc_chaos (level_scan w (S n))
    | _ => replicate (S (size_x (_params w))) 0
    end in
  set_chaos w workspace (snd (best_chaos w)) (fst (best_chaos w)).
End DesignChaos.

(** Modelled from the spec: [MAX_CHAOS_LEVELS] is a constant of
    MonoWriter.hpp, which is not among the sources.  The spec has the encoder
    try K in 1..8 and the loop test is [chaos_levels < MAX_CHAOS_LEVELS], so
    the constant is 9; [writeTables] asserts that it is at most 16. *)
Definition MAX_CHAOS_LEVELS : nat := 9.

(** ** [MonoWriter::initializeEncoders] and [MonoWriter::writeTables] *)

(** One [writer.writeBits(value, bits)] (or [writeBit]) call. *)
Record Field := mkField { f_value : Z; f_bits : Z }.

Section WriteTables.
Variable RESIDUAL_SCORE : Z -> Z.
Variable CHAOS_MAPS : Z -> Z -> Z.
(** [EntropyEncoder]: the fields [writeTables] emits after one [add] per
    symbol of the list and [finalize]. *)
Variable encoder_tables : list Z -> list Field.

(** The scan of [initializeEncoders], with the row
    [CHAOS_MAPS[_chaos_levels - 1]]; bin [ii] feeds [_encoder[ii]]. *)
Definition initializeEncoders (w : MonoWriter) : Scan :=
  scan_plane RESIDUAL_SCORE (CHAOS_MAPS (_chaos_levels w - 1)) w.

(** Modelled from the spec: [BSR32] is in BitMath.hpp, not among the
    sources; the tile-size field takes ceil(log2(max_bits - min_bits + 1))
    bits, that is [BSR32(range) + 1] with [BSR32] the index of the highest
    set bit. *)
Definition BSR32 (v : Z) : Z := Z.log2 v.

Definition tile_size_fields (w : MonoWriter) : list Field :=
  let range := u32w (max_bits (_params w) - min_bits (_params w)) in
  if 0 <? range then
    [mkField (u32w (_tile_bits_x w - max_bits (_params w))) (BSR32 range + 1)]
  else [].

Definition normal_filter_fields (w : MonoWriter) : list Field :=
  mkField (u32w (_normal_filter_count w - 1)) 5
  :: map (fun f => mkField (peek (_filter_indices w) f) 7)
         (seq 0 (Z.to_nat (_normal_filter_count w))).

Definition sympal_filter_fields (w : MonoWriter) : list Field :=
  mkField (u32w (_sympal_filter_count w - 1)) 4
  :: map (fun f => mkField (peek (_sympal w) f) 8)
         (seq 0 (Z.to_nat (_sympal_filter_count w))).

(** [writer.writeBits(_chaos_levels - 1, 4)]. *)
Definition chaos_levels_field (w : MonoWriter) : Field :=
  mkField (u32w (_chaos_levels w - 1)) 4.

Definition encoder_table_fields (w : MonoWriter) : list Field :=
  concat (map (fun ii => encoder_tables
                           (bin_symbols (sc_coded (initializeEncoders w))
                                        (Z.of_nat ii)))
              (seq 0 (Z.to_nat (_chaos_levels w)))).

Definition own_fields (w : MonoWriter) : list Field :=
  tile_size_fields w ++ normal_filter_fields w ++ sympal_filter_fields w
  ++ [chaos_levels_field w] ++ encoder_table_fields w.

(** The row-filter-or-recursion bit closes a writer's tables; a kept child
    writes its own tables right after the bit. *)
Fixpoint writeTables (w : MonoWriter) : list Field :=
  own_fields w ++
  match w with
  | mkMonoWriter _ _ _ _ _ _ _ _ _ _ _ _ _ _ _ _ _ _ _ _ (Some child) =>
      mkField 1 1 :: writeTables child
  | mkMonoWriter _ _ _ _ _ _ _ _ _ _ _ _ _ _ _ _ _ _ _ _ None =>
      [mkField 0 1]
  end.
End WriteTables.

(** [writeRowHeader(y, writer)]: with a child the row header is the child's
    for the tile row, else it is the row filter chosen for the tile row. *)
Fixpoint writeRowHeader (w : MonoWriter) (y : Z) : list Field :=
  match w with
  | mkMonoWriter _ _ bits_y _ _ _ _ _ _ row_filters _ _ _ _ _ _ _ _ _ _ child =>
      let ty := u16w (Z.shiftr y bits_y) in
      match child with
      | Some c => writeRowHeader c ty
      | None => [mkField (peek row_filters (Z.to_nat ty)) 2]
      end
  end.

(** [writeFilter(x, y, writer)]: the source computes the tile coordinates
    and stops there (its body is a list of TODOs), so nothing is written. *)
Definition writeFilter (w : MonoWriter) (x y : Z) : list Field :=
  let tx := u16w (Z.shiftr x (_tile_bits_y w)) in
  let ty := u16w (Z.shiftr y (_tile_bits_y w)) in
  [].

(** ** [MonoWriter::designTiles] *)

Definition MAX_PASSES : Z := 4.
Definition NEIGHBOR_REWARD : Z := 1.

(** How a loop or a loop body ends: it falls through to the next statement,
    it executes [return], or the step budget of the model is used up. *)
Inductive outcome (S : Type) : Type :=
| Next (s : S)
| Return (s : S)
| OutOfFuel.
Arguments Next {S} s.
Arguments Return {S} s.
Arguments OutOfFuel {S}.

(** [for (u16 i = 0; i < bound; i += step) body], the counter wrapping at
    16 bits as the source's does. *)
Fixpoint for_u16 {S : Type} (fuel : nat) (i bound step : Z)
    (body : Z -> S -> outcome S) (s : S) : outcome S :=
  match fuel with
  | O => OutOfFuel
  | Datatypes.S fuel' =>
      if i <? bound then
        match body i s with
        | Next s' => for_u16 fuel' (u16w (i + step)) bound step body s'
        | r => r
        end
      else Next s
  end.

(** A mono filter reads the plane around [data] and predicts the element:
    [filter(data, x, y, size_x)]. *)
Definition MonoFilter : Type := (Z -> Z) -> Z -> Z -> Z -> Z -> Z.

(** The locals of [designTiles] and the tile bytes [p] walks over.  [p] and
    [topleft] are offsets from [_tiles] and [_params.data]. *)
Record Tiling (EE : Type) := mkTiling {
  tl_tiles : Z -> Z;
  tl_p : Z;
  tl_topleft : Z;
  tl_tx : Z;
  tl_ty : Z;
  tl_ee : EE;
  tl_revisitCount : Z
}.
Arguments mkTiling {EE}.
Arguments tl_tiles {EE}.
Arguments tl_p {EE}.
Arguments tl_topleft {EE}.
Arguments tl_tx {EE}.
Arguments tl_ty {EE}.
Arguments tl_ee {EE}.
Arguments tl_revisitCount {EE}.

Definition store (m : Z -> Z) (a v : Z) : Z -> Z :=
  fun i => if i =? a then v else m i.

Section DesignTiles.
(** [EntropyEstimator] *)
Variable EE : Type.
Variable ee_init : EE.
Variable ee_subtract : EE -> list Z -> EE.
Variable ee_entropy : EE -> list Z -> Z.
(** The size of the mono filter catalogue and the member array
    [_filters]. *)
Variable MF_COUNT : Z.
Variable _filters : Z -> MonoFilter.
(** What lies in memory outside an array, by offset from its start. *)
Variable heap : Z -> Z.
(** [_knobs->mono_revisitCount] *)
Variable mono_revisitCount : Z.
Variable w : MonoWriter.

Definition load (arr : list Z) (off : Z) : Z :=
  if (0 <=? off) && (off <? Z.of_nat (length arr))
  then peek arr (Z.to_nat off) else heap off.

Definition tile_size_x : Z := u16w (_tile_size_x w).
Definition tile_size_y : Z := u16w (_tile_size_y w).
Definition sx : Z := u16w (Z.of_nat (size_x (_params w))).
Definition sy : Z := u16w (Z.of_nat (size_y (_params w))).
Definition nsyms : Z := u16w (num_syms (_params w)).
Definition plane : Z -> Z := load (data (_params w)).
Definition masked (px py : Z) : bool :=
  mask (_params w) (Z.to_nat px) (Z.to_nat py).

(** The inner [while (cx-- > 0 && px < size_x)] loop: the elements it
    visits as (data offset, px, py).  The source advances [data] and leaves
    [px] where it is. *)
Fixpoint elem_cols (cx : nat) (px data py : Z) : list (Z * Z * Z) :=
  match cx with
  | O => []
  | S cx' =>
      if px <? sx then (data, px, py) :: elem_cols cx' px (data + 1) py
      else []
  end.

(** The outer [while (cy-- > 0 && py < size_y)] loop. *)
Fixpoint elem_rows (cy : nat) (x py row : Z) : list (Z * Z * Z) :=
  match cy with
  | O => []
  | S cy' =>
      if py <? sy then
        elem_cols (Z.to_nat tile_size_x) x row py
        ++ elem_rows cy' x (u16w (py + 1)) (row + sx)
      else []
  end.

(** The elements of the tile at (x, y) that are not masked. *)
Definition tile_elems (x y topleft : Z) : list (Z * Z * Z) :=
  filter (fun e => negb (masked (snd (fst e)) (snd e)) = true)
         (elem_rows (Z.to_nat tile_size_y) x y topleft).

(** [prediction = filter(data, x, y, size_x) % num_syms;
     residual = (value + num_syms - prediction) % num_syms], both [u8]. *)
Definition residual_of (f : MonoFilter) (x y : Z) (e : Z * Z * Z) : Z :=
  let d := fst (fst e) in
  let value := plane d in
  let prediction := u8w (f plane d x y sx mod nsyms) in
  u8w ((value + nsyms - prediction) mod nsyms).

(** The code_count residuals written for filter slot [f]. *)
Definition codes_of (f : Z) (x y topleft : Z) : list Z :=
  map (residual_of (_filters f) x y) (tile_elems x y topleft).

(** "Nudge scoring based on neighbors". *)
Definition nudge (entropy f a b c d : Z) : Z :=
  let e0 := if entropy =? 0 then entropy - NEIGHBOR_REWARD else entropy in
  let e1 := if f =? a then e0 - NEIGHBOR_REWARD else e0 in
  let e2 := if f =? b then e1 - NEIGHBOR_REWARD else e1 in
  let e3 := if f =? c then e2 - NEIGHBOR_REWARD else e2 in
  if f =? d then e3 - NEIGHBOR_REWARD else e3.

(** The neighbour tiles a (left), b (up), c (up-left), d (up-right). *)
Definition neighbors (t : Tiling EE) : Z * Z * Z * Z :=
  let p := tl_p t in
  let tx := tl_tx t in
  let ty := tl_ty t in
  let a := if 0 <? tx then tl_tiles t (p - 1) else MASK_TILE in
  let b := if 0 <? ty then tl_tiles t (p - _tiles_x w) else MASK_TILE in
  let c := if (0 <? ty) && (0 <? tx)
           then tl_tiles t (p - _tiles_x w - 1) else MASK_TILE in
  let d := if (0 <? ty) && (tx <? _tiles_x w - 1)
           then tl_tiles t (p - _tiles_x w + 1) else MASK_TILE in
  (a, b, c, d).

(** The filter slot of lowest nudged entropy, the first one on a tie. *)
Definition bestFilterIndex (t : Tiling EE) (x y : Z) : Z :=
  let '(a, b, c, d) := neighbors t in
  snd (fold_left
         (fun (best : Z * Z) f =>
            let entropy :=
              nudge (ee_entropy (tl_ee t) (codes_of f x y (tl_topleft t)))
                    f a b c d in
            if entropy <? fst best then (entropy, f) else best)
         (seqZ 0 (_filter_count w)) (INT_MAX, 0)).

(** The increments of the column [for]: [++p, topleft += tile_size_x, ++tx]. *)
Definition next_tile (t : Tiling EE) : Tiling EE :=
  mkTiling (tl_tiles t) (tl_p t + 1) (tl_topleft t + tile_size_x)
           (tl_tx t + 1) (tl_ty t) (tl_ee t) (tl_revisitCount t).

(** "If we are on the second or later pass": spend one revisit, return
    when the budget is negative, else take the old filter's residuals out
    of the estimator. *)
Definition revisit (passes x y : Z) (t : Tiling EE) : outcome (Tiling EE) :=
  if 0 <? passes then
    let revisitCount := tl_revisitCount t - 1 in
    if revisitCount <? 0 then
      Return (mkTiling (tl_tiles t) (tl_p t) (tl_topleft t) (tl_tx t)
                       (tl_ty t) (tl_ee t) revisitCount)
    else
      let old_filter := tl_tiles t (tl_p t) in
      let ee :=
        if load (_filter_indices w) old_filter <? MF_COUNT
        then ee_subtract (tl_ee t) (codes_of old_filter x y (tl_topleft t))
        else tl_ee t in
      Next (mkTiling (tl_tiles t) (tl_p t) (tl_topleft t) (tl_tx t)
                     (tl_ty t) ee revisitCount)
  else Next t.

(** A tile is live when it is neither masked nor a palette tile. *)
Definition live (t : Tiling EE) : bool :=
  tl_tiles t (tl_p t) <? _normal_filter_count w.

(** What one tile costs: a live tile met on a second or later pass costs
    one revisit, any other tile none. *)
Definition charge (passes : Z) (t : Tiling EE) : Z :=
  if live t && (0 <? passes) then 1 else 0.

(** The body of the column loop for the tile whose corner is (x, y). *)
Definition visit_tile (passes y x : Z) (t : Tiling EE)
  : outcome (Tiling EE) :=
  if live t then
    match revisit passes x y t with
    | Next t1 =>
        let best := u8w (bestFilterIndex t1 x y) in
        Next (next_tile
                (mkTiling (store (tl_tiles t1) (tl_p t1) best) (tl_p t1)
                          (tl_topleft t1) (tl_tx t1) (tl_ty t1) (tl_ee t1)
                          (tl_revisitCount t1)))
    | r => r
    end
  else Next (next_tile t).

(** The body of the row loop: [int tx = 0], the columns, then [++ty]. *)
Definition visit_row (fuel : nat) (passes y : Z) (t : Tiling EE)
  : outcome (Tiling EE) :=
  match for_u16 fuel 0 sx tile_size_x (visit_tile passes y)
                (mkTiling (tl_tiles t) (tl_p t) (tl_topleft t) 0 (tl_ty t)
                          (tl_ee t) (tl_revisitCount t)) with
  | Next t' =>
      Next (mkTiling (tl_tiles t') (tl_p t') (tl_topleft t') (tl_tx t')
                     (tl_ty t' + 1) (tl_ee t') (tl_revisitCount t'))
  | r => r
  end.

(** One turn of the [while]: [topleft = _params.data; ty = 0], then the
    rows.  [p] keeps the value the turn before left it with. *)
Definition one_pass (fuel : nat) (passes : Z) (t : Tiling EE)
  : outcome (Tiling EE) :=
  for_u16 fuel 0 sy tile_size_y (visit_row fuel passes)
          (mkTiling (tl_tiles t) (tl_p t) 0 (tl_tx t) 0 (tl_ee t)
                    (tl_revisitCount t)).

(** [while (passes < MAX_PASSES) { ... }]: no statement of the body
    assigns [passes], so every turn runs with the same value. *)
Fixpoint pass_loop (fuel : nat) (passes : Z) (t : Tiling EE)
  : outcome (Tiling EE) :=
  match fuel with
  | O => OutOfFuel
  | S fuel' =>
      if passes <? MAX_PASSES then
        match one_pass fuel passes t with
        | Next t' => pass_loop fuel' passes t'
        | r => r
        end
      else Next t
  end.

Definition set_tiles (tiles : list Z) : MonoWriter :=
  mkMonoWriter (_params w) (_tile_bits_x w) (_tile_bits_y w)
    (_tile_size_x w) (_tile_size_y w) (_tiles_x w) (_tiles_y w)
    (_tiles_count w) tiles (_tile_row_filters w) (_residuals w)
    (_normal_filter_count w) (_sympal_filter_count w) (_filter_count w)
    (_filter_indices w) (_sympal w) (_row_filter_entropy w) (_chaos w)
    (_chaos_levels w) (_chaos_entropy w) (_filter_encoder w).

Definition start : Tiling EE :=
  mkTiling (load (_tiles w)) 0 0 0 0 ee_init mono_revisitCount.

(** [designTiles]: [Some] writer when the function comes back within
    [fuel] turns of each loop, [None] when it does not. *)
Definition designTiles (fuel : nat) : option MonoWriter :=
  match pass_loop fuel 0 start with
  | Next t | Return t =>
      Some (set_tiles (map (fun i => tl_tiles t (Z.of_nat i))
                           (seq 0 (length (_tiles w)))))
  | OutOfFuel => None
  end.
End DesignTiles.

(** ** [MonoWriter::recurseCompress] and [MonoWriter::process] *)

Definition set_filter_encoder (w : MonoWriter) (child : option MonoWriter)
  : MonoWriter :=
  mkMonoWriter (_params w) (_tile_bits_x w) (_tile_bits_y w) (_tile_size_x w)
    (_tile_size_y w) (_tiles_x w) (_tiles_y w) (_tiles_count w) (_tiles w)
    (_tile_row_filters w) (_residuals w) (_normal_filter_count w)
    (_sympal_filter_count w) (_filter_count w) (_filter_indices w) (_sympal w)
    (_row_filter_entropy w) (_chaos w) (_chaos_levels w) (_chaos_entropy w)
    child.

(** [Parameters params = _params] with the four members the source
    overwrites: the plane is the parent's tile map, masked where the parent's
    tile is [MASK_TILE]. *)
Definition recurse_params (w : MonoWriter) : Parameters :=
  mkParameters (_tiles w) (_filter_count w)
    (Z.to_nat (_tiles_x w)) (Z.to_nat (_tiles_y w))
    (min_bits (_params w)) (max_bits (_params w)) (IsMasked w).

(** The members the [for] loop of [process] sets before it runs the design
    stages for one tile-edge bit count.  The bit count, the tile edge and the
    tile counts are 16-bit members (every stage reads them into a [u16], and
    the sibling [ImageRGBAWriter] declares them [u16]), so what is assigned
    wraps at 16 bits; the shifts are those of the source for bit counts 0
    to 31, and the two products are taken not to overflow.  The three arrays
    it allocates are taken to start zeroed. *)
Definition init_bits (w : MonoWriter) (bits : Z) : MonoWriter :=
  let tile_size := u16w (Z.shiftl 1 bits) in
  let tiles_x :=
    u16w (Z.shiftr (Z.of_nat (size_x (_params w)) + tile_size - 1) bits) in
  let tiles_y :=
    u16w (Z.shiftr (Z.of_nat (size_y (_params w)) + tile_size - 1) bits) in
  let tiles_count := tiles_x * tiles_y in
  mkMonoWriter (_params w) (u16w bits) (u16w bits) tile_size tile_size
    tiles_x tiles_y tiles_count
    (replicate (Z.to_nat tiles_count) 0)
    (replicate (Z.to_nat tiles_y) 0)
    (replicate (size_x (_params w) * size_y (_params w)) 0)
    (_normal_filter_count w) (_sympal_filter_count w) (_filter_count w)
    (_filter_indices w) (_sympal w) (_row_filter_entropy w) (_chaos w)
    (_chaos_levels w) (_chaos_entropy w) (_filter_encoder w).

(** [cleanup(); _params = params; _filter_encoder = 0;]. *)
Definition fresh (params : Parameters) : MonoWriter :=
  mkMonoWriter params 0 0 0 0 0 0 0 [] [] [] 0 0 0 [] [] 0 [] 0 0 None.

(** The locals [best_entropy] and [best_bits] together with the writer. *)
Record TileSearch := mkTileSearch {
  best_entropy : Z;
  best_bits : Z;
  writer : MonoWriter
}.

(** The design stages [process] calls for each bit count. *)
Inductive Stage :=
| MaskTiles
| DesignPaletteFilters
| DesignFilters
| DesignPaletteTiles
| DesignTiles
| ComputeResiduals
| DesignRowFilters
| RecurseCompress
| DesignChaos.

(** The order in which the source calls them. *)
Definition stage_order : list Stage :=
  [MaskTiles; DesignPaletteFilters; DesignFilters; DesignPaletteTiles;
   DesignTiles; ComputeResiduals; DesignRowFilters; RecurseCompress;
   DesignChaos].

(** [for (int bits = params.min_bits; bits <= params.max_bits; ++bits)]. *)
Definition bits_tried (params : Parameters) : list Z :=
  seqZ (min_bits params) (max_bits params - min_bits params + 1).

Section Process.
(** What [designTiles] needs. *)
Variable EE : Type.
Variable ee_init : EE.
Variable ee_subtract : EE -> list Z -> EE.
Variable ee_entropy : EE -> list Z -> Z.
Variable MF_COUNT : Z.
Variable _filters : Z -> MonoFilter.
Variable heap : Z -> Z.
Variable mono_revisitCount : Z.
(** The constant of MonoWriter.hpp. *)
Variable RECURSIVE_THRESH : Z.
(** [process] is declared [u32] and ends without a [return] statement:
    [returned] is the value its caller finds, which no statement of
    [process] sets. *)
Variable returned : Z.
(** The seven stages other than [designTiles] and [recurseCompress], which
    yield [None] when they do not come back. *)
Variable other_stage : Stage -> MonoWriter -> option MonoWriter.

Section Turn.
(** [_filter_encoder->process(params)] on the new child writer. *)
Variable child_process : Parameters -> option TileSearch.

Definition recurseCompress (w : MonoWriter) : option MonoWriter :=
  if _tiles_count w <? RECURSIVE_THRESH then Some w
  else
    match child_process (recurse_params w) with
    | Some child =>
        let recurse_entropy := u32w returned in
        Some (if _row_filter_entropy w <? recurse_entropy
              then set_filter_encoder w None
              else set_filter_encoder w (Some (writer child)))
    | None => None
    end.

Definition run_stage (fuel : nat) (stage : Stage) (w : MonoWriter)
  : option MonoWriter :=
  match stage with
  | DesignTiles =>
      designTiles EE ee_init ee_subtract ee_entropy MF_COUNT _filters heap
                  mono_revisitCount w fuel
  | RecurseCompress => recurseCompress w
  | _ => other_stage stage w
  end.

(** The stages one after the other; a stage that does not come back ends
    the run. *)
Definition run_stages (fuel : nat) (stages : list Stage) (w : MonoWriter)
  : option MonoWriter :=
  fold_left (fun ow stage =>
               match ow with
               | Some w' => run_stage fuel stage w'
               | None => None
               end)
            stages (Some w).

(** The loop body: the locals are declared before the loop and no
    statement of the body assigns them. *)
Definition process_bits (fuel : nat) (s : option TileSearch) (bits : Z)
  : option TileSearch :=
  match s with
  | Some s =>
      match run_stages fuel stage_order (init_bits (writer s) bits) with
      | Some w' => Some (mkTileSearch (best_entropy s) (best_bits s) w')
      | None => None
      end
  | None => None
  end.

Definition process_turns (fuel : nat) (params : Parameters)
  : option TileSearch :=
  fold_left (process_bits fuel) (bits_tried params)
            (Some (mkTileSearch INT_MAX (max_bits params) (fresh params))).
End Turn.

(** [process]: the state it leaves when it comes back within [fuel] turns
    of each loop and [fuel] nested calls, [None] when it does not.  The
    child's [process] of [recurseCompress] is this function again. *)
Fixpoint process (fuel : nat) (params : Parameters) : option TileSearch :=
  match fuel with
  | O => None
  | S fuel' => process_turns (process fuel') fuel params
  end.
End Process.

End Mono.

(** * ImageRGBAReader *)

Module Reader.

(** [YUV2RGBFilterFunction]: [cf(YUV, p)] turns three residual bytes into the
    three colour bytes it stores at [p]. *)
Definition YUV2RGBFilterFunction : Type := Z * Z * Z -> Z * Z * Z.

(** One spatial predictor: [sf(p, FPT, x, y, xsize)] reads the pixels
    already decoded around byte offset [p] and yields [pred[0..2]]. *)
Definition RGBAFilterFunc : Type := list Z -> nat -> Z -> Z -> Z -> Z * Z * Z.

(** [RGBAFilterFuncs]: the bounds-checked and the unchecked variant. *)
Record RGBAFilterFuncs := mkRGBAFilterFuncs {
  safe : RGBAFilterFunc;
  unsafe : RGBAFilterFunc
}.

(** [FilterSelection]; a null [cf] is [None]. *)
Record FilterSelection := mkFilterSelection {
  cf : option YUV2RGBFilterFunction;
  sf : RGBAFilterFuncs
}.

Definition ready (f : FilterSelection) : bool :=
  match cf f with Some _ => true | None => false end.

Definition no_prediction : RGBAFilterFunc := fun _ _ _ _ _ => (0, 0, 0).

Definition blank : FilterSelection :=
  mkFilterSelection None (mkRGBAFilterFuncs no_prediction no_prediction).

Section Decoder.
(** [ImageReader]: the state of the bit stream. *)
Variable Stream : Type.
(** [EntropyDecoder::next] of [_y_decoder[bin]], [_u_decoder[bin]] and
    [_v_decoder[bin]]: the symbol read and the stream after it. *)
Variable y_next : Z -> Stream -> Z * Stream.
Variable u_next : Z -> Stream -> Z * Stream.
Variable v_next : Z -> Stream -> Z * Stream.
(** [MonoReader]: its state, and [read(x, reader)], [read_unsafe(x, reader)]. *)
Variable MonoReader : Type.
Variable mono_read : MonoReader -> Z -> Stream -> Z * MonoReader * Stream.
Variable mono_read_unsafe :
  MonoReader -> Z -> Stream -> Z * MonoReader * Stream.
(** [RGBChaos]: its state, [get(x, cy, cu, cv)] and [store(x, YUV)]. *)
Variable RGBChaos : Type.
Variable chaos_get : RGBChaos -> Z -> Z * Z * Z.
Variable chaos_store : RGBChaos -> Z -> Z * Z * Z -> RGBChaos.
(** The colour filter catalogue. *)
Variable YUV2RGB_FILTERS : Z -> YUV2RGBFilterFunction.

Record ImageRGBAReader := mkImageRGBAReader {
  _rgba : list Z;
  _xsize : Z;
  _ysize : Z;
  _tile_bits_x : Z;
  _tile_bits_y : Z;
  _sf : Z -> RGBAFilterFuncs;
  _filters : list FilterSelection;
  _sf_decoder : MonoReader;
  _cf_decoder : MonoReader;
  _a_decoder : MonoReader;
  _chaos : RGBChaos
}.

Definition filter_at (d : ImageRGBAReader) (tx : nat) : FilterSelection :=
  default blank (_filters d !! tx).

(** [readFilter]: the tile column's selection, read from the stream the
    first time the column is met. *)
Definition readFilter (d : ImageRGBAReader) (x y : Z) (reader : Stream)
  : ImageRGBAReader * Stream * FilterSelection :=
  let tx := u16w (Z.shiftr x (_tile_bits_x d)) in
  let filter := filter_at d (Z.to_nat tx) in
  if ready filter then (d, reader, filter)
  else
    let '(cf_id, cf_decoder, reader1) := mono_read (_cf_decoder d) tx reader in
    let '(sf_id, sf_decoder, reader2) := mono_read (_sf_decoder d) tx reader1 in
    let filter' :=
      mkFilterSelection (Some (YUV2RGB_FILTERS cf_id)) (_sf d sf_id) in
    (mkImageRGBAReader (_rgba d) (_xsize d) (_ysize d) (_tile_bits_x d)
       (_tile_bits_y d) (_sf d)
       (<[Z.to_nat tx := filter']> (_filters d))
       sf_decoder cf_decoder (_a_decoder d) (_chaos d),
     reader2, filter').

Definition apply_cf (f : FilterSelection) (YUV : Z * Z * Z) : Z * Z * Z :=
  match cf f with Some g => g YUV | None => (0, 0, 0) end.

(** [p[0..2] = rgb]. *)
Definition put_rgb (rgba : list Z) (p : nat) (rgb : Z * Z * Z) : list Z :=
  let '(r, g, b) := rgb in
  poke (poke (poke rgba p (u8w r)) (p + 1) (u8w g)) (p + 2) (u8w b).

(** [p[0] += pred[0]; p[1] += pred[1]; p[2] += pred[2]]. *)
Definition add_pred (rgba : list Z) (p : nat) (pred : Z * Z * Z) : list Z :=
  let '(r, g, b) := pred in
  poke (poke (poke rgba p (u8w (peek rgba p + r)))
             (p + 1) (u8w (peek rgba (p + 1) + g)))
       (p + 2) (u8w (peek rgba (p + 2) + b)).

Definition set_pixel_state (d : ImageRGBAReader) (rgba : list Z)
    (a_decoder : MonoReader) (chaos : RGBChaos) : ImageRGBAReader :=
  mkImageRGBAReader rgba (_xsize d) (_ysize d) (_tile_bits_x d)
    (_tile_bits_y d) (_sf d) (_filters d) (_sf_decoder d) (_cf_decoder d)
    a_decoder chaos.

(** [readSafe(x, y, p, reader)]. *)
Definition readSafe (d : ImageRGBAReader) (x y : Z) (p : nat)
    (reader : Stream) : ImageRGBAReader * Stream :=
  let '(cy, cu, cv) := chaos_get (_chaos d) x in
  let '(code, reader1) := y_next cy reader in
  let pixel_code := u16w code in
  if 256 <=? pixel_code then
    (* TODO *)
    (d, reader1)
  else
    let '(u, reader2) := u_next cu reader1 in
    let '(v, reader3) := v_next cv reader2 in
    let YUV := (u8w pixel_code, u8w u, u8w v) in
    let '(d1, reader4, filter) := readFilter d x y reader3 in
    let rgba1 := put_rgb (_rgba d1) p (apply_cf filter YUV) in
    let pred := safe (sf filter) rgba1 p x y (_xsize d1) in
    let rgba2 := add_pred rgba1 p pred in
    let '(a, a_decoder, reader5) := mono_read (_a_decoder d1) x reader4 in
    let rgba3 := poke rgba2 (p + 3) (u8w (Z.lnot a)) in
    (set_pixel_state d1 rgba3 a_decoder (chaos_store (_chaos d1) x YUV),
     reader5).

(** [readUnsafe(x, y, p, reader)]: "should be exactly the same as above,
    except call unsafe()". *)
Definition readUnsafe (d : ImageRGBAReader) (x y : Z) (p : nat)
    (reader : Stream) : ImageRGBAReader * Stream :=
  let '(cy, cu, cv) := chaos_get (_chaos d) x in
  let '(code, reader1) := y_next cy reader in
  let pixel_code := u16w code in
  if 256 <=? pixel_code then
    (* TODO *)
    (d, reader1)
  else
    let '(u, reader2) := u_next cu reader1 in
    let '(v, reader3) := v_next cv reader2 in
    let YUV := (u8w pixel_code, u8w u, u8w v) in
    let '(d1, reader4, filter) := readFilter d x y reader3 in
    let rgba1 := put_rgb (_rgba d1) p (apply_cf filter YUV) in
    let pred := unsafe (sf filter) rgba1 p x y (_xsize d1) in
    let rgba2 := add_pred rgba1 p pred in
    let '(a, a_decoder, reader5) :=
      mono_read_unsafe (_a_decoder d1) x reader4 in
    let rgba3 := poke rgba2 (p + 3) (u8w (Z.lnot a)) in
    (set_pixel_state d1 rgba3 a_decoder (chaos_store (_chaos d1) x YUV),
     reader5).

(** The Y symbol a pixel read starts with, and the stream after it. *)
Definition y_symbol (d : ImageRGBAReader) (x : Z) (reader : Stream)
  : Z * Stream :=
  let '(code, reader1) :=
    y_next (fst (fst (chaos_get (_chaos d) x))) reader in
  (u16w code, reader1).

(** Where a pixel read stands when it is about to call the spatial filter:
    the decoder and the stream after the Y, U, V symbols and the tile's
    filters, the filter selection, and the buffer with the colour filter's
    output at [p].  [None] when the Y symbol is an escape. *)
Definition before_prediction (d : ImageRGBAReader) (x y : Z) (p : nat)
    (reader : Stream)
  : option (ImageRGBAReader * Stream * FilterSelection * list Z) :=
  let '(cy, cu, cv) := chaos_get (_chaos d) x in
  let '(code, reader1) := y_next cy reader in
  if 256 <=? u16w code then None
  else
    let '(u, reader2) := u_next cu reader1 in
    let '(v, reader3) := v_next cv reader2 in
    let '(d1, reader4, filter) := readFilter d x y reader3 in
    Some (d1, reader4, filter,
          put_rgb (_rgba d1) p
                  (apply_cf filter (u8w (u16w code), u8w u, u8w v))).
End Decoder.

End Reader.

(** * LZMatchFinder *)

Module LZ.

(** The constants of [class LZMatchFinder]. *)
Definition MAX_MATCH : Z := 4096.
Definition WIN_SIZE : Z := 1024 * 1024.
Definition RGBA_MIN_MATCH : Z := 2.
Definition RGBA_DIST_PREFIX_COST : Z := 7.
Definition RGBA_LEN_PREFIX_COST : Z := 5.
Definition RGBA_SAVED_PIXEL_BITS : Z := 9.
Definition RGBA_HASH_BITS : Z := 18.
Definition RGBA_HASH_SIZE : Z := Z.shiftl 1 RGBA_HASH_BITS.
Definition RGBA_HASH_MULT : Z := 0xc6a4a7935bd1e995.
Definition GUARD_OFFSET : Z := 0xffffffff.

(** Modelled from the spec: the hash of two pixels under which the scan
    files an offset.  [LZMatchFinder::HashRGBA] evaluates this expression over
    [rgba[0]] and [rgba[1]] and ends without a [return] statement, so the
    source does not fix the value a caller receives; the scan below, itself
    modelled from the spec, hashes with the value of the expression. *)
Definition HashRGBA (rgba0 rgba1 : Z) : Z :=
  u32w (Z.shiftr (u64w (Z.lor (Z.shiftl rgba0 32) rgba1 * RGBA_HASH_MULT))
                 (64 - RGBA_HASH_BITS)).

(** [struct LZMatch] *)
Record LZMatch := mkLZMatch {
  m_offset : Z;
  m_distance : Z;
  m_length : Z
}.

Section ScanRGBA.
(** The image as [u32] pixels, row by row, and its size. *)
Variable rgba : list Z.
Variable xsize ysize : Z.
(** The dominant-colour mask, [is_masked(x, y)]. *)
Variable is_masked : Z -> Z -> bool.
(** How many entries of a hash chain are looked at. *)
Variable CHAIN_LIMIT : nat.

Definition pixels : Z := xsize * ysize.
Definition pixel (off : Z) : Z := peek rgba (Z.to_nat off).
Definition masked_at (off : Z) : bool :=
  is_masked (off mod xsize) (off / xsize).

(** Modelled from the spec: the body of [scanRGBA] is not among the
    sources.  "For each candidate extend match forward by 1 pixel at a time
    up to MAX_MATCH=4096, bail if match would cross masked pixels": [k]
    pixels match so far, [fuel] more may be added. *)
Fixpoint extend (fuel : nat) (src dst k : Z) : Z :=
  match fuel with
  | O => k
  | S fuel' =>
      if (dst + k <? pixels)
         && negb (masked_at (src + k)) && negb (masked_at (dst + k))
         && (pixel (src + k) =? pixel (dst + k))
      then extend fuel' src dst (k + 1)
      else k
  end.

Definition match_length (src dst : Z) : Z :=
  extend (Z.to_nat MAX_MATCH) src dst 0.

(** Modelled from the spec: "a match of length L at distance D saves
    L * SAVED_PIXEL_BITS - (LEN_PREFIX_COST + ceil(log2 L) + DIST_PREFIX_COST
    + ceil(log2 D)) bits". *)
Definition saved_bits (L D : Z) : Z :=
  L * RGBA_SAVED_PIXEL_BITS
  - (RGBA_LEN_PREFIX_COST + Z.log2_up L
     + RGBA_DIST_PREFIX_COST + Z.log2_up D).

(** Modelled from the spec: a candidate is accepted when it lies in the
    sliding window, is at least [RGBA_MIN_MATCH] long and saves bits. *)
Definition accepted (D L : Z) : bool :=
  (D <=? WIN_SIZE) && (RGBA_MIN_MATCH <=? L) && (0 <? saved_bits L D).

(** Modelled from the spec: "among accepted, pick longest-then-nearest". *)
Definition better (D L : Z) (best : option (Z * Z)) : bool :=
  match best with
  | None => true
  | Some (D', L') => (L' <? L) || ((L' =? L) && (D <? D'))
  end.

(** Modelled from the spec: "hash chain walked to depth bounded by a small
    constant".  [_table] maps a hash to the latest offset that had it and
    [_chain] maps an offset to the one before it with the same hash. *)
Fixpoint chain_walk (depth : nat) (chain : gmap Z Z) (j : Z) : list Z :=
  match depth with
  | O => []
  | S depth' =>
      j :: match chain !! j with
           | Some j' => chain_walk depth' chain j'
           | None => []
           end
  end.

Definition hash_at (off : Z) : Z := HashRGBA (pixel off) (pixel (off + 1)).

Definition candidates (table chain : gmap Z Z) (off : Z) : list Z :=
  match table !! hash_at off with
  | Some j => chain_walk CHAIN_LIMIT chain j
  | None => []
  end.

Definition consider (off : Z) (best : option (Z * Z)) (j : Z)
  : option (Z * Z) :=
  let D := off - j in
  let L := match_length j off in
  if accepted D L && better D L best then Some (D, L) else best.

Definition best_match (table chain : gmap Z Z) (off : Z) : option (Z * Z) :=
  fold_left (consider off) (candidates table chain off) None.

Definition remember (table chain : gmap Z Z) (off : Z)
  : gmap Z Z * gmap Z Z :=
  (<[hash_at off := off]> table,
   match table !! hash_at off with
   | Some j => <[off := j]> chain
   | None => chain
   end).

(** Modelled from the spec: the scan over the pixel offsets.  A position
    whose two hashed pixels are not both unmasked is passed over; a chosen
    match is recorded at its start offset and the scan goes on behind it.
    [found] holds the matches in reverse. *)
Fixpoint scan (fuel : nat) (off : Z) (table chain : gmap Z Z)
    (found : list LZMatch) : list LZMatch :=
  match fuel with
  | O => rev found
  | S fuel' =>
      if off + 1 <? pixels then
        if masked_at off || masked_at (off + 1) then
          scan fuel' (off + 1) table chain found
        else
          let '(table', chain') := remember table chain off in
          match best_match table chain off with
          | Some (D, L) =>
              scan fuel' (off + L) table' chain' (mkLZMatch off D L :: found)
          | None => scan fuel' (off + 1) table' chain' found
          end
      else rev found
  end.

(** Modelled from the spec: [scanRGBA(rgba, xsize, ysize)], the matches it
    finds, sorted by offset. *)
Definition scanRGBA : list LZMatch :=
  scan (Z.to_nat pixels) 0 ∅ ∅ [].

(** [_matches]: "match list, with guard at end". *)
Definition _matches : list LZMatch :=
  scanRGBA ++ [mkLZMatch GUARD_OFFSET 0 0].

(** Pixel [i] of a match copied from [src] to [dst] is inside the image,
    equal at both ends and unmasked at both ends. *)
Definition copies (src dst i : Z) : Prop :=
  dst + i < pixels
  /\ masked_at (src + i) = false /\ masked_at (dst + i) = false
  /\ pixel (src + i) = pixel (dst + i).

(** What the claim asks of a match at [off] with distance [D] and length
    [L]. *)
Definition sound_match (off D L : Z) : Prop :=
  1 <= D /\ 0 <= off - D /\ D <= WIN_SIZE
  /\ RGBA_MIN_MATCH <= L <= MAX_MATCH
  /\ forall i, 0 <= i < L -> copies (off - D) off i.

Definition sound (m : LZMatch) : Prop :=
  sound_match (m_offset m) (m_distance m) (m_length m).

(** Offsets kept in the hash table lie before the scan position; a chain
    link leads to an earlier offset. *)
Definition table_before (off : Z) (table : gmap Z Z) : Prop :=
  forall h j, table !! h = Some j -> 0 <= j < off.

Definition chain_backwards (chain : gmap Z Z) : Prop :=
  forall k j, chain !! k = Some j -> 0 <= j < k.
End ScanRGBA.

End LZ.

(** * The pixel scan of the codec driver *)

Module Codec.
Import Reader.

(** ** A symbol-level bit stream *)

(** Modelled from the spec: the bit reader, the static Huffman codec and
    [MonoReader] are collaborators outside the sources.  Here a stream is
    the sequence of symbols still to be decoded; every [next] or [read]
    takes the first one (0 once the stream has run out) and notes which
    decoder asked for it. *)

Inductive Event :=
| EvY (bin : Z)
| EvU (bin : Z)
| EvV (bin : Z)
| EvCF (tx : Z)
| EvSF (tx : Z)
| EvA (x : Z).

Record Tokens := mkTokens { pending : list Z; trace : list Event }.

Definition take (e : Event) (s : Tokens) : Z * Tokens :=
  (hd 0 (pending s), mkTokens (tl (pending s)) (trace s ++ [e])).

Definition tok_y (bin : Z) := take (EvY bin).
Definition tok_u (bin : Z) := take (EvU bin).
Definition tok_v (bin : Z) := take (EvV bin).

(** The three [MonoReader] members, told apart by the map they decode. *)
Inductive MonoMap := SFMap | CFMap | AlphaMap.

Definition mono_event (m : MonoMap) (x : Z) : Event :=
  match m with SFMap => EvSF x | CFMap => EvCF x | AlphaMap => EvA x end.

Definition tok_mono (m : MonoMap) (x : Z) (s : Tokens)
  : Z * MonoMap * Tokens :=
  let '(v, s') := take (mono_event m x) s in (v, m, s').

(** ** Sample tables and catalogues *)

(** Modelled from the spec: "score is a saturating magnitude to small-int
    mapping (lookup table 0..255 to 0..15)"; the table itself is not among
    the sources. *)
Definition RESIDUAL_SCORE (r : Z) : Z :=
  Z.min (Z.min (u8w r) (256 - u8w r)) 15.

(** Modelled from the spec: a chaos table for K levels maps a score sum to
    a bin below K; [CHAOS_MAPS i] is the table for K = i + 1 levels. *)
Definition CHAOS_MAPS (i s : Z) : Z := Z.min s i.

(** Modelled from the spec: [RGBChaos], "[last[0..W]] holding the score of
    the residual emitted at (x, y-1)" per channel and the score of the
    residual just decoded to the left, zero at the start of a row. *)
Record RGBChaos := mkRGBChaos {
  ch_levels : Z;
  ch_last : list (Z * Z * Z);
  ch_left : Z * Z * Z
}.

Definition chaos_get (c : RGBChaos) (x : Z) : Z * Z * Z :=
  let '(ly, lu, lv) := ch_left c in
  let '(ay, au, av) := default (0, 0, 0) (ch_last c !! Z.to_nat x) in
  let bin a b := CHAOS_MAPS (ch_levels c - 1) (a + b) in
  (bin ly ay, bin lu au, bin lv av).

Definition chaos_store (c : RGBChaos) (x : Z) (YUV : Z * Z * Z) : RGBChaos :=
  let '(y, u, v) := YUV in
  let s := (RESIDUAL_SCORE y, RESIDUAL_SCORE u, RESIDUAL_SCORE v) in
  mkRGBChaos (ch_levels c) (<[Z.to_nat x := s]> (ch_last c)) s.

Definition chaos_start_row (c : RGBChaos) : RGBChaos :=
  mkRGBChaos (ch_levels c) (ch_last c) (0, 0, 0).

(** Modelled from the spec: the colour filter catalogue is not among the
    sources.  Two filters of the lossless family, inverse and forward: the
    identity, and Y = G, U = B - G, V = R - G. *)
Definition YUV2RGB_FILTERS (id : Z) : YUV2RGBFilterFunction :=
  fun '(y, u, v) =>
    if id =? 1 then (u8w (v + y), y, u8w (u + y)) else (y, u, v).

Definition RGB2YUV_FILTERS (id : Z) : Z * Z * Z -> Z * Z * Z :=
  fun '(r, g, b) =>
    if id =? 1 then (g, u8w (b - g), u8w (r - g)) else (r, g, b).

(** Modelled from the spec: the spatial filter catalogue is not among the
    sources.  Two filters: predict zero, and predict the pixel to the left;
    the checked variant tests the column, the unchecked one reads [p - 4]. *)
Definition left_pixel (rgba : list Z) (p : nat) : Z * Z * Z :=
  (peek rgba (p - 4), peek rgba (p - 3), peek rgba (p - 2)).

Definition SF_CATALOG (id : Z) : RGBAFilterFuncs :=
  if id =? 1 then
    mkRGBAFilterFuncs
      (fun rgba p x y xsize => if 0 <? x then left_pixel rgba p else (0, 0, 0))
      (fun rgba p x y xsize => left_pixel rgba p)
  else mkRGBAFilterFuncs no_prediction no_prediction.

(** The decoder over symbol streams. *)
Definition Decoder : Type := ImageRGBAReader MonoMap RGBChaos.

Definition readFilter : Decoder -> Z -> Z -> Tokens -> _ :=
  Reader.readFilter Tokens MonoMap tok_mono RGBChaos YUV2RGB_FILTERS.

Definition readSafe : Decoder -> Z -> Z -> nat -> Tokens -> Decoder * Tokens :=
  Reader.readSafe Tokens tok_y tok_u tok_v MonoMap tok_mono RGBChaos
                  chaos_get chaos_store YUV2RGB_FILTERS.

Definition readUnsafe : Decoder -> Z -> Z -> nat -> Tokens -> Decoder * Tokens :=
  Reader.readUnsafe Tokens tok_y tok_u tok_v MonoMap tok_mono tok_mono
                    RGBChaos chaos_get chaos_store YUV2RGB_FILTERS.

(** The tile column of pixel column [x], as [readFilter] computes it. *)
Definition tile_column (d : Decoder) (x : Z) : Z :=
  u16w (Z.shiftr x (_tile_bits_x _ _ d)).

(** ** The image, the header values and the two pixel scans *)

Record Image := mkImage {
  im_rgba : list Z;        (* 4 bytes per pixel: R, G, B, A, row by row *)
  im_xsize : Z;
  im_ysize : Z
}.

(** What the header carries from the encoder to the decoder, and the
    encoder's choice of filters per tile. *)
Record Plan := mkPlan {
  tile_bits : Z;
  chaos_levels : Z;
  sf_tiles : Z -> Z -> Z;
  cf_tiles : Z -> Z -> Z;
  lz_enable : bool
}.

Definition set_rgba_chaos (d : Decoder) (rgba : list Z) (chaos : RGBChaos)
  : Decoder :=
  mkImageRGBAReader MonoMap RGBChaos rgba (_xsize _ _ d) (_ysize _ _ d)
    (_tile_bits_x _ _ d) (_tile_bits_y _ _ d) (_sf _ _ d) (_filters _ _ d)
    (_sf_decoder _ _ d) (_cf_decoder _ _ d) (_a_decoder _ _ d) chaos.

(** Modelled from the spec: at the start of a row the left chaos score is
    zero, and at the start of a tile row no tile column has been seen. *)
Definition start_row (d : Decoder) (y : Z) : Decoder :=
  let tile_mask_y := Z.shiftl 1 (_tile_bits_y _ _ d) - 1 in
  mkImageRGBAReader MonoMap RGBChaos (_rgba _ _ d) (_xsize _ _ d)
    (_ysize _ _ d) (_tile_bits_x _ _ d) (_tile_bits_y _ _ d) (_sf _ _ d)
    (if Z.land y tile_mask_y =? 0
     then replicate (length (_filters _ _ d)) blank else _filters _ _ d)
    (_sf_decoder _ _ d) (_cf_decoder _ _ d) (_a_decoder _ _ d)
    (chaos_start_row (_chaos _ _ d)).

(** The pixel at offset [off] as the [u32] the match finder reads. *)
Definition pixel32 (rgba : list Z) (off : Z) : Z :=
  let p := Z.to_nat (4 * off) in
  peek rgba p + Z.shiftl (peek rgba (p + 1)) 8
  + Z.shiftl (peek rgba (p + 2)) 16 + Z.shiftl (peek rgba (p + 3)) 24.

Section PixelScan.
(** The dominant-colour mask and the colour its pixels decode to. *)
Variable is_masked : Z -> Z -> bool.
Variable mask_color : Z * Z * Z * Z.
Variable plan : Plan.

Definition put_mask_color (rgba : list Z) (p : nat) : list Z :=
  let '(r, g, b, a) := mask_color in
  poke (poke (poke (poke rgba p r) (p + 1) g) (p + 2) b) (p + 3) a.

(** Modelled from the spec: the body of [readPixels] is not among the
    sources.  "For each pixel in scan order, consult mask; if masked, emit
    the reconstructed pixel from the mask-color store and advance";
    otherwise the border of the image goes through [readSafe] and the
    interior through [readUnsafe]. *)
Definition read_pixel (y : Z) (st : Decoder * Tokens) (x : Z)
  : Decoder * Tokens :=
  let '(d, reader) := st in
  let p := Z.to_nat (4 * (x + y * _xsize _ _ d)) in
  if is_masked x y then
    (set_rgba_chaos d (put_mask_color (_rgba _ _ d) p)
                    (chaos_store (_chaos _ _ d) x (0, 0, 0)), reader)
  else if (y =? 0) || (x =? 0) || (x =? _xsize _ _ d - 1) then
    readSafe d x y p reader
  else readUnsafe d x y p reader.

(** Modelled from the spec: the pixels of a row, left to right. *)
Definition read_row (st : Decoder * Tokens) (y : Z) : Decoder * Tokens :=
  let '(d, reader) := st in
  fold_left (read_pixel y) (seqZ 0 (_xsize _ _ d)) (start_row d y, reader).

(** Modelled from the spec: [readPixels], the rows from the top. *)
Definition readPixels (d : Decoder) (reader : Tokens) : Decoder * Tokens :=
  fold_left read_row (seqZ 0 (_ysize _ _ d)) (d, reader).

(** Modelled from the spec: [read], after the header and the tables: an
    output image of the size the header gives, no tile filter read yet. *)
Definition read (xsize ysize : Z) (symbols : list Z) : Image :=
  let tiles_x :=
    Z.shiftr (xsize + Z.shiftl 1 (tile_bits plan) - 1) (tile_bits plan) in
  let d : Decoder :=
    mkImageRGBAReader MonoMap RGBChaos
      (replicate (Z.to_nat (4 * xsize * ysize)) 0) xsize ysize
      (tile_bits plan) (tile_bits plan) SF_CATALOG
      (replicate (Z.to_nat tiles_x) blank) SFMap CFMap AlphaMap
      (mkRGBChaos (chaos_levels plan)
                  (replicate (Z.to_nat xsize) (0, 0, 0)) (0, 0, 0)) in
  mkImage (_rgba _ _ (fst (readPixels d (mkTokens symbols [])))) xsize ysize.

(** The encoder's pixel pass: symbols written, tile columns whose filters
    were sent in this tile row, matches not yet used, pixels still covered
    by the match in progress. *)
Record Emit := mkEmit {
  out : list Z;
  seen : list bool;
  matches : list LZ.LZMatch;
  skip : Z
}.

Variable img : Image.

(** Modelled from the spec: "pred = SF(neighborhood); r = pixel - pred (mod
    256 per channel); apply the tile's CF to r to get (Y, U, V)"; "for the
    A channel, write 255 - A".  The filter ids of a tile not yet seen
    follow the pixel's Y, U, V in the order the decoder reads them. *)
Definition literal (e : Emit) (x y : Z) : Emit :=
  let rgba := im_rgba img in
  let p := Z.to_nat (4 * (x + y * im_xsize img)) in
  let tx := Z.shiftr x (tile_bits plan) in
  let ty := Z.shiftr y (tile_bits plan) in
  let sf_id := sf_tiles plan tx ty in
  let cf_id := cf_tiles plan tx ty in
  let '(pr, pg, pb) := safe (SF_CATALOG sf_id) rgba p x y (im_xsize img) in
  let r := (u8w (peek rgba p - pr), u8w (peek rgba (p + 1) - pg),
            u8w (peek rgba (p + 2) - pb)) in
  let '(Y, U, V) := RGB2YUV_FILTERS cf_id r in
  let is_seen := default false (seen e !! Z.to_nat tx) in
  mkEmit (out e ++ [Y; U; V]
                ++ (if is_seen then [] else [cf_id; sf_id])
                ++ [255 - peek rgba (p + 3)])
         (<[Z.to_nat tx := true]> (seen e)) (matches e) 0.

(** Modelled from the spec: a match is sent at its start offset as one of
    the 16 Y escape codes after the literal range, followed by its length
    and its distance; the pixels it covers send nothing. *)
Definition escape (e : Emit) (m : LZ.LZMatch) (rest : list LZ.LZMatch)
  : Emit :=
  mkEmit (out e ++ [256 + Z.min 15 (Z.log2 (LZ.m_length m));
                    LZ.m_length m; LZ.m_distance m])
         (seen e) rest (LZ.m_length m - 1).

(** Modelled from the spec: one step of the pixel scan of
    [writePixels]: a pixel under a match in progress or under the mask
    sends nothing, a pixel where a match starts sends the escape, any other
    pixel is sent as a literal. *)
Definition write_pixel (e : Emit) (off : Z) : Emit :=
  let x := off mod im_xsize img in
  let y := off / im_xsize img in
  let tile_mask_y := Z.shiftl 1 (tile_bits plan) - 1 in
  let e :=
    if (x =? 0) && (Z.land y tile_mask_y =? 0)
    then mkEmit (out e) (replicate (length (seen e)) false) (matches e)
                (skip e)
    else e in
  if 0 <? skip e then mkEmit (out e) (seen e) (matches e) (skip e - 1)
  else if is_masked x y then e
  else
    match matches e with
    | m :: rest =>
        if LZ.m_offset m =? off then escape e m rest else literal e x y
    | [] => literal e x y
    end.

(** Modelled from the spec: [init], "validates inputs" (dimensions that
    are not zero and fit 16 bits, four bytes per pixel). *)
Definition init : bool :=
  (0 <? im_xsize img) && (im_xsize img <? 65536)
  && (0 <? im_ysize img) && (im_ysize img <? 65536)
  && (Z.of_nat (length (im_rgba img)) =? 4 * im_xsize img * im_ysize img).

(** Modelled from the spec: the LZ matches of the image, when the knob
    enables the subsystem. *)
Definition designLZ (chain_limit : nat) : list LZ.LZMatch :=
  if lz_enable plan then
    LZ.scanRGBA
      (map (pixel32 (im_rgba img))
           (seqZ 0 (im_xsize img * im_ysize img)))
      (im_xsize img) (im_ysize img) is_masked chain_limit
  else [].

(** Modelled from the spec: [write], the pixel scan of the stream. *)
Definition write (chain_limit : nat) : option (list Z) :=
  if init then
    let tiles_x :=
      Z.shiftr (im_xsize img + Z.shiftl 1 (tile_bits plan) - 1)
               (tile_bits plan) in
    Some (out (fold_left write_pixel
                         (seqZ 0 (im_xsize img * im_ysize img))
                         (mkEmit [] (replicate (Z.to_nat tiles_x) false)
                                 (designLZ chain_limit) 0)))
  else None.
End PixelScan.

(** Encoding, then decoding what was written. *)
Definition round_trip (is_masked : Z -> Z -> bool) (mask_color : Z * Z * Z * Z)
    (plan : Plan) (chain_limit : nat) (img : Image) : option Image :=
  match write is_masked plan img chain_limit with
  | Some symbols =>
      Some (read is_masked mask_color plan (im_xsize img) (im_ysize img)
                 symbols)
  | None => None
  end.

End Codec.

(** * MonoWriter: the design stages around [designTiles] *)

Module MonoDesign.
Import Mono.

(** The tile bytes a tile loop walks over; [p] is an offset from [_tiles]. *)
Record Walk := mkWalk { wk_tiles : Z -> Z; wk_p : Z }.

(** What a walk leaves in the [_tiles] array. *)
Definition tiles_of (w : MonoWriter) (m : Z -> Z) : list Z :=
  map (fun i => m (Z.of_nat i)) (seq 0 (length (_tiles w))).

(** ** [MonoWriter::maskTiles] *)

Section MaskTiles.
Variable heap : Z -> Z.
Variable w : MonoWriter.

(** The inner [while (cx-- > 0 && px < size_x)]: whether it meets an element
    that is not masked.  No statement of its body advances [px]. *)
Fixpoint unmasked_in_row (cx : nat) (px py : Z) : bool :=
  match cx with
  | O => false
  | S cx' =>
      if px <? sx w then
        if negb (masked w px py) then true else unmasked_in_row cx' px py
      else false
  end.

(** The outer [while (cy-- > 0 && py < size_y)], with its [++py]. *)
Fixpoint unmasked_in_tile (cy : nat) (x py : Z) : bool :=
  match cy with
  | O => false
  | S cy' =>
      if py <? sy w then
        if unmasked_in_row (Z.to_nat (tile_size_x w)) x py then true
        else unmasked_in_tile cy' x (u16w (py + 1))
      else false
  end.

(** The byte written for the tile whose corner is (x, y). *)
Definition tile_mark (x y : Z) : Z :=
  if unmasked_in_tile (Z.to_nat (tile_size_y w)) x y
  then TODO_TILE else MASK_TILE.

(** The body of the column loop: [*p++ = ...] on either path. *)
Definition mask_tile (y x : Z) (m : Walk) : outcome Walk :=
  Next (mkWalk (store (wk_tiles m) (wk_p m) (tile_mark x y)) (wk_p m + 1)).

Definition maskTiles (fuel : nat) : option MonoWriter :=
  match for_u16 fuel 0 (sy w) (tile_size_y w)
          (fun y => for_u16 fuel 0 (sx w) (tile_size_x w) (mask_tile y))
          (mkWalk (load heap (_tiles w)) 0) with
  | Next m | Return m => Some (set_tiles w (tiles_of w (wk_tiles m)))
  | OutOfFuel => None
  end.
End MaskTiles.

(** ** [MonoWriter::designPaletteFilters], from the histogram on

    The tile loop that fills [hist] does not compile ([hist[data_value]++]
    names no variable of the function); the histogram it is meant to leave is
    taken as given. *)

Section PaletteFilters.
(** The constants of MonoWriter.hpp. *)
Variable MAX_PALETTE : Z.
Variable UNUSED_SYMPAL : Z.
Variable heap : Z -> Z.
(** [u32 hist[MAX_SYMS]] after the tile loop. *)
Variable hist : list Z.
(** [u32 sympal_thresh = _params.sympal_thresh * _tiles_count]. *)
Variable sympal_thresh : Z.
Variable w : MonoWriter.

(** The histogram loop over the symbols still to visit; the list is the
    filled part [_sympal[0 .. _sympal_filters - 1]] of the palette. *)
Fixpoint add_sympals (syms : list Z) (sympal : list Z) : list Z :=
  match syms with
  | [] => sympal
  | sym :: rest =>
      let coverage := load heap hist sym in
      if sympal_thresh <? coverage then
        let sympal' := sympal ++ [u8w sym] in
        if MAX_PALETTE <=? Z.of_nat (length sympal') then sympal'
        else add_sympals rest sympal'
      else add_sympals rest sympal
  end.

(** [for (int sym = 0, num_syms = _params.num_syms; sym < num_syms; ++sym)]. *)
Definition palette_filters : list Z :=
  add_sympals (seqZ 0 (num_syms (_params w))) [].

(** [for ii < _sympal_filters: _sympal_filter_map[ii] = UNUSED_SYMPAL]. *)
Definition init_filter_map (map0 : list Z) : list Z :=
  fold_left (fun m ii => poke m ii UNUSED_SYMPAL)
            (seq 0 (length palette_filters)) map0.
End PaletteFilters.

(** ** [MonoWriter::designFilters], from the sorted awards on

    [FilterScorer] is not among the sources: the array [awards.getTop(count,
    true)] returns is taken as given, as (index, score) pairs. *)

Record Choice := mkChoice {
  ch_coverage : Z;
  ch_sympal_f : Z;
  ch_normal_f : Z;
  ch_filters_set : Z;
  ch_filter_indices : list Z;
  ch_sympal_filter_map : list Z
}.

(** An array cell by a signed index.  Outside the array the source has
    undefined behaviour; the model reads 0 and writes nothing. *)
Definition peekZ (l : list Z) (i : Z) : Z :=
  if 0 <=? i then peek l (Z.to_nat i) else 0.
Definition pokeZ (l : list Z) (i v : Z) : list Z :=
  if 0 <=? i then poke l (Z.to_nat i) v else l.

Section DesignFilters.
(** The constants of MonoWriter.hpp and Filters.hpp. *)
Variable MF_FIXED : Z.
Variable MF_COUNT : Z.
Variable MAX_FILTERS : Z.
(** [_params.AWARDS[0]] and [_params.max_filters]. *)
Variable AWARDS0 : Z.
Variable max_filters : Z.
(** [int filter_thresh = _params.filter_thresh * _tiles_count]. *)
Variable filter_thresh : Z.

(** [for f < MF_FIXED: _filter_indices[f] = f].  The array [_filters] of
    function pointers is filled slot for slot with [MONO_FILTERS] of the
    same indices, here and in the loop below; the index table stands for
    both. *)
Definition copy_fixed (indices : list Z) : list Z :=
  fold_left (fun l f => pokeZ l f f) (seqZ 0 MF_FIXED) indices.

(** "Decide how many filters to sort by score". *)
Definition sort_count : Z :=
  let count := max_filters + MF_FIXED in
  if MF_COUNT <? count then MF_COUNT else count.

(** The loop over the sorted scores still to visit. *)
Fixpoint choose (top : list (Z * Z)) (c : Choice) : Choice :=
  match top with
  | [] => c
  | (index, score) :: rest =>
      let covered := Z.quot score AWARDS0 in
      let coverage := ch_coverage c + covered in
      if filter_thresh <=? coverage then
        mkChoice coverage (ch_sympal_f c) (ch_normal_f c) (ch_filters_set c)
                 (ch_filter_indices c) (ch_sympal_filter_map c)
      else if MF_FIXED <=? index then
        let c1 :=
          if MF_COUNT <=? index then
            let sympal_filter := index - MF_COUNT in
            mkChoice coverage (ch_sympal_f c + 1) (ch_normal_f c)
                     (ch_filters_set c + 1) (ch_filter_indices c)
                     (pokeZ (ch_sympal_filter_map c) sympal_filter
                            (u8w (ch_sympal_f c)))
          else
            mkChoice coverage (ch_sympal_f c) (ch_normal_f c + 1)
                     (ch_filters_set c + 1)
                     (pokeZ (ch_filter_indices c) (ch_normal_f c) index)
                     (ch_sympal_filter_map c) in
        if MAX_FILTERS <=? ch_filters_set c1 then c1 else choose rest c1
      else
        choose rest
               (mkChoice coverage (ch_sympal_f c) (ch_normal_f c)
                         (ch_filters_set c) (ch_filter_indices c)
                         (ch_sympal_filter_map c))
  end.

(** The second half of [designFilters]: the fixed filters, then the choice
    among the first [count] sorted awards.  [ch_normal_f], [ch_sympal_f] and
    [ch_filters_set] of the result are recorded as [_normal_filter_count],
    [_sympal_filter_count] and [_filter_count]. *)
Definition choose_filters (top : list (Z * Z)) (indices map0 : list Z)
  : Choice :=
  choose (take (Z.to_nat sort_count) top)
         (mkChoice 0 0 MF_FIXED MF_FIXED (copy_fixed indices) map0).

(** "Record counts": the members [designFilters] leaves for the later
    stages and for [writeTables]. *)
Definition designFilters (w : MonoWriter) (top : list (Z * Z))
    (map0 : list Z) : MonoWriter :=
  let c := choose_filters top (_filter_indices w) map0 in
  mkMonoWriter (_params w) (_tile_bits_x w) (_tile_bits_y w) (_tile_size_x w)
    (_tile_size_y w) (_tiles_x w) (_tiles_y w) (_tiles_count w) (_tiles w)
    (_tile_row_filters w) (_residuals w) (ch_normal_f c) (ch_sympal_f c)
    (ch_filters_set c) (ch_filter_indices c) (_sympal w)
    (_row_filter_entropy w) (_chaos w) (_chaos_levels w) (_chaos_entropy w)
    (_filter_encoder w).
End DesignFilters.

(** ** [MonoWriter::designPaletteTiles] *)

Section PaletteTiles.
Variable MF_COUNT : Z.
Variable UNUSED_SYMPAL : Z.
(** The member array [_sympal_filter_map]. *)
Variable _sympal_filter_map : list Z.
Variable heap : Z -> Z.
Variable w : MonoWriter.

(** The byte the loop body leaves in a tile that holds [value]. *)
Definition palette_tile (value : Z) : Z :=
  if value =? MASK_TILE then value
  else if MF_COUNT <=? value then
    let filter := u8w (load heap _sympal_filter_map (value - MF_COUNT)) in
    if filter =? UNUSED_SYMPAL then TODO_TILE
    else u8w (_normal_filter_count w + filter)
  else value.

(** The body of the column loop with its increment [++p].  [topleft] is
    advanced too and never read. *)
Definition remap_tile (y x : Z) (m : Walk) : outcome Walk :=
  let value := wk_tiles m (wk_p m) in
  let tiles :=
    if value =? MASK_TILE then wk_tiles m
    else if MF_COUNT <=? value then
      let filter := u8w (load heap _sympal_filter_map (value - MF_COUNT)) in
      if filter =? UNUSED_SYMPAL then store (wk_tiles m) (wk_p m) TODO_TILE
      else store (wk_tiles m) (wk_p m) (u8w (_normal_filter_count w + filter))
    else wk_tiles m in
  Next (mkWalk tiles (wk_p m + 1)).

Definition designPaletteTiles (fuel : nat) : option MonoWriter :=
  if _sympal_filter_count w <? 0 then Some w
  else
    match for_u16 fuel 0 (sy w) (tile_size_y w)
            (fun y => for_u16 fuel 0 (sx w) (tile_size_x w) (remap_tile y))
            (mkWalk (load heap (_tiles w)) 0) with
    | Next m | Return m => Some (set_tiles w (tiles_of w (wk_tiles m)))
    | OutOfFuel => None
    end.
End PaletteTiles.

(** ** [MonoWriter::designRowFilters] *)

Record RowDesign (EE : Type) := mkRowDesign {
  rd_p : Z;                    (* [p - _tiles] *)
  rd_ee : EE;
  rd_codes : Z -> Z;           (* the workspace [codes] *)
  rd_row_filters : list Z;     (* [_tile_row_filters] *)
  rd_total_entropy : Z
}.
Arguments mkRowDesign {EE}.
Arguments rd_p {EE}.
Arguments rd_ee {EE}.
Arguments rd_codes {EE}.
Arguments rd_row_filters {EE}.
Arguments rd_total_entropy {EE}.

Definition set_row_filters (w : MonoWriter) (row_filters : list Z)
    (entropy : Z) : MonoWriter :=
  mkMonoWriter (_params w) (_tile_bits_x w) (_tile_bits_y w) (_tile_size_x w)
    (_tile_size_y w) (_tiles_x w) (_tiles_y w) (_tiles_count w) (_tiles w)
    row_filters (_residuals w) (_normal_filter_count w)
    (_sympal_filter_count w) (_filter_count w) (_filter_indices w) (_sympal w)
    entropy (_chaos w) (_chaos_levels w) (_chaos_entropy w)
    (_filter_encoder w).

(** "Find the best one": (best_e, best_i). *)
Definition best_row_filter (e0 e1 e2 e3 : Z) : Z * Z :=
  let b0 := (e0, 0) in
  let b1 := if e1 <? fst b0 then (e1, 1) else b0 in
  let b2 := if e2 <? fst b1 then (e2, 2) else b1 in
  if e3 <? fst b2 then (e3, 3) else b2.

Section DesignRowFilters.
(** [EntropyEstimator] *)
Variable EE : Type.
Variable ee_init : EE.
Variable ee_add : EE -> list Z -> EE.
Variable ee_subtract : EE -> list Z -> EE.
Variable ee_entropy : EE -> list Z -> Z.
(** The constant of MonoWriter.hpp. *)
Variable MAX_ROW_PASSES : Z.
Variable heap : Z -> Z.
(** What the freshly allocated [codes] and the local [total_entropy] hold
    before they are first written. *)
Variable codes0 : Z -> Z.
Variable total_entropy0 : Z.
Variable w : MonoWriter.

Definition num_filters : Z := u16w (_filter_count w).

(** [(f + num_filters - n) % num_filters], stored in a [u8]. *)
Definition row_code (f n : Z) : Z :=
  u8w (Z.rem (f + num_filters - n) num_filters).

(** [codes + tiles_x * k], [tiles_x] bytes long. *)
Definition code_row (codes : Z -> Z) (k : Z) : list Z :=
  map (fun tx => codes (tx + _tiles_x w * k)) (seqZ 0 (_tiles_x w)).

(** The body of the column loop with its [++p]. *)
Definition code_tile (ty : Z) (r : RowDesign EE) (tx : Z) : RowDesign EE :=
  let tiles := load heap (_tiles w) in
  let p := rd_p r in
  let f := tiles p in
  let codes :=
    if f =? MASK_TILE then rd_codes r
    else
      let a := if 0 <? tx then tiles (p - 1) else 0 in
      let c := if (0 <? tx) && (0 <? ty)
               then tiles (p - _tiles_x w - 1) else 0 in
      let b := if 0 <? ty then tiles (p - _tiles_x w) else 0 in
      store (store (store (store (rd_codes r) tx f)
                          (tx + _tiles_x w) (row_code f a))
                   (tx + _tiles_x w * 2) (row_code f b))
            (tx + _tiles_x w * 3) (row_code f c) in
  mkRowDesign (p + 1) (rd_ee r) codes (rd_row_filters r)
              (rd_total_entropy r).

(** The four entropies of a tile row, after "subtract out the previous
    winner" on a second or later pass. *)
Definition row_estimator (passes : Z) (r : RowDesign EE) (ty : Z) : EE :=
  if 0 <? passes
  then ee_subtract (rd_ee r)
         (code_row (rd_codes r) (peek (rd_row_filters r) (Z.to_nat ty)))
  else rd_ee r.

Definition row_entropy (passes : Z) (r : RowDesign EE) (ty k : Z) : Z :=
  u32w (ee_entropy (row_estimator passes r ty) (code_row (rd_codes r) k)).

(** The body of the row loop. *)
Definition design_row (passes : Z) (r : RowDesign EE) (ty : Z)
  : RowDesign EE :=
  let r1 := fold_left (code_tile ty) (seqZ 0 (_tiles_x w)) r in
  let e := row_entropy passes r1 ty in
  let '(best_e, best_i) := best_row_filter (e 0) (e 1) (e 2) (e 3) in
  mkRowDesign (rd_p r1)
    (ee_add (row_estimator passes r1 ty) (code_row (rd_codes r1) best_i))
    (rd_codes r1)
    (poke (rd_row_filters r1) (Z.to_nat ty) best_i)
    (u32w (rd_total_entropy r1 + best_e)).

(** One turn of the [while]: [total_entropy = 0], then the rows.  [p] keeps
    the value the turn before left it with. *)
Definition design_pass (r : RowDesign EE) (passes : Z) : RowDesign EE :=
  fold_left (design_row passes) (seqZ 0 (_tiles_y w))
            (mkRowDesign (rd_p r) (rd_ee r) (rd_codes r) (rd_row_filters r) 0).

(** [while (passes < MAX_ROW_PASSES) { ...; ++passes; }]. *)
Definition row_passes : RowDesign EE :=
  fold_left design_pass (seqZ 0 MAX_ROW_PASSES)
            (mkRowDesign 0 ee_init codes0 (_tile_row_filters w)
                         total_entropy0).

Definition designRowFilters : MonoWriter :=
  set_row_filters w (rd_row_filters row_passes)
                  (rd_total_entropy row_passes).
End DesignRowFilters.

(** ** Spec-side vocabulary for the chaos scan *)

(** An element whose residual the chaos scan hands to an estimator: it is
    not masked and its tile runs a normal filter. *)
Definition codable (w : MonoWriter) (x y : nat) : bool :=
  negb ((getTile w x y =? MASK_TILE) || mask (_params w) x y)
  && negb (_normal_filter_count w <=? getTile w x y).

(** The element at (x, y) with the residual stored for it, row by row. *)
Definition residual_at (w : MonoWriter) (y x : nat) : nat * nat * Z :=
  (x, y, peek (_residuals w) (y * size_x (_params w) + x)).

Definition codable_residuals (w : MonoWriter) : list (nat * nat * Z) :=
  flat_map (fun y => map (residual_at w y)
                         (filter (fun x => codable w x y = true)
                                 (seq 0 (size_x (_params w)))))
           (seq 0 (size_y (_params w))).

End MonoDesign.

(** * ImageCMWriter: the filter matrix *)

Module CM.
Import MonoDesign.

Section Matrix.
(** The constant of Filters.hpp: a filter zone is a square of
    [1 << FILTER_ZONE_SIZE_SHIFT] pixels a side. *)
Variable FILTER_ZONE_SIZE_SHIFT : Z.

Record ImageCMWriter := mkImageCMWriter {
  _w : Z;
  _h : Z;
  _matrix : list Z
}.

(** [filterX + filterY * _w]. *)
Definition zone (cm : ImageCMWriter) (x y : Z) : Z :=
  Z.shiftr x FILTER_ZONE_SIZE_SHIFT
  + Z.shiftr y FILTER_ZONE_SIZE_SHIFT * _w cm.

Definition setFilter (cm : ImageCMWriter) (x y filter : Z) : ImageCMWriter :=
  mkImageCMWriter (_w cm) (_h cm)
                  (pokeZ (_matrix cm) (zone cm x y) (u16w filter)).

Definition getFilter (cm : ImageCMWriter) (x y : Z) : Z :=
  peekZ (_matrix cm) (zone cm x y).
End Matrix.

End CM.

(** * ImageLPWriter: the visited map and the per-pixel palette code

    The class stands in [decoder/ImageRGBAReader.hpp], after the reader. *)

Module LP.
Import MonoDesign.

(** [struct Match] *)
Record Match := mkMatch {
  colors : list Z;
  colorIndex : list Z;
  used : Z;
  m_x : Z;
  m_y : Z;
  m_w : Z;
  m_h : Z;
  codes : list Z;
  codelens : list Z
}.

Record ImageLPWriter := mkImageLPWriter {
  _rgba : list Z;              (* [const u8 *_rgba] *)
  _width : Z;
  _height : Z;
  _visited : list Z;
  _exact_matches : list Match
}.

Definition visit (lp : ImageLPWriter) (x y index : Z) : ImageLPWriter :=
  mkImageLPWriter (_rgba lp) (_width lp) (_height lp)
    (pokeZ (_visited lp) (x + y * _width lp) (u16w (index + 1)))
    (_exact_matches lp).

Definition visited (lp : ImageLPWriter) (x y : Z) : Z :=
  peekZ (_visited lp) (x + y * _width lp).

(** "Find the color index that matches": the first [ii < used] with
    [color == colors[ii]], 0 when there is none. *)
Definition color_index (m : Match) (color : Z) : Z :=
  match List.find (fun ii => color =? peekZ (colors m) ii)
                  (seqZ 0 (used m)) with
  | Some ii => ii
  | None => 0
  end.

Definition no_match : Match := mkMatch [] [] 0 0 0 0 0 [] [].

(** [writePixel(match, x, y, writer)]; [_rgba] is a byte pointer, so [color]
    is the one byte at [x + y * _width]. *)
Definition writePixel (lp : ImageLPWriter) (match_ x y : Z)
  : list Mono.Field :=
  let m := if 0 <=? match_ - 1
           then default no_match (_exact_matches lp !! Z.to_nat (match_ - 1))
           else no_match in
  if 1 <? used m then
    let color := peekZ (_rgba lp) (x + y * _width lp) in
    let index := color_index m color in
    [Mono.mkField (peekZ (codes m) index) (peekZ (codelens m) index)]
  else [].

End LP.

(** * Sample inputs *)

Module Samples.
Import Mono.

(** A sample estimator: the bits of a fixed-length code over the symbols
    that occur. *)
Definition distinct (l : list Z) : Z := Z.of_nat (length (remove_dups l)).
Definition fixed_length_bits (syms : list Z) : Z :=
  Z.of_nat (length syms) * Z.log2_up (distinct syms).

(** A writer after [computeResiduals] over an unmasked plane of the given
    residuals: 4x4 tiles, all of them on normal filter 0. *)
Definition plane_writer (sx sy : nat) (residuals : list Z) : MonoWriter :=
  let tx := ((sx + 3) / 4)%nat in
  let ty := ((sy + 3) / 4)%nat in
  mkMonoWriter (mkParameters residuals 256 sx sy 2 2 (fun _ _ => false))
    2 2 4 4 (Z.of_nat tx) (Z.of_nat ty) (Z.of_nat (tx * ty))
    (replicate (tx * ty) 0) (replicate ty 0) residuals 1 0 1 [0] [] 0 [] 1 0
    None.

(** One row of three residuals: 0, 5, 0. *)
Definition row_0_5_0 : MonoWriter := plane_writer 3 1 [0; 5; 0].

(** Twelve rows of two residuals: y, y + 1. *)
Definition rows12 : MonoWriter :=
  plane_writer 2 12
    (flat_map (fun y => [Z.of_nat y; Z.of_nat y + 1]) (seq 0 12)).

(** A sample [designTiles] run: a memoryless estimator, a catalogue whose
    filters all predict zero, zeros outside the arrays, and the revisit
    budget 4096, over the one-tile plane above. *)
Definition zero_filter : MonoFilter := fun _ _ _ _ _ => 0.

Definition designTiles_sample (fuel : nat) : option MonoWriter :=
  designTiles unit tt (fun ee _ => ee) (fun _ codes => fixed_length_bits codes)
              32 (fun _ => zero_filter) (fun _ => 0) 4096 row_0_5_0 fuel.

Definition tiling_sample : Tiling unit :=
  start unit tt (fun _ => 0) 4096 row_0_5_0.

(** The parameters of a sample [process] call: an unmasked 8x8 plane of
    zeros, to be tried with tile-edge bit counts 2 and 3. *)
Definition two_sizes : Parameters :=
  mkParameters (replicate 64 0) 256 8 8 2 3 (fun _ _ => false).

(** The same plane with an empty range of bit counts (3 down to 2), and a
    writer over it with four 4x4 tiles on filter 0 and row filters that cost
    0 bits. *)
Definition no_sizes : Parameters :=
  mkParameters (replicate 64 0) 256 8 8 3 2 (fun _ _ => false).

Definition four_tiles : MonoWriter := init_bits (fresh no_sizes) 2.

(** Sample stages for the seven that are taken as given: each leaves the
    writer as it found it. *)
Definition idle_stage (stage : Stage) (w : MonoWriter) : option MonoWriter :=
  Some w.

(** A 4x1 image whose last two pixels repeat its first two, and the header
    values of its stream: one 4x4 tile, two chaos levels, the left predictor
    and the G, B-G, R-G colour filter. *)
Definition abab : Codec.Image :=
  Codec.mkImage [10; 20; 30; 255;  40; 50; 60; 255;
                 10; 20; 30; 255;  40; 50; 60; 255] 4 1.

Definition abab_plan (lz : bool) : Codec.Plan :=
  Codec.mkPlan 2 2 (fun _ _ => 1) (fun _ _ => 1) lz.

Definition unmasked : Z -> Z -> bool := fun _ _ => false.

(** The same image as four [u32] pixels, and the match its third pixel
    starts. *)
Definition abab_pixels : list Z :=
  map (Codec.pixel32 (Codec.im_rgba abab)) (seqZ 0 4).

Definition abab_match : LZ.LZMatch := LZ.mkLZMatch 2 2 2.

(** A 3x2 image with 2x2 tiles, a masked pixel at (0, 1), and filters that
    change from one tile column to the next. *)
Definition masked_3x2 : Codec.Image :=
  Codec.mkImage [10; 20; 30; 255;  40; 50; 60; 255;  11; 22; 33; 200;
                 0; 0; 0; 0;       1; 2; 3; 4;       40; 50; 61; 255] 3 2.

Definition mask_3x2 (x y : Z) : bool := (x =? 0) && (y =? 1).

Definition plan_3x2 : Codec.Plan :=
  Codec.mkPlan 1 2 (fun tx _ => tx) (fun _ ty => ty) true.

(** The decoder of the a b a b stream before its first pixel, and after
    its first pixel (10, 20, 30, 255) has been decoded. *)
Definition abab_decoder (rgba : list Z) (filters : list Reader.FilterSelection)
    (chaos : Codec.RGBChaos) : Codec.Decoder :=
  Reader.mkImageRGBAReader Codec.MonoMap Codec.RGBChaos rgba 4 1 2 2
    Codec.SF_CATALOG filters Codec.SFMap Codec.CFMap Codec.AlphaMap chaos.

Definition abab_start : Codec.Decoder :=
  abab_decoder (replicate 16 0) [Reader.blank]
    (Codec.mkRGBChaos 2 (replicate 4 (0, 0, 0)) (0, 0, 0)).

Definition abab_after_first : Codec.Decoder :=
  fst (Codec.readSafe abab_start 0 0 0%nat
         (Codec.mkTokens [20; 10; 246; 1; 1; 0] [])).

End Samples.

(** * Sample inputs for the design stages and the older writers *)

Module MoreSamples.
Import Mono MonoDesign.

Definition zeroed : Z -> Z := fun _ => 0.

(** A 4x2 plane cut into two 2x2 tiles; the elements of the even columns
    are masked, those of the odd columns are not. *)
Definition even_columns_masked : MonoWriter :=
  init_bits
    (fresh (mkParameters (replicate 8 0) 256 4 2 1 1
                         (fun x _ => Nat.even x))) 1.

(** A 4x4 plane of four 2x2 tiles after the first round of [designFilters]
    with a catalogue of 16 filters: a masked tile, a tile marked for palette
    symbol 0, a tile on filter 3 and a tile marked for palette symbol 1.
    Four normal filters are in use. *)
Definition palette_marks : MonoWriter :=
  mkMonoWriter (mkParameters (replicate 16 0) 256 4 4 1 1 (fun _ _ => false))
    1 1 2 2 2 2 4 [255; 16; 3; 17] [0; 0] (replicate 16 0) 4 1 5
    [0; 1; 2; 3] [7] 0 [] 1 0 None.

(** The palette filter map when symbol 0 was chosen as slot 0 and symbol 1
    was not chosen; 255 stands for [UNUSED_SYMPAL]. *)
Definition palette_map : list Z := [0; 255].

(** Sorted awards as (index, score): two catalogue filters, a palette
    filter (index 9 with a catalogue of 8) and a fixed filter. *)
Definition top_awards : list (Z * Z) := [(5, 10); (9, 8); (1, 7); (3, 6)].

(** A sample estimator for the row filters: it keeps the codes it was
    given and prices a row by the fixed-length code of all of them. *)
Definition ee_add (ee row : list Z) : list Z := ee ++ row.
Definition ee_subtract (ee row : list Z) : list Z :=
  drop (length row) ee.
Definition ee_entropy (ee row : list Z) : Z :=
  Samples.fixed_length_bits (ee ++ row).

(** A 2x2 tile map over three filters: both rows are the filters 1, 2. *)
Definition two_rows : MonoWriter :=
  mkMonoWriter (mkParameters (replicate 16 0) 256 4 4 1 1 (fun _ _ => false))
    1 1 2 2 2 2 4 [1; 2; 1; 2] [0; 0] (replicate 16 0) 3 0 3
    [0; 1; 2] [] 0 [] 1 0 None.

Definition two_rows_start : RowDesign (list Z) :=
  mkRowDesign 0 [] zeroed [0; 0] 0.

(** A filter matrix of 2x2 zones, every zone unused (0xffff). *)
Definition four_zones : CM.ImageCMWriter :=
  CM.mkImageCMWriter 2 2 (replicate 4 65535).

(** A 2x2 image of one-byte colours under one two-colour match. *)
Definition two_colors : LP.Match :=
  LP.mkMatch [10; 20] [0; 1] 2 0 0 2 2 [0; 1] [1; 1].

Definition two_by_two : LP.ImageLPWriter :=
  LP.mkImageLPWriter [10; 20; 20; 10] 2 2 (replicate 4 0) [two_colors].

(** The stream of the first pixel of the a b a b image. *)
Definition first_pixel : Codec.Tokens :=
  Codec.mkTokens [20; 10; 246; 1; 1; 0] [].

End MoreSamples.

(** * Facts about the chaos scan and [designChaos] *)

Module MonoChaosFacts.
Import Mono.

(** Writing one cell of an array leaves the others as they were. *)
Lemma peek_poke_ne l i j v : i <> j -> peek (poke l i v) j = peek l j.
Proof. intros H. unfold peek, poke. by rewrite list_lookup_insert_ne. Qed.

Section Window.
Variable RESIDUAL_SCORE : Z -> Z.
Variable CHAOS : Z -> Z.
Variable w : MonoWriter.

(** A column step writes [_chaos[x + 1]] and nothing else. *)
Lemma scan_elem_window y s x i :
  i <> S x ->
  peek (sc_chaos (scan_elem RESIDUAL_SCORE CHAOS w y s x)) i
  = peek (sc_chaos s) i.
Proof.
  intros Hi. unfold scan_elem.
  destruct (_ || _); [| destruct (_ <=? _)]; simpl;
    apply peek_poke_ne; congruence.
Qed.

(** What a column step adds carries the bin of the two fixed cells. *)
Lemma scan_elem_coded y s x :
  exists added,
    sc_coded (scan_elem RESIDUAL_SCORE CHAOS w y s x) = sc_coded s ++ added
    /\ Forall (fun c => c_bin c = local_chaos RESIDUAL_SCORE CHAOS (sc_chaos s)
                        /\ c_x c = x /\ c_y c = y) added.
Proof.
  unfold scan_elem.
  destruct (_ || _); [| destruct (_ <=? _)]; simpl.
  - exists []. by rewrite app_nil_r.
  - exists []. by rewrite app_nil_r.
  - eexists. split; [reflexivity |]. by repeat constructor.
Qed.

(** From column 1 on, every symbol of a row is coded in one and the same
    bin: the one of [_chaos[0]] and [_chaos[1]], which no later column
    writes. *)
Lemma scan_columns_fixed_bin y xs s :
  Forall (fun x => (1 <= x)%nat) xs ->
  exists added,
    sc_coded (fold_left (scan_elem RESIDUAL_SCORE CHAOS w y) xs s)
    = sc_coded s ++ added
    /\ Forall (fun c => c_bin c
                        = local_chaos RESIDUAL_SCORE CHAOS (sc_chaos s)) added.
Proof.
  revert s. induction xs as [| x xs IH]; intros s Hxs; simpl.
  - exists []. by rewrite app_nil_r.
  - inversion Hxs as [| ? ? Hx Hrest]; subst.
    destruct (scan_elem_coded y s x) as (a1 & E1 & F1).
    destruct (IH (scan_elem RESIDUAL_SCORE CHAOS w y s x) Hrest)
      as (a2 & E2 & F2).
    exists (a1 ++ a2). split.
    + rewrite E2, E1. by rewrite app_assoc.
    + apply Forall_app. split.
      * eapply Forall_impl; [exact F1 |]. by intros c (H & _).
      * eapply Forall_impl; [exact F2 |]. intros c ->.
        unfold local_chaos.
        rewrite !scan_elem_window by lia. reflexivity.
Qed.
End Window.

Section BestChaos.
Variable RESIDUAL_SCORE : Z -> Z.
Variable CHAOS_MAPS : Z -> Z -> Z.
Variable entropyOverall : list Z -> Z.
Variable w : MonoWriter.

Local Abbreviation entropy_at :=
  (levels_entropy RESIDUAL_SCORE CHAOS_MAPS entropyOverall w).
Local Abbreviation try :=
  (try_levels RESIDUAL_SCORE CHAOS_MAPS entropyOverall w).

(** The running best after the levels 1..n: nothing tried is cheaper, and
    unless no level came under [INT_MAX] it is the first cheapest level. *)
Lemma fold_try_levels n :
  let r := fold_left try (seq 1 n) (INT_MAX, 1) in
  (forall k, (1 <= k <= n)%nat -> fst r <= entropy_at k)
  /\ (fst r < INT_MAX ->
      exists k, (1 <= k <= n)%nat /\ snd r = Z.of_nat k
                /\ entropy_at k = fst r
                /\ forall j, (1 <= j < k)%nat -> fst r < entropy_at j)
  /\ (INT_MAX <= fst r -> r = (INT_MAX, 1)).
Proof.
  induction n as [| n IH]; cbv zeta.
  - simpl. repeat split; intros; try lia; reflexivity.
  - rewrite seq_S, fold_left_app. cbn [fold_left]. cbv zeta in IH.
    change (1 + n)%nat with (S n).
    set (r := fold_left try (seq 1 n) (INT_MAX, 1)) in *.
    destruct IH as (Hmin & Hbest & Hnone).
    change (try r (S n))
      with (if entropy_at (S n) <? fst r
            then (entropy_at (S n), Z.of_nat (S n)) else r).
    destruct (Z.ltb_spec (entropy_at (S n)) (fst r)) as [Hlt | Hge]; simpl.
    + repeat split.
      * intros k Hk. destruct (decide (k = S n)) as [-> | Hne]; [lia |].
        specialize (Hmin k ltac:(lia)). lia.
      * intros _. exists (S n). repeat split; try lia.
        intros j Hj. specialize (Hmin j ltac:(lia)). lia.
      * intros Hbig.
        destruct (Z.lt_ge_cases (fst r) INT_MAX) as [Hr | Hr]; [lia |].
        rewrite (Hnone Hr) in Hlt. simpl in Hlt. lia.
    + repeat split.
      * intros k Hk. destruct (decide (k = S n)) as [-> | Hne]; [lia |].
        apply Hmin. lia.
      * intros Hr. destruct (Hbest Hr) as (k & Hk & Hs & He & Hfirst).
        exists k. repeat split; auto; lia.
      * exact Hnone.
Qed.
End BestChaos.

Lemma tried_levels_range (MAX_CHAOS_LEVELS : nat) (k : nat) :
  In k (tried_levels MAX_CHAOS_LEVELS) <-> (1 <= k < MAX_CHAOS_LEVELS)%nat.
Proof. unfold tried_levels. rewrite in_seq. lia. Qed.

Lemma chaos_field_written RESIDUAL_SCORE CHAOS_MAPS encoder_tables w :
  In (chaos_levels_field w)
     (writeTables RESIDUAL_SCORE CHAOS_MAPS encoder_tables w).
Proof.
  destruct w; cbn [writeTables]. apply in_or_app. left.
  unfold own_fields. apply in_or_app. right.
  apply in_or_app. right. apply in_or_app. right.
  apply in_or_app. left. by left.
Qed.

(** C2 (as the code has it). On the one-row plane 0, 5, 0 the scan of
    [designChaos] for eight levels codes all three residuals in bin 0.  The
    claim's formula gives bin 5 for the element at x = 2, whose left
    neighbour is the residual 5: the source reads [last[-1]] and [last[0]],
    two fixed cells of the window, for every column. *)
Theorem designChaos_bin_reads_fixed_cells :
  map c_bin
      (sc_coded (level_scan Codec.RESIDUAL_SCORE Codec.CHAOS_MAPS
                            Samples.row_0_5_0 8))
  = [0; 0; 0]
  /\ map c_bin
         (sc_coded (initializeEncoders Codec.RESIDUAL_SCORE Codec.CHAOS_MAPS
                      (set_chaos Samples.row_0_5_0 [] 8 0)))
     = [0; 0; 0]
  /\ chaos_bin_claimed Codec.RESIDUAL_SCORE (Codec.CHAOS_MAPS 7)
                       Samples.row_0_5_0 2 0 = 5.
Proof. repeat split; vm_compute; reflexivity. Qed.

(** Whatever the constant, [designChaos] tries every K from 1 to
    MAX_CHAOS_LEVELS - 1 and keeps the first K of least summed bin entropy
    (K = 1 when no level comes under 0x7fffffff); up to the 16 that
    [writeTables] asserts, K - 1 fits the 4-bit field it is sent in. *)
Lemma best_chaos_first_minimum
    (RESIDUAL_SCORE : Z -> Z) (CHAOS_MAPS : Z -> Z -> Z)
    (entropyOverall : list Z -> Z) (encoder_tables : list Z -> list Field)
    (MAX_CHAOS_LEVELS : nat) (w : MonoWriter) :
  (MAX_CHAOS_LEVELS <= 16)%nat ->
  let w' := designChaos RESIDUAL_SCORE CHAOS_MAPS entropyOverall
                        MAX_CHAOS_LEVELS w in
  let entropy_at := levels_entropy RESIDUAL_SCORE CHAOS_MAPS entropyOverall w in
  let K := _chaos_levels w' in
  let E := _chaos_entropy w' in
  (forall k, In k (tried_levels MAX_CHAOS_LEVELS)
             <-> (1 <= k < MAX_CHAOS_LEVELS)%nat)
  /\ (forall k, In k (tried_levels MAX_CHAOS_LEVELS) -> E <= entropy_at k)
  /\ (E < INT_MAX ->
      In (Z.to_nat K) (tried_levels MAX_CHAOS_LEVELS)
      /\ entropy_at (Z.to_nat K) = E
      /\ forall j, In j (tried_levels MAX_CHAOS_LEVELS) ->
                   Z.of_nat j < K -> E < entropy_at j)
  /\ (INT_MAX <= E -> K = 1)
  /\ In (mkField (K - 1) 4)
        (writeTables RESIDUAL_SCORE CHAOS_MAPS encoder_tables w')
  /\ 0 <= K - 1 < 2 ^ 4.
Proof.
  intros Hmax w' entropy_at K E.
  pose proof (fold_try_levels RESIDUAL_SCORE CHAOS_MAPS entropyOverall w
                              (MAX_CHAOS_LEVELS - 1)) as H.
  cbv zeta in H. destruct H as (Hmin & Hbest & Hnone).
  assert (HE : E = fst (best_chaos RESIDUAL_SCORE CHAOS_MAPS entropyOverall
                                   MAX_CHAOS_LEVELS w)) by reflexivity.
  assert (HK : K = snd (best_chaos RESIDUAL_SCORE CHAOS_MAPS entropyOverall
                                   MAX_CHAOS_LEVELS w)) by reflexivity.
  unfold best_chaos, tried_levels in HE, HK.
  rewrite <- HE in Hmin, Hbest, Hnone. rewrite <- HK in Hbest.
  assert (Hrange : 0 <= K - 1 < 2 ^ 4).
  { destruct (Z.lt_ge_cases E INT_MAX) as [Hlt | Hge].
    - destruct (Hbest Hlt) as (k & Hk & -> & _). lia.
    - apply Hnone in Hge. rewrite HK, Hge. simpl. lia. }
  split; [apply tried_levels_range |].
  split; [intros k Hk; apply Hmin; apply tried_levels_range in Hk; lia |].
  split.
  { intros Hlt. destruct (Hbest Hlt) as (k & Hk & Hs & He & Hfirst).
    rewrite Hs, Nat2Z.id. repeat split.
    - apply tried_levels_range. lia.
    - exact He.
    - intros j Hj Hjk. apply Hfirst. apply tried_levels_range in Hj. lia. }
  split.
  { intros Hge. apply Hnone in Hge. rewrite HK, Hge. reflexivity. }
  split; [| exact Hrange].
  pose proof (chaos_field_written RESIDUAL_SCORE CHAOS_MAPS encoder_tables w')
    as Hin.
  unfold chaos_levels_field in Hin. fold K in Hin.
  replace (u32w (K - 1)) with (K - 1) in Hin; [exact Hin |].
  unfold u32w. rewrite Z.mod_small; lia.
Qed.



End MonoChaosFacts.

(** * Facts about [designTiles] *)

Module DesignTilesFacts.
Import Mono.

(** A loop keeps an invariant of its body: what holds when it falls
    through, and what holds when it returns. *)
Lemma for_u16_invariant {S : Type} (I R : S -> Prop) (body : Z -> S -> outcome S)
    (bound step : Z) :
  (forall i s, I s ->
     match body i s with
     | Next s' => I s' | Return s' => R s' | OutOfFuel => True
     end) ->
  forall fuel i s, I s ->
    match for_u16 fuel i bound step body s with
    | Next s' => I s' | Return s' => R s' | OutOfFuel => True
    end.
Proof.
  intros Hbody fuel. induction fuel as [| fuel IH]; intros i s Hs; simpl.
  - exact Logic.I.
  - destruct (i <? bound); [| exact Hs].
    specialize (Hbody i s Hs). destruct (body i s) as [s' | s' |].
    + apply IH. exact Hbody.
    + exact Hbody.
    + exact Logic.I.
Qed.

Section Budget.
Variable EE : Type.
Variable ee_init : EE.
Variable ee_subtract : EE -> list Z -> EE.
Variable ee_entropy : EE -> list Z -> Z.
Variable MF_COUNT : Z.
Variable _filters : Z -> MonoFilter.
Variable heap : Z -> Z.
Variable mono_revisitCount : Z.
Variable w : MonoWriter.

Local Abbreviation visit :=
  (visit_tile EE ee_subtract ee_entropy MF_COUNT _filters heap w).
Local Abbreviation row :=
  (visit_row EE ee_subtract ee_entropy MF_COUNT _filters heap w).
Local Abbreviation pass :=
  (one_pass EE ee_subtract ee_entropy MF_COUNT _filters heap w).
Local Abbreviation loop :=
  (pass_loop EE ee_subtract ee_entropy MF_COUNT _filters heap w).
Local Abbreviation charge := (Mono.charge EE w).

Lemma visit_tile_return_budget passes y x t t' :
  visit passes y x t = Return t' ->
  tl_revisitCount t' = tl_revisitCount t - 1 /\ tl_revisitCount t' < 0
  /\ 0 < passes.
Proof.
  unfold visit_tile, revisit.
  destruct (live EE w t); [| discriminate].
  destruct (Z.ltb_spec 0 passes) as [Hp | Hp]; [| discriminate].
  destruct (Z.ltb_spec (tl_revisitCount t - 1) 0) as [Hr | Hr];
    [| discriminate].
  intros [= <-]. simpl. lia.
Qed.

Lemma visit_tile_next_budget passes y x t t' :
  visit passes y x t = Next t' ->
  tl_revisitCount t' = tl_revisitCount t - charge passes t
  /\ (charge passes t = 1 -> 0 <= tl_revisitCount t').
Proof.
  unfold visit_tile, revisit, Mono.charge.
  destruct (live EE w t); simpl.
  - destruct (Z.ltb_spec 0 passes) as [Hp | Hp].
    + destruct (Z.ltb_spec (tl_revisitCount t - 1) 0) as [Hr | Hr];
        [discriminate |].
      intros [= <-]. simpl. lia.
    + intros [= <-]. simpl. lia.
  - intros [= <-]. simpl. lia.
Qed.

Lemma charge_first_pass passes t : passes <= 0 -> charge passes t = 0.
Proof.
  intros Hp. unfold Mono.charge.
  destruct (Z.ltb_spec 0 passes); [lia |]. by rewrite andb_false_r.
Qed.

(** A property of the budget that every tile visit keeps is kept by a
    whole pass. *)
Lemma one_pass_budget (P Q : Z -> Prop) passes :
  (forall y x t, P (tl_revisitCount t) ->
     match visit passes y x t with
     | Next t' => P (tl_revisitCount t')
     | Return t' => Q (tl_revisitCount t')
     | OutOfFuel => True
     end) ->
  forall fuel t, P (tl_revisitCount t) ->
    match pass fuel passes t with
    | Next t' => P (tl_revisitCount t')
    | Return t' => Q (tl_revisitCount t')
    | OutOfFuel => True
    end.
Proof.
  intros Hvisit fuel t Ht. unfold one_pass.
  apply (for_u16_invariant (fun t => P (tl_revisitCount t))
                           (fun t => Q (tl_revisitCount t))); [| exact Ht].
  intros y t0 Ht0. unfold visit_row.
  pose proof (for_u16_invariant (fun t => P (tl_revisitCount t))
                (fun t => Q (tl_revisitCount t)) (visit passes y)
                (sx w) (tile_size_x w) (Hvisit y) fuel 0
                (mkTiling (tl_tiles t0) (tl_p t0) (tl_topleft t0) 0
                          (tl_ty t0) (tl_ee t0) (tl_revisitCount t0)) Ht0)
    as H.
  destruct (for_u16 _ _ _ _ _ _); simpl; exact H.
Qed.

(** On the first pass nothing returns and the budget is left alone. *)
Lemma first_pass_keeps_budget fuel passes t :
  passes <= 0 ->
  match pass fuel passes t with
  | Next t' => tl_revisitCount t' = tl_revisitCount t
  | Return _ => False
  | OutOfFuel => True
  end.
Proof.
  intros Hp.
  apply (one_pass_budget (fun r => r = tl_revisitCount t) (fun _ => False));
    [| reflexivity].
  intros y x t0 Ht0.
  destruct (visit passes y x t0) as [t' | t' |] eqn:E; [| | exact Logic.I].
  - apply visit_tile_next_budget in E as (E & _).
    rewrite E, charge_first_pass by lia. lia.
  - apply visit_tile_return_budget in E. lia.
Qed.

(** With [passes] at zero the loop has neither of its two exits. *)
Lemma pass_loop_from_zero fuel passes t :
  passes <= 0 -> loop fuel passes t = OutOfFuel.
Proof.
  intros Hp. revert t. induction fuel as [| fuel IH]; intros t.
  - reflexivity.
  - cbn [pass_loop].
    destruct (Z.ltb_spec passes MAX_PASSES) as [_ | Hge];
      [| unfold MAX_PASSES in Hge; lia].
    pose proof (first_pass_keeps_budget (S fuel) passes t Hp) as H.
    destruct (pass (S fuel) passes t) as [t' | t' |];
      [apply IH | contradiction | reflexivity].
Qed.

Lemma designTiles_never_comes_back fuel :
  designTiles EE ee_init ee_subtract ee_entropy MF_COUNT _filters heap
              mono_revisitCount w fuel = None.
Proof.
  unfold designTiles. by rewrite pass_loop_from_zero.
Qed.

End Budget.

(** C4 (as the code has it). On the one-tile sample plane, with a revisit
    budget of 4096, [designTiles] does not come back whatever number of loop
    turns it is granted, although each pass over the grid ends: the first
    pass takes two turns of each loop, leaves the one tile on filter 0, where
    it was, and leaves the budget at 4096.  No statement of the [while] body
    changes [passes], so the guard [passes < MAX_PASSES] holds for good and
    the budget test under [passes > 0] is never reached; the claim has the
    function stop after at most four passes, and here after the first, which
    changes no selection. *)
Theorem designTiles_sample_never_returns :
  (forall fuel, Samples.designTiles_sample fuel = None)
  /\ match one_pass unit (fun ee _ => ee)
                    (fun _ codes => Samples.fixed_length_bits codes) 32
                    (fun _ => Samples.zero_filter) (fun _ => 0)
                    Samples.row_0_5_0 2 0 Samples.tiling_sample with
     | Next t =>
         tl_tiles t 0 = tl_tiles Samples.tiling_sample 0
         /\ tl_revisitCount t = 4096 /\ tl_p t = 1
     | _ => False
     end.
Proof.
  split.
  - intros fuel. unfold Samples.designTiles_sample.
    apply designTiles_never_comes_back.
  - vm_compute. repeat split.
Qed.

End DesignTilesFacts.

(** * Facts about [process] and [recurseCompress] *)

Module ProcessFacts.
Import Mono.

(** The bit counts tried are min_bits, ..., max_bits, each once. *)
Lemma bits_tried_range params b :
  In b (bits_tried params) <-> min_bits params <= b <= max_bits params.
Proof.
  unfold bits_tried. rewrite <- list_elem_of_In, elem_of_seqZ. lia.
Qed.

Section Stages.
Variable EE : Type.
Variable ee_init : EE.
Variable ee_subtract : EE -> list Z -> EE.
Variable ee_entropy : EE -> list Z -> Z.
Variable MF_COUNT : Z.
Variable _filters : Z -> MonoFilter.
Variable heap : Z -> Z.
Variable mono_revisitCount : Z.
Variable RECURSIVE_THRESH : Z.
Variable returned : Z.
Variable other_stage : Stage -> MonoWriter -> option MonoWriter.

Local Abbreviation stages :=
  (run_stages EE ee_init ee_subtract ee_entropy MF_COUNT _filters heap
              mono_revisitCount RECURSIVE_THRESH returned other_stage).
Local Abbreviation turn :=
  (process_bits EE ee_init ee_subtract ee_entropy MF_COUNT _filters heap
                mono_revisitCount RECURSIVE_THRESH returned other_stage).
Local Abbreviation turns :=
  (process_turns EE ee_init ee_subtract ee_entropy MF_COUNT _filters heap
                 mono_revisitCount RECURSIVE_THRESH returned other_stage).
Local Abbreviation run :=
  (process EE ee_init ee_subtract ee_entropy MF_COUNT _filters heap
           mono_revisitCount RECURSIVE_THRESH returned other_stage).

(** Once a stage has not come back, none of the later ones runs. *)
Lemma stages_after_none (step : Stage -> MonoWriter -> option MonoWriter) l :
  fold_left (fun ow stage =>
               match ow with Some w' => step stage w' | None => None end)
            l None = None.
Proof. induction l as [| stage l IH]; [done | exact IH]. Qed.

(** The stages of one turn never get past [designTiles], whatever the four
    stages before it do. *)
Lemma run_stages_stop_at_designTiles child_process fuel w :
  stages child_process fuel stage_order w = None.
Proof.
  unfold run_stages.
  change stage_order
    with ([MaskTiles; DesignPaletteFilters; DesignFilters; DesignPaletteTiles]
          ++ DesignTiles
             :: [ComputeResiduals; DesignRowFilters; RecurseCompress;
                 DesignChaos]).
  rewrite fold_left_app.
  match goal with
  | |- context [fold_left ?g [MaskTiles; DesignPaletteFilters; DesignFilters;
                              DesignPaletteTiles] (Some w)] =>
      destruct (fold_left g [MaskTiles; DesignPaletteFilters; DesignFilters;
                             DesignPaletteTiles] (Some w)) as [w1 |]
  end.
  - cbn [fold_left run_stage].
    rewrite DesignTilesFacts.designTiles_never_comes_back. reflexivity.
  - reflexivity.
Qed.

Lemma turns_after_none child_process fuel l :
  fold_left (turn child_process fuel) l None = None.
Proof. induction l as [| b l IH]; [done | exact IH]. Qed.

(** With a bit count to try, the loop does not get through its first
    turn. *)
Lemma process_turns_stop child_process fuel params :
  min_bits params <= max_bits params ->
  turns child_process fuel params = None.
Proof.
  intros Hle. unfold process_turns, bits_tried.
  rewrite seqZ_cons by lia. cbn [fold_left process_bits writer].
  rewrite run_stages_stop_at_designTiles. apply turns_after_none.
Qed.

Lemma process_never_comes_back params fuel :
  min_bits params <= max_bits params -> run fuel params = None.
Proof.
  intros Hle. destruct fuel as [| fuel]; [reflexivity |].
  cbn [process]. by apply process_turns_stop.
Qed.

(** With no bit count to try, [process] comes back at once and leaves the
    writer as [cleanup] and the two assignments before the loop made it. *)
Lemma process_empty_range params fuel :
  max_bits params < min_bits params ->
  run (S fuel) params
  = Some (mkTileSearch INT_MAX (max_bits params) (fresh params)).
Proof.
  intros Hlt. cbn [process]. unfold process_turns, bits_tried.
  by rewrite seqZ_nil by lia.
Qed.

(** C5 (as the code has it). Whenever there is a bit count to try
    (min_bits <= max_bits), [process] does not come back, whatever number of
    loop turns it is granted and whatever the stages other than
    [designTiles] do: the first turn of its loop calls [designTiles], which
    never returns.  So no tile-edge bit count is retained, where the claim
    has the one of least total entropy kept. *)
Theorem process_never_finishes_first_turn (params : Parameters) :
  min_bits params <= max_bits params ->
  forall fuel, run fuel params = None.
Proof.
  intros Hle fuel. by apply process_never_comes_back.
Qed.

(** C7 (as the code has it). With at least RECURSIVE_THRESH tiles,
    [recurseCompress] hands the tile map to the child's [process] and sets
    what that call hands back against the row filters' entropy.  Whatever
    the child's [process] leaves behind, the child is deleted or kept on
    [returned], the value found where [process] should have returned one,
    not on an entropy of the child.  When the writer's parameters leave a
    bit count to try, the child's [process] does not come back, and neither
    does [recurseCompress]; when they leave none, the child comes back as
    [process] initialised it. *)
Theorem recurseCompress_does_not_weigh_the_child (w : MonoWriter) :
  RECURSIVE_THRESH <= _tiles_count w ->
  (forall child_process child,
     child_process (recurse_params w) = Some child ->
     recurseCompress RECURSIVE_THRESH returned child_process w
     = Some (set_filter_encoder w
               (if _row_filter_entropy w <? u32w returned then None
                else Some (writer child))))
  /\ (min_bits (_params w) <= max_bits (_params w) ->
      forall fuel,
        recurseCompress RECURSIVE_THRESH returned (run fuel) w = None)
  /\ (max_bits (_params w) < min_bits (_params w) ->
      forall fuel,
        recurseCompress RECURSIVE_THRESH returned (run (S fuel)) w
        = Some (set_filter_encoder w
                  (if _row_filter_entropy w <? u32w returned then None
                   else Some (fresh (recurse_params w))))).
Proof.
  intros Hcount.
  assert (Hcall : forall child_process child,
             child_process (recurse_params w) = Some child ->
             recurseCompress RECURSIVE_THRESH returned child_process w
             = Some (set_filter_encoder w
                       (if _row_filter_entropy w <? u32w returned then None
                        else Some (writer child)))).
  { intros child_process child Hchild. unfold recurseCompress.
    destruct (Z.ltb_spec (_tiles_count w) RECURSIVE_THRESH); [lia |].
    rewrite Hchild. by destruct (_ <? _). }
  split; [exact Hcall |]. split.
  - intros Hle fuel. unfold recurseCompress.
    destruct (Z.ltb_spec (_tiles_count w) RECURSIVE_THRESH); [lia |].
    by rewrite process_never_comes_back.
  - intros Hlt fuel.
    exact (Hcall (run (S fuel)) _
                 (process_empty_range (recurse_params w) fuel Hlt)).
Qed.
End Stages.

(** C5 on the sample call: bit counts 2 and 3 over the 8x8 plane. *)
Lemma process_never_finishes_first_turn_witness :
  min_bits Samples.two_sizes <= max_bits Samples.two_sizes
  /\ process unit tt (fun ee _ => ee)
             (fun _ codes => Samples.fixed_length_bits codes) 32
             (fun _ => Samples.zero_filter) (fun _ => 0) 4096 16 0
             Samples.idle_stage 8 Samples.two_sizes = None.
Proof.
  assert (H : min_bits Samples.two_sizes <= max_bits Samples.two_sizes)
    by (vm_compute; discriminate).
  split; [exact H |].
  exact (process_never_finishes_first_turn unit tt (fun ee _ => ee)
           (fun _ codes => Samples.fixed_length_bits codes) 32
           (fun _ => Samples.zero_filter) (fun _ => 0) 4096 16 0
           Samples.idle_stage Samples.two_sizes H 8%nat).
Defined.

(** C7 on two sample calls with a threshold of one tile.  Over the three
    tiles of the twelve-row plane, whose parameters have the bit count 2 to
    try, the call does not come back.  Over the four tiles of the 8x8 plane
    with an empty range of bit counts, the child is deleted when the value
    found is 3 and kept when it is 0, the row filters costing 0 bits. *)
Lemma recurseCompress_does_not_weigh_the_child_witness :
  (1 <= _tiles_count Samples.rows12
   /\ min_bits (_params Samples.rows12) <= max_bits (_params Samples.rows12)
   /\ recurseCompress 1 0
        (process unit tt (fun ee _ => ee)
                 (fun _ codes => Samples.fixed_length_bits codes) 32
                 (fun _ => Samples.zero_filter) (fun _ => 0) 4096 1 0
                 Samples.idle_stage 8)
        Samples.rows12 = None)
  /\ (1 <= _tiles_count Samples.four_tiles
      /\ max_bits (_params Samples.four_tiles)
         < min_bits (_params Samples.four_tiles)
      /\ recurseCompress 1 3
           (process unit tt (fun ee _ => ee)
                    (fun _ codes => Samples.fixed_length_bits codes) 32
                    (fun _ => Samples.zero_filter) (fun _ => 0) 4096 1 3
                    Samples.idle_stage 8) Samples.four_tiles
         = Some (set_filter_encoder Samples.four_tiles None)
      /\ recurseCompress 1 0
           (process unit tt (fun ee _ => ee)
                    (fun _ codes => Samples.fixed_length_bits codes) 32
                    (fun _ => Samples.zero_filter) (fun _ => 0) 4096 1 0
                    Samples.idle_stage 8) Samples.four_tiles
         = Some (set_filter_encoder Samples.four_tiles
                   (Some (fresh (recurse_params Samples.four_tiles))))).
Proof.
  assert (H : 1 <= _tiles_count Samples.rows12) by (vm_compute; discriminate).
  assert (Hle : min_bits (_params Samples.rows12)
                <= max_bits (_params Samples.rows12))
    by (vm_compute; discriminate).
  assert (H' : 1 <= _tiles_count Samples.four_tiles)
    by (vm_compute; discriminate).
  assert (Hlt : max_bits (_params Samples.four_tiles)
                < min_bits (_params Samples.four_tiles))
    by (vm_compute; reflexivity).
  split; [split; [exact H | split; [exact Hle |]] |
          split; [exact H' | split; [exact Hlt | split]]].
  - exact (proj1 (proj2
             (recurseCompress_does_not_weigh_the_child unit tt
                (fun ee _ => ee)
                (fun _ codes => Samples.fixed_length_bits codes) 32
                (fun _ => Samples.zero_filter) (fun _ => 0) 4096 1 0
                Samples.idle_stage Samples.rows12 H))
             Hle 8%nat).
  - exact (proj2 (proj2
             (recurseCompress_does_not_weigh_the_child unit tt
                (fun ee _ => ee)
                (fun _ codes => Samples.fixed_length_bits codes) 32
                (fun _ => Samples.zero_filter) (fun _ => 0) 4096 1 3
                Samples.idle_stage Samples.four_tiles H'))
             Hlt 7%nat).
  - exact (proj2 (proj2
             (recurseCompress_does_not_weigh_the_child unit tt
                (fun ee _ => ee)
                (fun _ codes => Samples.fixed_length_bits codes) 32
                (fun _ => Samples.zero_filter) (fun _ => 0) 4096 1 0
                Samples.idle_stage Samples.four_tiles H'))
             Hlt 7%nat).
Defined.

End ProcessFacts.

(** * Facts about [ImageRGBAReader] *)

Module ReaderFacts.
Import Reader.

Section Decoder.
Variable Stream : Type.
Variable y_next u_next v_next : Z -> Stream -> Z * Stream.
Variable MonoReader : Type.
Variable mono_read mono_read_unsafe :
  MonoReader -> Z -> Stream -> Z * MonoReader * Stream.
Variable RGBChaos : Type.
Variable chaos_get : RGBChaos -> Z -> Z * Z * Z.
Variable chaos_store : RGBChaos -> Z -> Z * Z * Z -> RGBChaos.
Variable YUV2RGB_FILTERS : Z -> YUV2RGBFilterFunction.

Local Abbreviation Decoder := (ImageRGBAReader MonoReader RGBChaos).
Local Abbreviation read_safe :=
  (readSafe Stream y_next u_next v_next MonoReader mono_read RGBChaos
            chaos_get chaos_store YUV2RGB_FILTERS).
Local Abbreviation read_unsafe :=
  (readUnsafe Stream y_next u_next v_next MonoReader mono_read
              mono_read_unsafe RGBChaos chaos_get chaos_store
              YUV2RGB_FILTERS).
Local Abbreviation read_filter :=
  (readFilter Stream MonoReader mono_read RGBChaos YUV2RGB_FILTERS).
Local Abbreviation y_symbol :=
  (Reader.y_symbol Stream y_next MonoReader RGBChaos chaos_get).
Local Abbreviation before_prediction :=
  (Reader.before_prediction Stream y_next u_next v_next MonoReader mono_read
                            RGBChaos chaos_get YUV2RGB_FILTERS).

(** C3 (as the code has it). When the Y symbol is an LZ escape (256 or
    more), [readSafe] and [readUnsafe] hand back the decoder as they found
    it and the stream just after that one symbol: no length or distance
    is read, no pixel is copied or written, and the chaos state is not
    advanced. *)
Theorem read_escape_does_nothing d x y p reader :
  256 <= fst (y_symbol d x reader) ->
  read_safe d x y p reader = (d, snd (y_symbol d x reader))
  /\ read_unsafe d x y p reader = (d, snd (y_symbol d x reader)).
Proof.
  unfold Reader.y_symbol, readSafe, readUnsafe.
  destruct (chaos_get (_chaos _ _ d) x) as [[cy cu] cv]. simpl.
  destruct (y_next cy reader) as [code reader1]. simpl.
  intros H. destruct (Z.leb_spec 256 (u16w code)); [done | lia].
Qed.

(** C10. At a pixel and stream state where the checked and the unchecked
    variant of the tile's spatial filter predict the same and the checked
    and the unchecked alpha read give the same, [readSafe] and
    [readUnsafe] give the same decoder (so the same pixel bytes and the
    same chaos state) and the same stream position. *)
Theorem readSafe_readUnsafe_agree d x y p reader :
  (forall d1 reader4 filter rgba1,
     before_prediction d x y p reader = Some (d1, reader4, filter, rgba1) ->
     safe (sf filter) rgba1 p x y (_xsize _ _ d1)
     = unsafe (sf filter) rgba1 p x y (_xsize _ _ d1)
     /\ mono_read (_a_decoder _ _ d1) x reader4
        = mono_read_unsafe (_a_decoder _ _ d1) x reader4) ->
  read_safe d x y p reader = read_unsafe d x y p reader.
Proof.
  unfold Reader.before_prediction, readSafe, readUnsafe.
  destruct (chaos_get (_chaos _ _ d) x) as [[cy cu] cv].
  destruct (y_next cy reader) as [code reader1].
  destruct (256 <=? u16w code); [reflexivity |].
  destruct (u_next cu reader1) as [u reader2].
  destruct (v_next cv reader2) as [v reader3].
  destruct (read_filter d x y reader3) as [[d1 reader4] filter].
  intros H. destruct (H _ _ _ _ eq_refl) as (Hsf & Ha).
  rewrite Hsf, Ha. reflexivity.
Qed.
End Decoder.

End ReaderFacts.

(** * Facts about the decoder over symbol streams *)

Module CodecFacts.
Import Reader Codec.

(** C8 (amended). For a tile column whose filters were not read yet,
    [readFilter] takes the next symbol of the stream as the tile's CF id,
    read through [_cf_decoder] (the CF-map sub-engine), and the one after it
    as the tile's SF id, read through [_sf_decoder] (the SF-map sub-engine):
    the colour filter comes first.  For a column already seen it reads
    nothing. *)
Theorem readFilter_reads_cf_then_sf (d : Decoder) (x y c s : Z)
    (rest : list Z) (tr : list Event) :
  (ready (filter_at _ _ d (Z.to_nat (tile_column d x))) = false ->
   let '(d', reader', f) :=
     readFilter d x y (mkTokens (c :: s :: rest) tr) in
   cf f = Some (YUV2RGB_FILTERS c)
   /\ sf f = _sf _ _ d s
   /\ reader'
      = mkTokens rest
                 (tr ++ [mono_event (_cf_decoder _ _ d) (tile_column d x);
                         mono_event (_sf_decoder _ _ d) (tile_column d x)])
   /\ _filters _ _ d' = <[Z.to_nat (tile_column d x) := f]> (_filters _ _ d))
  /\ (ready (filter_at _ _ d (Z.to_nat (tile_column d x))) = true ->
      readFilter d x y (mkTokens (c :: s :: rest) tr)
      = (d, mkTokens (c :: s :: rest) tr,
         filter_at _ _ d (Z.to_nat (tile_column d x)))).
Proof.
  unfold readFilter, Reader.readFilter, tile_column.
  split; intros Hready; rewrite Hready; [| reflexivity].
  simpl. rewrite <- app_assoc. repeat split.
Qed.

(** The amended C8 on the 4x1 sample stream, whose one tile starts unseen. *)
Lemma readFilter_reads_cf_then_sf_witness :
  ready (filter_at _ _ Samples.abab_start
                   (Z.to_nat (tile_column Samples.abab_start 0))) = false
  /\ let '(d', reader', f) :=
       readFilter Samples.abab_start 0 0 (mkTokens [1; 0; 30] []) in
     cf f = Some (YUV2RGB_FILTERS 1)
     /\ sf f = SF_CATALOG 0
     /\ reader' = mkTokens [30] [EvCF 0; EvSF 0]
     /\ _filters _ _ d' = [f].
Proof.
  assert (H : ready (filter_at _ _ Samples.abab_start
                       (Z.to_nat (tile_column Samples.abab_start 0))) = false)
    by reflexivity.
  split; [exact H |].
  exact (proj1 (readFilter_reads_cf_then_sf Samples.abab_start 0 0 1 0 [30] [])
               H).
Defined.

(** C8 (as stated) fails. On the stream 1, 0 the unseen tile gets colour
    filter 1 and spatial filter 0: the CF-map sub-engine is asked first and
    the SF-map sub-engine second, not the other way round. *)
Lemma readFilter_does_not_read_sf_first :
  let '(_, reader', f) := readFilter Samples.abab_start 0 0 (mkTokens [1; 0] []) in
  trace reader' = [EvCF 0; EvSF 0]
  /\ trace reader' <> [EvSF 0; EvCF 0]
  /\ apply_cf f (10, 20, 30) = YUV2RGB_FILTERS 1 (10, 20, 30)
  /\ apply_cf f (10, 20, 30) <> YUV2RGB_FILTERS 0 (10, 20, 30)
  /\ sf f = SF_CATALOG 0.
Proof. vm_compute. repeat split; discriminate. Qed.

(** C3 on the sample stream: read at the third pixel, the escape 257
    followed by the length 2 and the distance 2 leaves the decoder and its
    output as they were; the two numbers stay in the stream. *)
Lemma read_escape_does_nothing_witness :
  256 <= fst (Reader.y_symbol Tokens tok_y MonoMap RGBChaos chaos_get
                Samples.abab_after_first 2 (mkTokens [257; 2; 2] []))
  /\ readSafe Samples.abab_after_first 2 0 8%nat (mkTokens [257; 2; 2] [])
     = (Samples.abab_after_first, mkTokens [2; 2] [EvY 1]).
Proof.
  assert (H : 256 <= fst (Reader.y_symbol Tokens tok_y MonoMap RGBChaos
                            chaos_get Samples.abab_after_first 2
                            (mkTokens [257; 2; 2] [])))
    by (vm_compute; discriminate).
  split; [exact H |].
  exact (proj1 (ReaderFacts.read_escape_does_nothing Tokens tok_y tok_u tok_v
                  MonoMap tok_mono tok_mono RGBChaos chaos_get chaos_store
                  YUV2RGB_FILTERS Samples.abab_after_first 2 0 8%nat
                  (mkTokens [257; 2; 2] []) H)).
Defined.

(** C10 on the sample stream: at the second pixel, which has a left
    neighbour, the two variants of the left predictor agree, and so do
    [readSafe] and [readUnsafe]. *)
Lemma readSafe_readUnsafe_agree_witness :
  readSafe Samples.abab_after_first 1 0 4%nat (mkTokens [50; 10; 246; 0] [])
  = readUnsafe Samples.abab_after_first 1 0 4%nat
               (mkTokens [50; 10; 246; 0] []).
Proof.
  apply (ReaderFacts.readSafe_readUnsafe_agree Tokens tok_y tok_u tok_v
           MonoMap tok_mono tok_mono RGBChaos chaos_get chaos_store
           YUV2RGB_FILTERS).
  intros d1 reader4 filter rgba1 H.
  vm_compute in H. injection H as <- <- <- <-.
  split; reflexivity.
Defined.

(** An image in which the match finder finds nothing comes back as it was:
    here two rows, two tile columns and a masked pixel. *)
Example round_trip_without_match :
  designLZ Samples.mask_3x2 Samples.plan_3x2 Samples.masked_3x2 8 = []
  /\ round_trip Samples.mask_3x2 (0, 0, 0, 0) Samples.plan_3x2 8
                Samples.masked_3x2
     = Some Samples.masked_3x2.
Proof. split; vm_compute; reflexivity. Qed.

(** C1 (as the code has it). The 4x1 image a b a b is written as the two
    pixels a and b and one LZ match (offset 2, distance 2, length 2).  Read
    back, its third pixel is never written and its fourth is decoded from
    the match's length and distance, so the image that comes out differs
    from the one that went in.  With the LZ subsystem off the same image
    comes back as it was. *)
Theorem round_trip_breaks_on_lz_match :
  designLZ Samples.unmasked (Samples.abab_plan true) Samples.abab 8
  = [LZ.mkLZMatch 2 2 2]
  /\ write Samples.unmasked (Samples.abab_plan true) Samples.abab 8
     = Some [20; 10; 246; 1; 1; 0;  30; 0; 0; 0;  257; 2; 2]
  /\ round_trip Samples.unmasked (0, 0, 0, 0) (Samples.abab_plan true) 8
                Samples.abab
     = Some (mkImage [10; 20; 30; 255;  40; 50; 60; 255;
                      0; 0; 0; 0;  2; 2; 4; 255] 4 1)
  /\ round_trip Samples.unmasked (0, 0, 0, 0) (Samples.abab_plan true) 8
                Samples.abab
     <> Some Samples.abab
  /\ round_trip Samples.unmasked (0, 0, 0, 0) (Samples.abab_plan false) 8
                Samples.abab
     = Some Samples.abab.
Proof. repeat split; vm_compute; (reflexivity || discriminate). Qed.

End CodecFacts.

(** * Facts about the RGBA match finder *)

Module LZFacts.
Import LZ.

(** Boolean tests that hold, read as the propositions they decide. *)
Ltac bool_facts :=
  repeat match goal with
         | H : _ && _ = true |- _ => apply andb_prop in H as [? ?]
         | H : negb _ = true |- _ => apply negb_true_iff in H
         | H : (_ <? _) = true |- _ => apply Z.ltb_lt in H
         | H : (_ <=? _) = true |- _ => apply Z.leb_le in H
         | H : (_ =? _) = true |- _ => apply Z.eqb_eq in H
         end.

Section Soundness.
Variable rgba : list Z.
Variable xsize ysize : Z.
Variable is_masked : Z -> Z -> bool.
Variable CHAIN_LIMIT : nat.

Local Abbreviation masked := (masked_at xsize is_masked).
Local Abbreviation npixels := (pixels xsize ysize).
Local Abbreviation px := (pixel rgba).
Local Abbreviation copies := (LZ.copies rgba xsize ysize is_masked).
Local Abbreviation sound_match := (LZ.sound_match rgba xsize ysize is_masked).
Local Abbreviation sound := (LZ.sound rgba xsize ysize is_masked).

Lemma extend_spec fuel src dst k :
  let L := extend rgba xsize ysize is_masked fuel src dst k in
  k <= L <= k + Z.of_nat fuel
  /\ forall i, k <= i < L -> copies src dst i.
Proof.
  revert k. induction fuel as [| fuel IH]; intros k; cbn [extend].
  - split; [lia |]. intros i Hi. lia.
  - destruct (_ && _) eqn:E.
    + destruct (IH (k + 1)) as (Hrange & Hcopies). split; [lia |].
      intros i Hi. destruct (decide (i = k)) as [-> | Hne].
      * bool_facts. unfold LZ.copies. repeat split; assumption.
      * apply Hcopies. lia.
    + split; [lia |]. intros i Hi. lia.
Qed.

Lemma match_length_spec src dst :
  0 <= match_length rgba xsize ysize is_masked src dst <= MAX_MATCH
  /\ forall i, 0 <= i < match_length rgba xsize ysize is_masked src dst ->
               copies src dst i.
Proof.
  unfold match_length.
  destruct (extend_spec (Z.to_nat MAX_MATCH) src dst 0) as (Hrange & Hcopies).
  split; [| exact Hcopies].
  rewrite Z2Nat.id in Hrange by (unfold MAX_MATCH; lia). lia.
Qed.

Lemma chain_walk_before off chain depth j :
  chain_backwards chain -> 0 <= j < off ->
  Forall (fun c => 0 <= c < off) (chain_walk depth chain j).
Proof.
  intros Hchain. revert j. induction depth as [| depth IH]; intros j Hj;
    cbn [chain_walk]; [constructor |].
  constructor; [exact Hj |].
  destruct (chain !! j) as [j' |] eqn:E; [| constructor].
  apply IH. apply Hchain in E. lia.
Qed.

Lemma candidates_before off table chain :
  table_before off table -> chain_backwards chain ->
  Forall (fun c => 0 <= c < off)
         (candidates rgba CHAIN_LIMIT table chain off).
Proof.
  intros Htable Hchain. unfold candidates.
  destruct (table !! _) as [j |] eqn:E; [| constructor].
  apply chain_walk_before; [exact Hchain |]. by apply Htable in E.
Qed.

(** A candidate that is taken gives a sound match. *)
Lemma consider_sound off best j :
  0 <= j < off ->
  (forall D L, best = Some (D, L) -> sound_match off D L) ->
  forall D L, consider rgba xsize ysize is_masked off best j = Some (D, L) ->
              sound_match off D L.
Proof.
  intros Hj Hbest D L. unfold consider.
  destruct (accepted _ _ && better _ _ best) eqn:E; [| apply Hbest].
  intros [= <- <-].
  apply andb_prop in E as (Hacc & _). unfold accepted in Hacc. bool_facts.
  destruct (match_length_spec j off) as (Hrange & Hcopies).
  unfold LZ.sound_match. replace (off - (off - j)) with j by lia.
  repeat split; try lia. all: by apply Hcopies.
Qed.

Lemma best_match_sound off table chain D L :
  table_before off table -> chain_backwards chain ->
  best_match rgba xsize ysize is_masked CHAIN_LIMIT table chain off
  = Some (D, L) ->
  sound_match off D L.
Proof.
  intros Htable Hchain. unfold best_match.
  pose proof (candidates_before off table chain Htable Hchain) as Hc.
  assert (H : forall cs best,
             Forall (fun c => 0 <= c < off) cs ->
             (forall D L, best = Some (D, L) -> sound_match off D L) ->
             forall D L,
               fold_left (consider rgba xsize ysize is_masked off) cs best
               = Some (D, L) -> sound_match off D L).
  { induction cs as [| c cs IH]; intros best Hcs Hbest D' L'; simpl.
    - apply Hbest.
    - inversion Hcs; subst. apply IH; [assumption |].
      by apply consider_sound. }
  apply (H _ None Hc). intros ? ? [=].
Qed.

Lemma remember_keeps off off' table chain :
  0 <= off < off' ->
  table_before off table -> chain_backwards chain ->
  table_before off' (fst (remember rgba table chain off))
  /\ chain_backwards (snd (remember rgba table chain off)).
Proof.
  intros Hoff Htable Hchain. unfold remember. cbn [fst snd]. split.
  - intros h j Hj. apply lookup_insert_Some in Hj as [(_ & <-) | (_ & Hj)];
      [lia |]. apply Htable in Hj. lia.
  - destruct (table !! hash_at rgba off) as [j0 |] eqn:E; [| exact Hchain].
    intros k j Hj. apply lookup_insert_Some in Hj as [(<- & <-) | (_ & Hj)].
    + by apply Htable in E.
    + by apply Hchain in Hj.
Qed.

Lemma table_before_later off off' table :
  off <= off' -> table_before off table -> table_before off' table.
Proof. intros Hle H h j Hj. apply H in Hj. lia. Qed.

Lemma scan_sound fuel off table chain found :
  0 <= off -> table_before off table -> chain_backwards chain ->
  Forall sound found ->
  Forall sound
         (scan rgba xsize ysize is_masked CHAIN_LIMIT fuel off table chain
               found).
Proof.
  revert off table chain found.
  induction fuel as [| fuel IH]; intros off table chain found Hoff Htable
                                        Hchain Hfound; cbn [scan].
  - by apply Forall_rev.
  - destruct (off + 1 <? npixels); [| by apply Forall_rev].
    destruct (_ || _).
    + apply IH; try assumption; [lia |].
      eapply table_before_later; [| exact Htable]. lia.
    + destruct (remember rgba table chain off) as [table' chain'] eqn:Er.
      destruct (best_match _ _ _ _ _ _ _ _) as [[D L] |] eqn:Eb.
      * pose proof (best_match_sound off table chain D L Htable Hchain Eb)
          as Hs.
        assert (HL : 2 <= L) by (unfold LZ.sound_match, RGBA_MIN_MATCH in Hs; lia).
        destruct (remember_keeps off (off + L) table chain ltac:(lia) Htable
                                 Hchain) as (Ht & Hc).
        rewrite Er in Ht, Hc. apply IH; try assumption; [lia |].
        constructor; [exact Hs | exact Hfound].
      * destruct (remember_keeps off (off + 1) table chain ltac:(lia) Htable
                                 Hchain) as (Ht & Hc).
        rewrite Er in Ht, Hc. apply IH; try assumption. lia.
Qed.

(** C9. Every match the RGBA match finder emits has a distance of at least
    one pixel, a length between RGBA_MIN_MATCH = 2 and MAX_MATCH = 4096, a
    source that starts at or after the first pixel, a distance within the
    sliding window of 2^20 pixels, and a copied-from region that holds no
    masked pixel. *)
Theorem scanRGBA_matches_sound (m : LZMatch) :
  In m (scanRGBA rgba xsize ysize is_masked CHAIN_LIMIT) ->
  1 <= m_distance m
  /\ RGBA_MIN_MATCH <= m_length m
  /\ m_length m <= MAX_MATCH
  /\ 0 <= m_offset m - m_distance m
  /\ m_distance m <= WIN_SIZE
  /\ (forall k, 0 <= k < m_length m ->
                masked_at xsize is_masked (m_offset m - m_distance m + k)
                = false)
  /\ RGBA_MIN_MATCH = 2 /\ MAX_MATCH = 4096 /\ WIN_SIZE = 2 ^ 20.
Proof.
  intros Hin.
  assert (Hall : Forall sound (scanRGBA rgba xsize ysize is_masked CHAIN_LIMIT)).
  { unfold scanRGBA. apply scan_sound; [lia | | | constructor].
    - intros h j Hj. by rewrite lookup_empty in Hj.
    - intros k j Hj. by rewrite lookup_empty in Hj. }
  rewrite Forall_forall in Hall. apply list_elem_of_In in Hin.
  specialize (Hall m Hin).
  destruct Hall as (HD & Hsrc & Hwin & HL & Hcopies).
  repeat split; try lia; try reflexivity.
  intros k Hk. by destruct (Hcopies k Hk) as (_ & Hs & _).
Qed.
End Soundness.

(** C9 on the 4x1 sample image a b a b: its one match copies pixels 0 and 1
    to pixels 2 and 3. *)
Lemma scanRGBA_matches_sound_witness :
  In Samples.abab_match (scanRGBA Samples.abab_pixels 4 1 Samples.unmasked 8)
  /\ 1 <= m_distance Samples.abab_match
  /\ RGBA_MIN_MATCH <= m_length Samples.abab_match
  /\ m_length Samples.abab_match <= MAX_MATCH
  /\ 0 <= m_offset Samples.abab_match - m_distance Samples.abab_match
  /\ m_distance Samples.abab_match <= WIN_SIZE
  /\ (forall k, 0 <= k < m_length Samples.abab_match ->
                masked_at 4 Samples.unmasked
                  (m_offset Samples.abab_match
                   - m_distance Samples.abab_match + k) = false)
  /\ RGBA_MIN_MATCH = 2 /\ MAX_MATCH = 4096 /\ WIN_SIZE = 2 ^ 20.
Proof.
  assert (Hin : In Samples.abab_match
                   (scanRGBA Samples.abab_pixels 4 1 Samples.unmasked 8))
    by (vm_compute; left; reflexivity).
  split; [exact Hin |].
  exact (scanRGBA_matches_sound Samples.abab_pixels 4 1 Samples.unmasked 8
                                Samples.abab_match Hin).
Defined.

End LZFacts.

(** * Facts about the tile loops of the design stages *)

Module TileWalkFacts.
Import Mono MonoDesign.

Lemma seqZ_snoc (n : nat) :
  seqZ 0 (Z.of_nat (S n)) = seqZ 0 (Z.of_nat n) ++ [Z.of_nat n].
Proof.
  rewrite Nat2Z.inj_succ, <- Z.add_1_r, seqZ_app by lia.
  by rewrite (seqZ_cons _ 1), (seqZ_nil _ (Z.pred 1)), Z.add_0_l by lia.
Qed.

(** A [u16] loop whose counter does not wrap and whose body always falls
    through runs its body once per stride. *)
Lemma for_u16_strides {S : Type} (f : Z -> S -> S)
    (body : Z -> S -> outcome S) (base step bound : Z) :
  0 < step -> 0 <= base ->
  (forall i s, body i s = Next (f i s)) ->
  forall (n : nat) (fuel j : nat) (s : S),
    (n < fuel)%nat ->
    (forall k, Z.of_nat j <= k < Z.of_nat j + Z.of_nat n ->
               base + k * step < bound) ->
    bound <= base + (Z.of_nat j + Z.of_nat n) * step ->
    base + (Z.of_nat j + Z.of_nat n) * step < 65536 ->
    for_u16 fuel (base + Z.of_nat j * step) bound step body s
    = Next (fold_left (fun s k => f (base + Z.of_nat k * step) s) (seq j n) s).
Proof.
  intros Hstep Hbase Hbody n.
  induction n as [| n IH]; intros fuel j s Hfuel Hin Hout Hwrap.
  - destruct fuel as [| fuel]; [lia |]. cbn.
    destruct (Z.ltb_spec (base + Z.of_nat j * step) bound); [lia | done].
  - destruct fuel as [| fuel]; [lia |]. cbn [for_u16 seq fold_left].
    destruct (Z.ltb_spec (base + Z.of_nat j * step) bound) as [_ | Hge].
    2: { specialize (Hin (Z.of_nat j)). lia. }
    rewrite Hbody.
    replace (u16w (base + Z.of_nat j * step + step))
      with (base + Z.of_nat (Datatypes.S j) * step).
    2: { unfold u16w. rewrite Z.mod_small; nia. }
    apply IH; [lia | | |].
    + intros k Hk. apply Hin. lia.
    + replace (Z.of_nat (Datatypes.S j) + Z.of_nat n)
        with (Z.of_nat j + Z.of_nat (Datatypes.S n)) by lia. done.
    + replace (Z.of_nat (Datatypes.S j) + Z.of_nat n)
        with (Z.of_nat j + Z.of_nat (Datatypes.S n)) by lia. done.
Qed.

(** The number of strides of [step] below [bound]. *)
Lemma strides_count bound step :
  0 < step -> 0 <= bound ->
  let n := (bound + step - 1) / step in
  0 <= n /\ (forall k, 0 <= k < n -> k * step < bound)
  /\ bound <= n * step < bound + step.
Proof.
  intros Hs Hb n.
  pose proof (Z.div_mod (bound + step - 1) step ltac:(lia)) as Hdm.
  pose proof (Z.mod_pos_bound (bound + step - 1) step Hs) as Hm.
  fold n in Hdm.
  assert (0 <= n) by (apply Z.div_pos; lia).
  repeat split; intros; nia.
Qed.

Section Grid.
(** A loop body that rewrites the tile under [p] and steps to the next. *)
Variable val : Z -> Z -> Z -> Z.
Variable cell : Z -> Z -> Walk -> Walk.
Hypothesis cell_p : forall y x m, wk_p (cell y x m) = wk_p m + 1.
Hypothesis cell_tiles : forall y x m a,
  wk_tiles (cell y x m) a
  = if a =? wk_p m then val y x (wk_tiles m a) else wk_tiles m a.
Variable Tx Ty : Z.

Local Abbreviation row_walk y n m :=
  (fold_left (fun m k => cell y (0 + Z.of_nat k * Tx) m) (seq 0 n) m).
Local Abbreviation grid_walk ny nx m :=
  (fold_left (fun m j => row_walk (0 + Z.of_nat j * Ty) nx m) (seq 0 ny) m).

Lemma row_walk_spec y (n : nat) m :
  wk_p (row_walk y n m) = wk_p m + Z.of_nat n
  /\ forall a,
       wk_tiles (row_walk y n m) a
       = if (wk_p m <=? a) && (a <? wk_p m + Z.of_nat n)
         then val y ((a - wk_p m) * Tx) (wk_tiles m a)
         else wk_tiles m a.
Proof.
  induction n as [| n [IHp IHt]].
  - cbn. split; [lia |]. intros a.
    destruct (Z.leb_spec (wk_p m) a), (Z.ltb_spec a (wk_p m + Z.of_nat 0));
      cbn; try done; lia.
  - rewrite seq_S, fold_left_app. cbn [fold_left Nat.add].
    rewrite cell_p, IHp. split; [lia |]. intros a.
    rewrite cell_tiles, IHp, IHt.
    destruct (Z.eqb_spec a (wk_p m + Z.of_nat n)) as [-> | Hne].
    + destruct (Z.leb_spec (wk_p m) (wk_p m + Z.of_nat n)); [| lia].
      destruct (Z.ltb_spec (wk_p m + Z.of_nat n) (wk_p m + Z.of_nat n));
        [lia |].
      destruct (Z.ltb_spec (wk_p m + Z.of_nat n)
                           (wk_p m + Z.of_nat (Datatypes.S n))); [| lia].
      cbn. f_equal. lia.
    + destruct (Z.leb_spec (wk_p m) a); cbn; [| done].
      destruct (Z.ltb_spec a (wk_p m + Z.of_nat n)),
               (Z.ltb_spec a (wk_p m + Z.of_nat (Datatypes.S n)));
        try done; lia.
Qed.

Lemma grid_walk_spec (ny nx : nat) m :
  wk_p (grid_walk ny nx m) = wk_p m + Z.of_nat ny * Z.of_nat nx
  /\ (forall j k, 0 <= j < Z.of_nat ny -> 0 <= k < Z.of_nat nx ->
        wk_tiles (grid_walk ny nx m) (wk_p m + j * Z.of_nat nx + k)
        = val (j * Ty) (k * Tx) (wk_tiles m (wk_p m + j * Z.of_nat nx + k)))
  /\ (forall a, a < wk_p m \/ wk_p m + Z.of_nat ny * Z.of_nat nx <= a ->
        wk_tiles (grid_walk ny nx m) a = wk_tiles m a).
Proof.
  induction ny as [| ny (IHp & IHin & IHout)].
  - cbn. split; [lia |]. split; [intros; lia | done].
  - rewrite seq_S, fold_left_app. cbn [fold_left Nat.add].
    set (g := grid_walk ny nx m) in *.
    destruct (row_walk_spec (0 + Z.of_nat ny * Ty) nx g) as [Hp Ht].
    rewrite Hp, IHp. split; [lia |]. split.
    + intros j k Hj Hk. rewrite Ht, IHp.
      destruct (Z.eq_dec j (Z.of_nat ny)) as [-> | Hne].
      * destruct (Z.leb_spec (wk_p m + Z.of_nat ny * Z.of_nat nx)
                             (wk_p m + Z.of_nat ny * Z.of_nat nx + k));
          [| lia].
        destruct (Z.ltb_spec (wk_p m + Z.of_nat ny * Z.of_nat nx + k)
                    (wk_p m + Z.of_nat ny * Z.of_nat nx + Z.of_nat nx));
          [| lia].
        cbn. rewrite IHout by lia. f_equal; lia.
      * destruct (Z.leb_spec (wk_p m + Z.of_nat ny * Z.of_nat nx)
                             (wk_p m + j * Z.of_nat nx + k)); [nia |].
        cbn. apply IHin; lia.
    + intros a Ha. rewrite Ht, IHp.
      destruct (Z.leb_spec (wk_p m + Z.of_nat ny * Z.of_nat nx) a),
               (Z.ltb_spec a (wk_p m + Z.of_nat ny * Z.of_nat nx
                              + Z.of_nat nx));
        cbn; try (apply IHout; lia); nia.
Qed.

(** The two nested tile loops of a design stage, run to the end. *)
Lemma tile_loops (body : Z -> Z -> Walk -> outcome Walk) fuel sx sy m :
  (forall y x m, body y x m = Next (cell y x m)) ->
  0 < Tx -> 0 < Ty -> 0 <= sx -> 0 <= sy ->
  sx + Tx <= 65536 -> sy + Ty <= 65536 ->
  let nx := Z.to_nat ((sx + Tx - 1) / Tx) in
  let ny := Z.to_nat ((sy + Ty - 1) / Ty) in
  (nx < fuel)%nat -> (ny < fuel)%nat ->
  for_u16 fuel 0 sy Ty (fun y => for_u16 fuel 0 sx Tx (body y)) m
  = Next (grid_walk ny nx m).
Proof.
  intros Hbody HTx HTy Hsx Hsy Hwx Hwy nx ny Hfx Hfy.
  destruct (strides_count sx Tx HTx Hsx) as (Hnx & Hinx & Houtx).
  destruct (strides_count sy Ty HTy Hsy) as (Hny & Hiny & Houty).
  assert (Hrow : forall y m,
            for_u16 fuel 0 sx Tx (body y) m = Next (row_walk y nx m)).
  { intros y m0.
    apply (for_u16_strides (cell y) (body y) 0 Tx sx HTx (Z.le_refl 0)
                           (Hbody y) nx fuel 0%nat m0 Hfx);
      unfold nx; rewrite Z2Nat.id by lia.
    - intros k Hk. specialize (Hinx k). lia.
    - lia.
    - lia. }
  apply (for_u16_strides (fun y m => row_walk y nx m)
           (fun y => for_u16 fuel 0 sx Tx (body y)) 0 Ty sy HTy (Z.le_refl 0)
           Hrow ny fuel 0%nat m Hfy);
    unfold ny; rewrite Z2Nat.id by lia.
  - intros k Hk. specialize (Hiny k). lia.
  - lia.
  - lia.
Qed.
End Grid.

Lemma peek_tiles_of w m (i : nat) :
  (i < length (_tiles w))%nat -> peek (tiles_of w m) i = m (Z.of_nat i).
Proof.
  intros Hi. unfold peek, tiles_of.
  change (map ?f ?l) with (f <$> l).
  rewrite list_lookup_fmap, lookup_seq_lt by done. done.
Qed.

End TileWalkFacts.

(** * Facts about [maskTiles] *)

Module MaskTilesFacts.
Import Mono MonoDesign TileWalkFacts.

Section Marks.
Variable heap : Z -> Z.
Variable w : MonoWriter.

Local Abbreviation Tx := (tile_size_x w).
Local Abbreviation Ty := (tile_size_y w).
Local Abbreviation nx := ((sx w + tile_size_x w - 1) / tile_size_x w).
Local Abbreviation ny := ((sy w + tile_size_y w - 1) / tile_size_y w).

Lemma u16w_range v : 0 <= u16w v < 65536.
Proof. unfold u16w. apply Z.mod_pos_bound. lia. Qed.

Lemma unmasked_in_row_eq cx px py :
  unmasked_in_row w cx px py
  = (0 <? Z.of_nat cx) && (px <? sx w) && negb (masked w px py).
Proof.
  induction cx as [| cx IH]; [done |].
  cbn [unmasked_in_row]. rewrite IH.
  destruct (Z.ltb_spec 0 (Z.of_nat (S cx))); [| lia].
  destruct (px <? sx w), (masked w px py), (0 <? Z.of_nat cx); done.
Qed.

Lemma unmasked_in_tile_spec cy x py :
  0 < Tx -> x < sx w -> 0 <= py ->
  unmasked_in_tile w cy x py = true
  <-> exists k, 0 <= k < Z.of_nat cy /\ py + k < sy w
                /\ masked w x (py + k) = false.
Proof.
  intros HTx Hx. revert py.
  induction cy as [| cy IH]; intros py Hpy.
  - cbn. split; [done |]. intros (k & ? & _). lia.
  - cbn [unmasked_in_tile]. rewrite unmasked_in_row_eq.
    destruct (Z.ltb_spec 0 (Z.of_nat (Z.to_nat Tx))); [| lia].
    destruct (Z.ltb_spec x (sx w)); [| lia]. cbn [andb].
    destruct (Z.ltb_spec py (sy w)) as [Hlt | Hge].
    + destruct (masked w x py) eqn:Hm; cbn [negb].
      * pose proof (u16w_range (Z.of_nat (size_y (_params w)))) as Hsy.
        fold (sy w) in Hsy.
        replace (u16w (py + 1)) with (py + 1)
          by (unfold u16w; rewrite Z.mod_small; lia).
        rewrite IH by lia. split.
        -- intros (k & Hk & Hin & Hmk). exists (k + 1).
           replace (py + (k + 1)) with (py + 1 + k) by lia. split; [lia | done].
        -- intros (k & Hk & Hin & Hmk).
           destruct (Z.eq_dec k 0) as [-> | Hne].
           { rewrite Z.add_0_r in Hmk. congruence. }
           exists (k - 1).
           replace (py + 1 + (k - 1)) with (py + k) by lia. split; [lia | done].
      * split; [| done]. intros _. exists 0.
        rewrite Z.add_0_r. split; [lia | done].
    + split; [done |]. intros (k & ? & ? & _). lia.
Qed.

Lemma tile_mark_cases x y :
  tile_mark w x y = MASK_TILE \/ tile_mark w x y = TODO_TILE.
Proof. unfold tile_mark. destruct (unmasked_in_tile _ _ _ _); auto. Qed.

Lemma tile_mark_masked x y :
  0 < Tx -> x < sx w -> 0 <= y ->
  tile_mark w x y = MASK_TILE
  <-> forall py, y <= py < y + Ty -> py < sy w -> masked w x py = true.
Proof.
  intros HTx Hx Hy. unfold tile_mark.
  pose proof (unmasked_in_tile_spec (Z.to_nat Ty) x y HTx Hx Hy) as Hspec.
  pose proof (u16w_range (_tile_size_y w)) as HTy. fold Ty in HTy.
  destruct (unmasked_in_tile w (Z.to_nat Ty) x y).
  - split; [done |]. intros Hall.
    destruct (proj1 Hspec eq_refl) as (k & Hk & Hin & Hm).
    rewrite Hall in Hm; [done | lia | done].
  - split; [| done]. intros _ py Hpy Hin.
    destruct (masked w x py) eqn:Hm; [done |].
    assert (false = true); [| done].
    apply Hspec. exists (py - y).
    replace (y + (py - y)) with py by lia. split; [lia | done].
Qed.

(** X1. When the loop counters cannot wrap and enough loop turns are
    granted, [maskTiles] comes back and every tile holds [MASK_TILE] or
    [TODO_TILE]; a tile holds [MASK_TILE] exactly when the elements of its
    first column that lie inside the plane are all masked.  The inner loop
    never advances [px], so the other columns of the tile are not looked
    at. *)
Theorem maskTiles_marks_by_first_column fuel :
  0 < Tx -> 0 < Ty -> sx w + Tx <= 65536 -> sy w + Ty <= 65536 ->
  (Z.to_nat nx < fuel)%nat -> (Z.to_nat ny < fuel)%nat ->
  nx * ny <= Z.of_nat (length (_tiles w)) ->
  exists w',
    maskTiles heap w fuel = Some w'
    /\ forall tx ty, 0 <= tx < nx -> 0 <= ty < ny ->
         let tile := peek (_tiles w') (Z.to_nat (tx + ty * nx)) in
         (tile = MASK_TILE \/ tile = TODO_TILE)
         /\ (tile = MASK_TILE
             <-> forall py, ty * Ty <= py < ty * Ty + Ty -> py < sy w ->
                            masked w (tx * Tx) py = true).
Proof.
  intros HTx HTy Hwx Hwy Hfx Hfy Hlen.
  pose proof (u16w_range (Z.of_nat (size_x (_params w)))) as Hsx.
  pose proof (u16w_range (Z.of_nat (size_y (_params w)))) as Hsy.
  fold (sx w) in Hsx. fold (sy w) in Hsy.
  destruct (strides_count (sx w) Tx HTx (proj1 Hsx)) as (Hnx & Hinx & Houtx).
  destruct (strides_count (sy w) Ty HTy (proj1 Hsy)) as (Hny & Hiny & Houty).
  unfold maskTiles.
  rewrite (tile_loops
             (fun y x m => mkWalk (store (wk_tiles m) (wk_p m)
                                         (tile_mark w x y)) (wk_p m + 1))
             Tx Ty (mask_tile w) fuel (sx w) (sy w) _
             (fun _ _ _ => eq_refl) HTx HTy (proj1 Hsx) (proj1 Hsy)
             Hwx Hwy Hfx Hfy).
  eexists. split; [reflexivity |].
  intros tx ty Htx Hty. cbn zeta.
  cbn [_tiles set_tiles].
  rewrite peek_tiles_of by nia.
  rewrite Z2Nat.id by nia.
  match goal with |- context [wk_tiles ?g _] =>
    destruct (grid_walk_spec (fun y x _ => tile_mark w x y)
               (fun y x m => mkWalk (store (wk_tiles m) (wk_p m)
                                           (tile_mark w x y)) (wk_p m + 1))
               (fun _ _ _ => eq_refl) (fun _ _ _ _ => eq_refl)
               Tx Ty (Z.to_nat ny) (Z.to_nat nx)
               (mkWalk (load heap (_tiles w)) 0)) as (_ & Hin & _)
  end.
  specialize (Hin ty tx ltac:(lia) ltac:(lia)).
  rewrite !Z2Nat.id in Hin by lia. cbn [wk_p] in Hin.
  replace (tx + ty * nx) with (0 + ty * nx + tx) by lia.
  rewrite Hin.
  split; [apply tile_mark_cases |].
  apply tile_mark_masked; [done | | nia].
  apply Hinx. lia.
Qed.
End Marks.

(** X1 on a sample: in the 4x2 plane whose even columns are masked both
    tiles come out as [MASK_TILE], although the elements of the odd columns
    are not masked. *)
Lemma maskTiles_marks_by_first_column_witness :
  masked MoreSamples.even_columns_masked 1 0 = false
  /\ exists w',
       maskTiles MoreSamples.zeroed MoreSamples.even_columns_masked 3
       = Some w'
       /\ forall tx ty, 0 <= tx < 2 -> 0 <= ty < 1 ->
            let tile := peek (_tiles w') (Z.to_nat (tx + ty * 2)) in
            (tile = MASK_TILE \/ tile = TODO_TILE)
            /\ (tile = MASK_TILE
                <-> forall py, ty * 2 <= py < ty * 2 + 2 -> py < 2 ->
                      masked MoreSamples.even_columns_masked (tx * 2) py
                      = true).
Proof.
  split; [reflexivity |].
  exact (maskTiles_marks_by_first_column MoreSamples.zeroed
           MoreSamples.even_columns_masked 3
           ltac:(reflexivity) ltac:(reflexivity)
           ltac:(vm_compute; discriminate) ltac:(vm_compute; discriminate)
           ltac:(vm_compute; lia) ltac:(vm_compute; lia)
           ltac:(vm_compute; discriminate)).
Defined.

End MaskTilesFacts.

(** * Facts about [designPaletteFilters] and [designFilters] *)

Module FilterChoiceFacts.
Import Mono MonoDesign.

Section Palette.
Variable MAX_PALETTE : Z.
Variable heap : Z -> Z.
Variable hist : list Z.
Variable sympal_thresh : Z.
Variable w : MonoWriter.

Local Abbreviation add_sympals :=
  (MonoDesign.add_sympals MAX_PALETTE heap hist sympal_thresh).
Local Abbreviation room := (Z.to_nat (Z.max 1 MAX_PALETTE)).
Local Abbreviation over_threshold :=
  (fun sym => sympal_thresh < load heap hist sym).

Lemma add_sympals_take syms sympal :
  (length sympal < room)%nat ->
  add_sympals syms sympal
  = sympal ++ (u8w <$> take (room - length sympal)
                            (filter over_threshold syms)).
Proof.
  revert sympal. induction syms as [| sym rest IH]; intros sympal Hroom.
  - cbn. rewrite take_nil. cbn. by rewrite app_nil_r.
  - cbn [MonoDesign.add_sympals].
    destruct (Z.ltb_spec sympal_thresh (load heap hist sym)) as [Hq | Hq].
    + rewrite filter_cons_True by done.
      rewrite length_app. cbn [length].
      destruct (Z.leb_spec MAX_PALETTE (Z.of_nat (length sympal + 1)))
        as [Hfull | Hmore].
      * replace (room - length sympal)%nat with 1%nat by lia.
        cbn. by rewrite take_0.
      * rewrite IH by (rewrite length_app; cbn; lia).
        rewrite length_app. cbn [length].
        replace (room - length sympal)%nat
          with (S (room - (length sympal + 1)))%nat by lia.
        cbn. by rewrite <- app_assoc.
    + rewrite filter_cons_False by lia. by apply IH.
Qed.

(** X2. The palette [designPaletteFilters] builds from the histogram is
    the symbols below [num_syms] whose count exceeds the threshold, in
    increasing order, cut after the first [MAX_PALETTE] of them; since the
    room is tested only after a symbol was added, one symbol is added even
    when [MAX_PALETTE] is below one. *)
Theorem palette_filters_first_over_threshold :
  palette_filters MAX_PALETTE heap hist sympal_thresh w
  = u8w <$> take room (filter over_threshold
                              (seqZ 0 (num_syms (_params w)))).
Proof.
  unfold palette_filters.
  rewrite add_sympals_take by (cbn; lia).
  cbn [length app]. by rewrite Nat.sub_0_r.
Qed.
End Palette.

Section Choice.
Variable MF_FIXED : Z.
Variable MF_COUNT : Z.
Variable MAX_FILTERS : Z.
Variable AWARDS0 : Z.
Variable max_filters : Z.
Variable filter_thresh : Z.

Local Abbreviation choose :=
  (MonoDesign.choose MF_FIXED MF_COUNT MAX_FILTERS AWARDS0 filter_thresh).
Local Abbreviation choose_filters :=
  (MonoDesign.choose_filters MF_FIXED MF_COUNT MAX_FILTERS AWARDS0
                             max_filters filter_thresh).

Lemma choose_invariant (I : Choice -> Prop) :
  (forall c coverage, I c ->
     I (mkChoice coverage (ch_sympal_f c) (ch_normal_f c) (ch_filters_set c)
                 (ch_filter_indices c) (ch_sympal_filter_map c))) ->
  (forall c coverage index, I c -> MF_COUNT <= index ->
     I (mkChoice coverage (ch_sympal_f c + 1) (ch_normal_f c)
                 (ch_filters_set c + 1) (ch_filter_indices c)
                 (pokeZ (ch_sympal_filter_map c) (index - MF_COUNT)
                        (u8w (ch_sympal_f c))))) ->
  (forall c coverage index, I c -> MF_FIXED <= index < MF_COUNT ->
     I (mkChoice coverage (ch_sympal_f c) (ch_normal_f c + 1)
                 (ch_filters_set c + 1)
                 (pokeZ (ch_filter_indices c) (ch_normal_f c) index)
                 (ch_sympal_filter_map c))) ->
  forall top c, I c -> I (choose top c).
Proof.
  intros Hcov Hsym Hnorm top.
  induction top as [| [index score] rest IH]; intros c Hc; [done |].
  cbn [MonoDesign.choose].
  destruct (filter_thresh <=? _); [by apply Hcov |].
  destruct (Z.leb_spec MF_FIXED index); [| by apply IH, Hcov].
  destruct (Z.leb_spec MF_COUNT index).
  - destruct (MAX_FILTERS <=? _); [| apply IH]; by apply Hsym.
  - destruct (MAX_FILTERS <=? _); [| apply IH]; by apply Hnorm.
Qed.

(** The loop is entered with room for one more filter, or before any
    filter was added. *)
Lemma choose_bound top c :
  ch_filters_set c = MF_FIXED \/ ch_filters_set c < MAX_FILTERS ->
  ch_filters_set (choose top c) <= Z.max (MF_FIXED + 1) MAX_FILTERS.
Proof.
  revert c. induction top as [| [index score] rest IH]; intros c Hc.
  - cbn [MonoDesign.choose]. lia.
  - cbn [MonoDesign.choose].
    destruct (filter_thresh <=? _); [cbn [ch_filters_set]; lia |].
    destruct (Z.leb_spec MF_FIXED index); [| by apply IH].
    destruct (Z.leb_spec MF_COUNT index).
    + cbn [ch_filters_set].
      destruct (Z.leb_spec MAX_FILTERS (ch_filters_set c + 1));
        [cbn [ch_filters_set]; lia | apply IH; cbn [ch_filters_set]; lia].
    + cbn [ch_filters_set].
      destruct (Z.leb_spec MAX_FILTERS (ch_filters_set c + 1));
        [cbn [ch_filters_set]; lia | apply IH; cbn [ch_filters_set]; lia].
Qed.

Lemma choose_counts top c :
  ch_filters_set c = ch_normal_f c + ch_sympal_f c ->
  MF_FIXED <= ch_normal_f c -> 0 <= ch_sympal_f c ->
  ch_filters_set (choose top c)
  = ch_normal_f (choose top c) + ch_sympal_f (choose top c)
  /\ MF_FIXED <= ch_normal_f (choose top c)
  /\ 0 <= ch_sympal_f (choose top c).
Proof.
  intros Hsum Hn Hs.
  apply (choose_invariant
           (fun c => ch_filters_set c = ch_normal_f c + ch_sympal_f c
                     /\ MF_FIXED <= ch_normal_f c /\ 0 <= ch_sympal_f c));
    cbn; intros; lia.
Qed.

(** X3. The counts [designFilters] records satisfy its closing assertion:
    the filter count is the normal count plus the palette count.  The
    normal count is at least [MF_FIXED], and the filter count is at most
    [MAX_FILTERS], or [MF_FIXED + 1] when [MF_FIXED] is not below
    [MAX_FILTERS] (the room is tested only after a filter was added). *)
Theorem choose_filters_counts_add_up top indices map0 :
  let c := choose_filters top indices map0 in
  ch_filters_set c = ch_normal_f c + ch_sympal_f c
  /\ MF_FIXED <= ch_normal_f c
  /\ 0 <= ch_sympal_f c
  /\ ch_filters_set c <= Z.max (MF_FIXED + 1) MAX_FILTERS.
Proof.
  cbn zeta. unfold MonoDesign.choose_filters.
  match goal with |- context [choose ?top ?c0] =>
    destruct (choose_counts top c0) as (Hsum & Hn & Hs);
      [cbn; lia | cbn; lia | cbn; lia |]
  end.
  repeat split; try done.
  apply choose_bound. by left.
Qed.

Lemma peek_pokeZ_eq l i v :
  0 <= i < Z.of_nat (length l) -> peek (pokeZ l i v) (Z.to_nat i) = v.
Proof.
  intros Hi. unfold pokeZ, peek, poke.
  destruct (Z.leb_spec 0 i); [| lia].
  rewrite list_lookup_insert_eq by lia. done.
Qed.

Lemma peek_pokeZ_ne l i j v :
  0 <= j -> i <> j -> peek (pokeZ l i v) (Z.to_nat j) = peek l (Z.to_nat j).
Proof.
  intros Hj Hne. unfold pokeZ, peek, poke.
  destruct (Z.leb_spec 0 i); [| done].
  rewrite list_lookup_insert_ne by lia. done.
Qed.

Lemma length_pokeZ l i v : length (pokeZ l i v) = length l.
Proof.
  unfold pokeZ, poke. destruct (0 <=? i); [apply length_insert | done].
Qed.

Lemma copy_fixed_spec indices :
  length (copy_fixed MF_FIXED indices) = length indices
  /\ forall f, 0 <= f < MF_FIXED -> f < Z.of_nat (length indices) ->
       peek (copy_fixed MF_FIXED indices) (Z.to_nat f) = f.
Proof.
  unfold copy_fixed.
  destruct (Z.le_gt_cases MF_FIXED 0) as [Hle | Hpos].
  { rewrite seqZ_nil by lia. cbn. split; [done | intros; lia]. }
  rewrite <- (Z2Nat.id MF_FIXED) by lia.
  generalize (Z.to_nat MF_FIXED); intros n.
  induction n as [| n [IHlen IHval]].
  - cbn. split; [done | intros; lia].
  - rewrite Nat2Z.inj_succ, <- Z.add_1_r, seqZ_app by lia.
    rewrite (seqZ_cons _ 1), (seqZ_nil _ (Z.pred 1)) by lia.
    rewrite fold_left_app. cbn [fold_left].
    rewrite length_pokeZ. split; [done |].
    intros f Hf Hin. rewrite Z.add_0_l.
    destruct (Z.eq_dec f (Z.of_nat n)) as [-> | Hne].
    + rewrite peek_pokeZ_eq; [done | lia].
    + rewrite peek_pokeZ_ne by lia. apply IHval; lia.
Qed.

Local Abbreviation table_ok indices c :=
  (length (ch_filter_indices c) = length indices
   /\ MF_FIXED <= ch_normal_f c
   /\ forall f, 0 <= f < ch_normal_f c -> f < Z.of_nat (length indices) ->
        let index := peek (ch_filter_indices c) (Z.to_nat f) in
        if f <? MF_FIXED then index = f else MF_FIXED <= index < MF_COUNT).

Lemma choose_filters_table top indices map0 :
  table_ok indices (choose_filters top indices map0).
Proof.
  unfold MonoDesign.choose_filters.
  destruct (copy_fixed_spec indices) as [Hlen Hfixed].
  apply (choose_invariant (fun c => table_ok indices c)).
  - intros c coverage Hc. exact Hc.
  - intros c coverage index Hc _. exact Hc.
  - intros c coverage index (Hl & Hn & Hc) Hindex. cbn.
    rewrite length_pokeZ. split; [done |]. split; [lia |].
    intros f Hf Hin.
    destruct (Z.eq_dec f (ch_normal_f c)) as [-> | Hne].
    + rewrite peek_pokeZ_eq by lia.
      destruct (Z.ltb_spec (ch_normal_f c) MF_FIXED); [lia | done].
    + rewrite peek_pokeZ_ne by lia. apply Hc; lia.
  - cbn. split; [done |]. split; [lia |].
    intros f Hf Hin.
    destruct (Z.ltb_spec f MF_FIXED); [| lia]. apply Hfixed; lia.
Qed.

(** X4. In the filter table [designFilters] leaves, the first [MF_FIXED]
    slots hold their own index, and every further slot up to the normal
    count holds a catalogue index that is not fixed and is below
    [MF_COUNT]. *)
Theorem choose_filters_table_entries top indices map0 :
  let c := choose_filters top indices map0 in
  length (ch_filter_indices c) = length indices
  /\ forall f, 0 <= f < ch_normal_f c -> f < Z.of_nat (length indices) ->
       let index := peek (ch_filter_indices c) (Z.to_nat f) in
       if f <? MF_FIXED then index = f else MF_FIXED <= index < MF_COUNT.
Proof.
  cbn zeta.
  destruct (choose_filters_table top indices map0) as (Hl & _ & H).
  split; [done |]. exact H.
Qed.

(** X5. With [MAX_FILTERS <= 32], which [writeTables] asserts, and
    [MF_COUNT <= 128], which its assertion [MF_COUNT + MAX_PALETTE <= 128]
    gives, with at least one fixed filter, fewer fixed filters than
    [MAX_FILTERS] and a filter table of [MAX_FILTERS] slots, every field
    [writeTables] emits for the normal filters after [designFilters] fits
    its width: the count minus one in 5 bits, each index in 7 bits. *)
Theorem designFilters_fields_fit w top map0 :
  1 <= MF_FIXED -> MF_FIXED < MAX_FILTERS -> MAX_FILTERS <= 32 ->
  MF_COUNT <= 128 ->
  MAX_FILTERS <= Z.of_nat (length (_filter_indices w)) ->
  Forall (fun fld => 0 <= f_value fld < 2 ^ f_bits fld)
         (normal_filter_fields
            (designFilters MF_FIXED MF_COUNT MAX_FILTERS AWARDS0 max_filters
                           filter_thresh w top map0)).
Proof.
  intros Hfixed Hmax H32 H128 Hlen.
  unfold normal_filter_fields, designFilters.
  cbn [_normal_filter_count _filter_indices].
  destruct (choose_filters_table top (_filter_indices w) map0)
    as (Hl & _ & Htable).
  assert (Hcounts :
            let c := choose_filters top (_filter_indices w) map0 in
            ch_filters_set c = ch_normal_f c + ch_sympal_f c
            /\ MF_FIXED <= ch_normal_f c /\ 0 <= ch_sympal_f c
            /\ ch_filters_set c <= Z.max (MF_FIXED + 1) MAX_FILTERS).
  { cbn zeta. unfold MonoDesign.choose_filters.
    match goal with |- context [choose ?top ?c0] =>
      destruct (choose_counts top c0) as (Hsum & Hn & Hs);
        [cbn; lia | cbn; lia | cbn; lia |]
    end.
    repeat split; try done. apply choose_bound. by left. }
  cbn zeta in Hcounts. destruct Hcounts as (Hsum & Hn & Hs & Hbound).
  cbn zeta in Htable.
  set (c := choose_filters top (_filter_indices w) map0) in *.
  apply Forall_cons. split.
  - cbn. unfold u32w. rewrite Z.mod_small; lia.
  - apply Forall_forall. intros fld Hfld.
    change (map ?g ?l) with (g <$> l) in Hfld.
    apply list_elem_of_fmap in Hfld as (f & -> & Hf).
    apply elem_of_seq in Hf. cbn [f_value f_bits].
    specialize (Htable (Z.of_nat f) ltac:(lia) ltac:(lia)).
    rewrite Nat2Z.id in Htable.
    change (2 ^ 7) with 128.
    destruct (Z.of_nat f <? MF_FIXED); lia.
Qed.
End Choice.

(** X5 on a sample: two fixed filters, a catalogue of eight, room for four
    filters; one catalogue filter and one palette filter are chosen, and
    the fields are the count 3 - 1 and the indices 0, 1, 5. *)
Lemma designFilters_fields_fit_witness :
  normal_filter_fields
    (designFilters 2 8 4 1 3 100 MoreSamples.palette_marks
                   MoreSamples.top_awards MoreSamples.palette_map)
  = [mkField 2 5; mkField 0 7; mkField 1 7; mkField 5 7]
  /\ Forall (fun fld => 0 <= f_value fld < 2 ^ f_bits fld)
            (normal_filter_fields
               (designFilters 2 8 4 1 3 100 MoreSamples.palette_marks
                              MoreSamples.top_awards
                              MoreSamples.palette_map)).
Proof.
  split; [reflexivity |].
  exact (designFilters_fields_fit 2 8 4 1 3 100 MoreSamples.palette_marks
           MoreSamples.top_awards MoreSamples.palette_map
           ltac:(lia) ltac:(lia) ltac:(lia) ltac:(lia)
           ltac:(vm_compute; discriminate)).
Defined.

End FilterChoiceFacts.

(** * Facts about [designPaletteTiles] *)

Module PaletteTilesFacts.
Import Mono MonoDesign TileWalkFacts.

Section Remap.
Variable MF_COUNT : Z.
Variable UNUSED_SYMPAL : Z.
Variable _sympal_filter_map : list Z.
Variable heap : Z -> Z.
Variable w : MonoWriter.

Local Abbreviation Tx := (tile_size_x w).
Local Abbreviation Ty := (tile_size_y w).
Local Abbreviation nx := ((sx w + tile_size_x w - 1) / tile_size_x w).
Local Abbreviation ny := ((sy w + tile_size_y w - 1) / tile_size_y w).
Local Abbreviation palette_tile :=
  (MonoDesign.palette_tile MF_COUNT UNUSED_SYMPAL _sympal_filter_map heap w).
Local Abbreviation remap_tile :=
  (MonoDesign.remap_tile MF_COUNT UNUSED_SYMPAL _sympal_filter_map heap w).
Local Abbreviation remapped y x m :=
  (match remap_tile y x m with Next m' => m' | _ => m end).

Lemma remap_tile_next y x m : remap_tile y x m = Next (remapped y x m).
Proof. done. Qed.

Lemma remapped_p y x m : wk_p (remapped y x m) = wk_p m + 1.
Proof. done. Qed.

Lemma remapped_tiles y x m a :
  wk_tiles (remapped y x m) a
  = if a =? wk_p m then palette_tile (wk_tiles m a) else wk_tiles m a.
Proof.
  cbn. unfold MonoDesign.palette_tile, store.
  destruct (Z.eqb_spec a (wk_p m)) as [-> | Hne].
  - destruct (wk_tiles m (wk_p m) =? MASK_TILE); [done |].
    destruct (MF_COUNT <=? wk_tiles m (wk_p m)); [| done].
    destruct (_ =? UNUSED_SYMPAL); cbn; by rewrite Z.eqb_refl.
  - destruct (wk_tiles m (wk_p m) =? MASK_TILE); [done |].
    destruct (MF_COUNT <=? wk_tiles m (wk_p m)); [| done].
    destruct (_ =? UNUSED_SYMPAL); cbn;
      by destruct (Z.eqb_spec a (wk_p m)).
Qed.

Lemma load_in_range (l : list Z) (i : Z) :
  0 <= i < Z.of_nat (length l) -> load heap l i = peek l (Z.to_nat i).
Proof.
  intros Hi. unfold load.
  destruct (Z.leb_spec 0 i), (Z.ltb_spec i (Z.of_nat (length l)));
    try lia; done.
Qed.

(** X6. When the loop counters cannot wrap and enough loop turns are
    granted, [designPaletteTiles] comes back, and of the tiles it walks over
    a masked tile stays masked, a tile on a catalogue filter (below
    [MF_COUNT]) keeps its byte, and a tile marked for a palette symbol
    becomes [_normal_filter_count] plus the symbol's slot in
    [_sympal_filter_map], or [TODO_TILE] when the symbol was not chosen.
    The tiles past the walk keep their bytes. *)
Theorem designPaletteTiles_remaps_palette_marks fuel :
  0 <= _sympal_filter_count w ->
  0 < Tx -> 0 < Ty -> sx w + Tx <= 65536 -> sy w + Ty <= 65536 ->
  (Z.to_nat nx < fuel)%nat -> (Z.to_nat ny < fuel)%nat ->
  nx * ny <= Z.of_nat (length (_tiles w)) ->
  exists w',
    designPaletteTiles MF_COUNT UNUSED_SYMPAL _sympal_filter_map heap w fuel
    = Some w'
    /\ forall i, (i < length (_tiles w))%nat ->
         let old := peek (_tiles w) i in
         let new := peek (_tiles w') i in
         if Z.of_nat i <? nx * ny then
           (old = MASK_TILE -> new = MASK_TILE)
           /\ (old < MF_COUNT -> new = old)
           /\ (old <> MASK_TILE -> MF_COUNT <= old ->
               let slot := u8w (load heap _sympal_filter_map
                                     (old - MF_COUNT)) in
               if slot =? UNUSED_SYMPAL then new = TODO_TILE
               else new = u8w (_normal_filter_count w + slot))
         else new = old.
Proof.
  intros Hcount HTx HTy Hwx Hwy Hfx Hfy Hlen.
  pose proof (MaskTilesFacts.u16w_range (Z.of_nat (size_x (_params w))))
    as Hsx.
  pose proof (MaskTilesFacts.u16w_range (Z.of_nat (size_y (_params w))))
    as Hsy.
  fold (sx w) in Hsx. fold (sy w) in Hsy.
  destruct (strides_count (sx w) Tx HTx (proj1 Hsx)) as (Hnx & Hinx & Houtx).
  destruct (strides_count (sy w) Ty HTy (proj1 Hsy)) as (Hny & Hiny & Houty).
  unfold designPaletteTiles.
  destruct (Z.ltb_spec (_sympal_filter_count w) 0); [lia |].
  rewrite (tile_loops (fun y x m => remapped y x m)
             Tx Ty remap_tile fuel (sx w) (sy w) _
             remap_tile_next HTx HTy (proj1 Hsx) (proj1 Hsy)
             Hwx Hwy Hfx Hfy).
  eexists. split; [reflexivity |].
  intros i Hi. cbn zeta. cbn [_tiles set_tiles].
  rewrite peek_tiles_of by done.
  destruct (grid_walk_spec (fun _ _ old => palette_tile old)
              (fun y x m => remapped y x m)
              remapped_p remapped_tiles
              Tx Ty (Z.to_nat ny) (Z.to_nat nx)
              (mkWalk (load heap (_tiles w)) 0)) as (_ & Hin & Hout).
  rewrite !Z2Nat.id in Hin, Hout by lia. cbn [wk_p wk_tiles] in Hin, Hout.
  destruct (Z.ltb_spec (Z.of_nat i) (nx * ny)) as [Hcell | Hrest].
  - assert (Hnx0 : 0 < nx) by nia.
    pose proof (Z.div_mod (Z.of_nat i) nx ltac:(lia)) as Hdm.
    pose proof (Z.mod_pos_bound (Z.of_nat i) nx Hnx0) as Hmod.
    assert (Hq : 0 <= Z.of_nat i / nx < ny).
    { split; [apply Z.div_pos; lia |].
      apply Z.div_lt_upper_bound; lia. }
    specialize (Hin (Z.of_nat i / nx) (Z.of_nat i mod nx) Hq Hmod).
    replace (0 + Z.of_nat i / nx * nx + Z.of_nat i mod nx)
      with (Z.of_nat i) in Hin by lia.
    rewrite Hin, load_in_range, Nat2Z.id by lia.
    unfold MonoDesign.palette_tile.
    set (old := peek (_tiles w) i).
    destruct (Z.eqb_spec old MASK_TILE) as [Hm | Hm].
    + repeat split; try done. 
    + destruct (Z.leb_spec MF_COUNT old).
      * split; [done |]. split; [lia |]. intros _ _. cbn zeta.
        by destruct (_ =? UNUSED_SYMPAL).
      * repeat split; try done; try lia.
  - rewrite Hout by lia. rewrite load_in_range, Nat2Z.id by lia. done.
Qed.
End Remap.

(** X6 on a sample: of the four tiles 255, 16, 3, 17 the masked one and
    the one on filter 3 stay, the one marked for palette symbol 0 becomes
    slot 4 + 0, and the one marked for the unused symbol 1 becomes
    [TODO_TILE]. *)
Lemma designPaletteTiles_remaps_palette_marks_witness :
  option_map _tiles
    (designPaletteTiles 16 255 MoreSamples.palette_map MoreSamples.zeroed
                        MoreSamples.palette_marks 3)
  = Some [255; 4; 3; 0]
  /\ exists w',
       designPaletteTiles 16 255 MoreSamples.palette_map MoreSamples.zeroed
                          MoreSamples.palette_marks 3
       = Some w'
       /\ forall i, (i < 4)%nat ->
            let old := peek (_tiles MoreSamples.palette_marks) i in
            let new := peek (_tiles w') i in
            if Z.of_nat i <? 4 then
              (old = MASK_TILE -> new = MASK_TILE)
              /\ (old < 16 -> new = old)
              /\ (old <> MASK_TILE -> 16 <= old ->
                  let slot := u8w (load MoreSamples.zeroed
                                        MoreSamples.palette_map (old - 16)) in
                  if slot =? 255 then new = TODO_TILE
                  else new = u8w (4 + slot))
            else new = old.
Proof.
  split; [reflexivity |].
  exact (designPaletteTiles_remaps_palette_marks 16 255
           MoreSamples.palette_map MoreSamples.zeroed
           MoreSamples.palette_marks 3
           ltac:(vm_compute; discriminate)
           ltac:(reflexivity) ltac:(reflexivity)
           ltac:(vm_compute; discriminate) ltac:(vm_compute; discriminate)
           ltac:(vm_compute; lia) ltac:(vm_compute; lia)
           ltac:(vm_compute; discriminate)).
Defined.

End PaletteTilesFacts.

(** * More facts about [designTiles] *)

Module TileFrameFacts.
Import Mono.

Section Frame.
Variable EE : Type.
Variable ee_init : EE.
Variable ee_subtract : EE -> list Z -> EE.
Variable ee_entropy : EE -> list Z -> Z.
Variable MF_COUNT : Z.
Variable _filters : Z -> MonoFilter.
Variable heap : Z -> Z.
Variable mono_revisitCount : Z.
Variable w : MonoWriter.

Local Abbreviation visit :=
  (visit_tile EE ee_subtract ee_entropy MF_COUNT _filters heap w).
Local Abbreviation row :=
  (visit_row EE ee_subtract ee_entropy MF_COUNT _filters heap w).
Local Abbreviation pass :=
  (one_pass EE ee_subtract ee_entropy MF_COUNT _filters heap w).
Local Abbreviation best_index :=
  (bestFilterIndex EE ee_entropy _filters heap w).

(** What a pass may have done to the tile at [a]: nothing, or the tile was
    live and now holds one of the writer's filter slots. *)
Local Abbreviation touched t0 t :=
  (forall a,
     tl_tiles t a = tl_tiles t0 a
     \/ (tl_tiles t0 a < _normal_filter_count w
         /\ exists f, 0 <= f < Z.max 1 (_filter_count w)
                      /\ tl_tiles t a = u8w f)).

Lemma bestFilterIndex_range t x y :
  0 <= best_index t x y < Z.max 1 (_filter_count w).
Proof.
  unfold bestFilterIndex.
  destruct (neighbors EE w t) as [[[a b] c] d].
  match goal with |- context [fold_left ?step ?l ?b0] =>
    assert (H : forall l0 best,
              Forall (fun f => 0 <= f < Z.max 1 (_filter_count w)) l0 ->
              0 <= snd best < Z.max 1 (_filter_count w) ->
              0 <= snd (fold_left step l0 best)
              < Z.max 1 (_filter_count w))
  end.
  { induction l0 as [| f l0 IH]; intros best Hl Hb; [done |].
    cbn [fold_left]. apply Forall_cons in Hl as [Hf Hl].
    apply IH; [done |]. by destruct (_ <? fst best). }
  apply H; [| cbn; lia].
  apply Forall_forall. intros f Hf. apply elem_of_seqZ in Hf. lia.
Qed.

Lemma visit_tile_touched (t0 : Tiling EE) passes y x (t : Tiling EE) :
  touched t0 t ->
  match visit passes y x t with
  | Next t' => touched t0 t'
  | Return t' => touched t0 t'
  | OutOfFuel => True
  end.
Proof.
  intros Ht. unfold visit_tile, revisit, live.
  destruct (Z.ltb_spec (tl_tiles t (tl_p t)) (_normal_filter_count w))
    as [Hlive | Hdead]; [| exact Ht].
  assert (Hwrite : forall ee rc,
            touched t0
              (next_tile EE w
                 (mkTiling
                    (store (tl_tiles t) (tl_p t)
                       (u8w (best_index
                               (mkTiling (tl_tiles t) (tl_p t) (tl_topleft t)
                                         (tl_tx t) (tl_ty t) ee rc) x y)))
                    (tl_p t) (tl_topleft t) (tl_tx t) (tl_ty t) ee rc))).
  { intros ee rc a. cbn [next_tile tl_tiles]. unfold store.
    destruct (Z.eqb_spec a (tl_p t)) as [-> | Hne]; [| apply Ht].
    right. split.
    - destruct (Ht (tl_p t)) as [<- | [H0 _]]; done.
    - eexists. split; [apply bestFilterIndex_range | reflexivity]. }
  destruct (0 <? passes).
  - destruct (tl_revisitCount t - 1 <? 0); [exact Ht |]. apply Hwrite.
  - destruct t. apply Hwrite.
Qed.

(** X7. Whatever a pass of [designTiles] does before it falls through or
    returns, a tile byte either is as the pass found it, or belonged to a
    live tile (below [_normal_filter_count]) and now holds, cut to a byte,
    a filter slot below [_filter_count] (slot 0 when there is no filter).
    So masked tiles and palette tiles are never rewritten. *)
Theorem one_pass_touches_live_tiles_only fuel passes t :
  match pass fuel passes t with
  | Next t' | Return t' =>
      forall a,
        tl_tiles t' a = tl_tiles t a
        \/ (tl_tiles t a < _normal_filter_count w
            /\ exists f, 0 <= f < Z.max 1 (_filter_count w)
                         /\ tl_tiles t' a = u8w f)
  | OutOfFuel => True
  end.
Proof.
  unfold one_pass.
  apply (DesignTilesFacts.for_u16_invariant
           (fun t' : Tiling EE => touched t t')
           (fun t' : Tiling EE => touched t t')); [| intros a; by left].
  intros y t1 Ht1. unfold visit_row.
  pose proof (DesignTilesFacts.for_u16_invariant
                (fun t' : Tiling EE => touched t t')
                (fun t' : Tiling EE => touched t t')
                (visit passes y) (sx w) (tile_size_x w)
                (visit_tile_touched t passes y)
                fuel 0
                (mkTiling (tl_tiles t1) (tl_p t1) (tl_topleft t1) 0
                          (tl_ty t1) (tl_ee t1) (tl_revisitCount t1))
                Ht1) as H.
  cbv beta in H.
  destruct (for_u16 fuel 0 (sx w) (tile_size_x w) (visit passes y) _);
    cbn [tl_tiles]; exact H.
Qed.

Lemma for_u16_ends {S : Type} (body : Z -> S -> outcome S)
    (base step bound : Z) :
  0 < step -> 0 <= base ->
  (forall i s, body i s <> OutOfFuel) ->
  forall (n fuel j : nat) (s : S),
    (n < fuel)%nat ->
    bound <= base + (Z.of_nat j + Z.of_nat n) * step ->
    base + (Z.of_nat j + Z.of_nat n) * step < 65536 ->
    for_u16 fuel (base + Z.of_nat j * step) bound step body s <> OutOfFuel.
Proof.
  intros Hstep Hbase Hbody n.
  induction n as [| n IH]; intros fuel j s Hfuel Hout Hwrap;
    (destruct fuel as [| fuel]; [lia |]); cbn [for_u16].
  - destruct (Z.ltb_spec (base + Z.of_nat j * step) bound); [lia | done].
  - destruct (Z.ltb_spec (base + Z.of_nat j * step) bound); [| done].
    specialize (Hbody (base + Z.of_nat j * step) s).
    destruct (body (base + Z.of_nat j * step) s) as [s' | s' |];
      [| done | done].
    replace (u16w (base + Z.of_nat j * step + step))
      with (base + Z.of_nat (Datatypes.S j) * step)
      by (unfold u16w; rewrite Z.mod_small; nia).
    apply IH; [lia | |];
      replace (Z.of_nat (Datatypes.S j) + Z.of_nat n)
        with (Z.of_nat j + Z.of_nat (Datatypes.S n)) by lia; done.
Qed.

Lemma visit_tile_ends passes y x (t : Tiling EE) :
  visit passes y x t <> OutOfFuel.
Proof.
  unfold visit_tile, revisit.
  destruct (live EE w t); [| done].
  destruct (0 <? passes); [| done].
  by destruct (tl_revisitCount t - 1 <? 0).
Qed.

(** X8. A pass of [designTiles] ends, by falling through or by [return],
    within one loop turn per tile row and per tile column (and one more),
    provided the tile sizes are not zero and the plane is small enough for
    the 16-bit loop counters not to wrap before they reach the bounds. *)
Theorem one_pass_ends fuel passes (t : Tiling EE) :
  0 < tile_size_x w -> 0 < tile_size_y w ->
  sx w + tile_size_x w <= 65536 -> sy w + tile_size_y w <= 65536 ->
  (Z.to_nat ((sx w + tile_size_x w - 1) / tile_size_x w) < fuel)%nat ->
  (Z.to_nat ((sy w + tile_size_y w - 1) / tile_size_y w) < fuel)%nat ->
  exists t', pass fuel passes t = Next t' \/ pass fuel passes t = Return t'.
Proof.
  intros HTx HTy Hwx Hwy Hfx Hfy.
  assert (Hsx : 0 <= sx w) by (apply Z.mod_pos_bound; lia).
  assert (Hsy : 0 <= sy w) by (apply Z.mod_pos_bound; lia).
  destruct (TileWalkFacts.strides_count (sx w) (tile_size_x w) HTx Hsx)
    as (Hnx & _ & Houtx).
  destruct (TileWalkFacts.strides_count (sy w) (tile_size_y w) HTy Hsy)
    as (Hny & _ & Houty).
  assert (Hrow : forall y t0, row fuel passes y t0 <> OutOfFuel).
  { intros y t0. unfold visit_row.
    match goal with |- context [for_u16 fuel 0 ?b ?s ?body ?s0] =>
      pose proof (for_u16_ends body 0 s b HTx (Z.le_refl 0)
                    (visit_tile_ends passes y)
                    (Z.to_nat ((sx w + tile_size_x w - 1) / tile_size_x w))
                    fuel 0%nat s0 Hfx) as H;
      rewrite Z2Nat.id in H by lia;
      specialize (H ltac:(lia) ltac:(lia));
      change (0 + Z.of_nat 0 * s) with 0 in H;
      destruct (for_u16 fuel 0 b s body s0)
    end; done. }
  unfold one_pass.
  match goal with |- context [for_u16 fuel 0 ?b ?s ?body ?s0] =>
    pose proof (for_u16_ends body 0 s b HTy (Z.le_refl 0) Hrow
                  (Z.to_nat ((sy w + tile_size_y w - 1) / tile_size_y w))
                  fuel 0%nat s0 Hfy) as H;
    rewrite Z2Nat.id in H by lia;
    specialize (H ltac:(lia) ltac:(lia));
    change (0 + Z.of_nat 0 * s) with 0 in H;
    destruct (for_u16 fuel 0 b s body s0) as [t' | t' |]
  end; [eauto | eauto | done].
Qed.
End Frame.

(** X8 on the sample run of the one-tile plane: two loop turns are
    enough. *)
Lemma one_pass_ends_witness :
  exists t',
    one_pass unit (fun ee _ => ee)
             (fun _ codes => Samples.fixed_length_bits codes) 32
             (fun _ => Samples.zero_filter) (fun _ => 0) Samples.row_0_5_0
             2 0 Samples.tiling_sample = Next t'
    \/ one_pass unit (fun ee _ => ee)
                (fun _ codes => Samples.fixed_length_bits codes) 32
                (fun _ => Samples.zero_filter) (fun _ => 0) Samples.row_0_5_0
                2 0 Samples.tiling_sample = Return t'.
Proof.
  exact (one_pass_ends unit (fun ee _ => ee)
           (fun _ codes => Samples.fixed_length_bits codes) 32
           (fun _ => Samples.zero_filter) (fun _ => 0) Samples.row_0_5_0
           2 0 Samples.tiling_sample
           ltac:(reflexivity) ltac:(reflexivity)
           ltac:(vm_compute; discriminate) ltac:(vm_compute; discriminate)
           ltac:(vm_compute; lia) ltac:(vm_compute; lia)).
Defined.

End TileFrameFacts.

(** * Facts about the filter [designTiles] picks for a tile *)

Module BestFilterFacts.
Import Mono.

Lemma fold_first_minimum (score : Z -> Z) (init : Z) (n : nat) :
  let r := fold_left (fun (best : Z * Z) f =>
                        if score f <? fst best then (score f, f) else best)
                     (seqZ 0 (Z.of_nat n)) (init, 0) in
  (r = (init, 0) /\ forall f, 0 <= f < Z.of_nat n -> init <= score f)
  \/ (0 <= snd r < Z.of_nat n /\ fst r = score (snd r) /\ fst r < init
      /\ (forall f, 0 <= f < Z.of_nat n -> fst r <= score f)
      /\ (forall f, 0 <= f < snd r -> fst r < score f)).
Proof.
  cbn zeta. induction n as [| n IH].
  - left. split; [done |]. intros; lia.
  - rewrite TileWalkFacts.seqZ_snoc, fold_left_app. cbn [fold_left].
    destruct IH as [(-> & Hall) | (Hin & Hfst & Hlt & Hmin & Hfirst)].
    + cbn [fst]. destruct (Z.ltb_spec (score (Z.of_nat n)) init).
      * right. cbn [fst snd]. split; [lia |]. split; [done |].
        split; [done |]. split.
        -- intros f Hf. destruct (Z.eq_dec f (Z.of_nat n)) as [-> | Hne];
             [lia |]. specialize (Hall f ltac:(lia)). lia.
        -- intros f Hf. specialize (Hall f ltac:(lia)). lia.
      * left. split; [done |]. intros f Hf.
        destruct (Z.eq_dec f (Z.of_nat n)) as [-> | Hne]; [lia |].
        apply Hall. lia.
    + match goal with |- context [fold_left ?g ?l ?b] =>
        set (r := fold_left g l b) in *
      end.
      destruct (Z.ltb_spec (score (Z.of_nat n)) (fst r)).
      * right. cbn [fst snd]. split; [lia |]. split; [done |].
        split; [lia |]. split.
        -- intros f Hf. destruct (Z.eq_dec f (Z.of_nat n)) as [-> | Hne];
             [lia |]. specialize (Hmin f ltac:(lia)). lia.
        -- intros f Hf. specialize (Hmin f ltac:(lia)). lia.
      * right. split; [lia |]. split; [done |]. split; [done |]. split.
        -- intros f Hf. destruct (Z.eq_dec f (Z.of_nat n)) as [-> | Hne];
             [lia |]. apply Hmin. lia.
        -- done.
Qed.

Lemma best_of_scores (score : Z -> Z) (count : Z) :
  let best :=
    snd (fold_left (fun (best : Z * Z) f =>
                      if score f <? fst best then (score f, f) else best)
                   (seqZ 0 count) (INT_MAX, 0)) in
  (best = 0 /\ forall f, 0 <= f < count -> INT_MAX <= score f)
  \/ (0 <= best < count /\ score best < INT_MAX
      /\ (forall f, 0 <= f < count -> score best <= score f)
      /\ (forall f, 0 <= f < best -> score best < score f)).
Proof.
  cbn zeta.
  destruct (Z.le_gt_cases count 0) as [Hnone | Hsome].
  - rewrite seqZ_nil by lia. cbn. left. split; [done |]. intros; lia.
  - pose proof (fold_first_minimum score INT_MAX (Z.to_nat count)) as H.
    cbn zeta in H. rewrite Z2Nat.id in H by lia.
    destruct H as [(-> & Hall) | (Hin & Hfst & Hlt & Hmin & Hfirst)].
    + left. by split.
    + right. rewrite <- Hfst. repeat split; try done; lia.
Qed.

Section Best.
Variable EE : Type.
Variable ee_entropy : EE -> list Z -> Z.
Variable _filters : Z -> MonoFilter.
Variable heap : Z -> Z.
Variable w : MonoWriter.

(** X9. The slot [designTiles] gives a tile is the first of the slots
    0 .. [_filter_count] - 1 whose nudged entropy is least, provided some
    slot scores below 0x7fffffff; when none does (or there is no slot) the
    tile gets slot 0. *)
Theorem bestFilterIndex_first_minimum (t : Tiling EE) x y :
  let '(a, b, c, d) := neighbors EE w t in
  let score f :=
    nudge (ee_entropy (tl_ee t)
                      (codes_of _filters heap w f x y (tl_topleft t)))
          f a b c d in
  let best := bestFilterIndex EE ee_entropy _filters heap w t x y in
  (best = 0 /\ forall f, 0 <= f < _filter_count w -> INT_MAX <= score f)
  \/ (0 <= best < _filter_count w /\ score best < INT_MAX
      /\ (forall f, 0 <= f < _filter_count w -> score best <= score f)
      /\ (forall f, 0 <= f < best -> score best < score f)).
Proof.
  unfold bestFilterIndex.
  destruct (neighbors EE w t) as [[[a b] c] d].
  exact (best_of_scores
           (fun f =>
              nudge (ee_entropy (tl_ee t)
                       (codes_of _filters heap w f x y (tl_topleft t)))
                    f a b c d)
           (_filter_count w)).
Qed.
End Best.
End BestFilterFacts.

(** * Facts about [designRowFilters] *)

Module RowFilterFacts.
Import Mono MonoDesign TileWalkFacts.

Lemma best_row_filter_spec e0 e1 e2 e3 :
  let e k := if k =? 0 then e0 else if k =? 1 then e1
             else if k =? 2 then e2 else e3 in
  let best_e := fst (best_row_filter e0 e1 e2 e3) in
  let best_i := snd (best_row_filter e0 e1 e2 e3) in
  0 <= best_i <= 3 /\ best_e = e best_i
  /\ (forall k, 0 <= k <= 3 -> best_e <= e k)
  /\ (forall k, 0 <= k < best_i -> best_e < e k).
Proof.
  cbn zeta. unfold best_row_filter. cbn [fst].
  destruct (Z.ltb_spec e1 e0); cbn [fst];
    match goal with
    | |- context [e2 <? ?b] => destruct (Z.ltb_spec e2 b); cbn [fst]
    end;
    match goal with
    | |- context [e3 <? ?b] => destruct (Z.ltb_spec e3 b); cbn [fst snd]
    end;
    (split; [lia |]); (split; [done |]);
    split; intros k Hk;
    assert (Hcases : k = 0 \/ k = 1 \/ k = 2 \/ k = 3) by lia;
    destruct Hcases as [-> | [-> | [-> | ->]]]; cbn [Z.eqb Pos.eqb]; lia.
Qed.

Section Rows.
Variable EE : Type.
Variable ee_init : EE.
Variable ee_add : EE -> list Z -> EE.
Variable ee_subtract : EE -> list Z -> EE.
Variable ee_entropy : EE -> list Z -> Z.
Variable MAX_ROW_PASSES : Z.
Variable heap : Z -> Z.
Variable codes0 : Z -> Z.
Variable total_entropy0 : Z.
Variable w : MonoWriter.

Local Abbreviation code_tile := (MonoDesign.code_tile EE heap w).
Local Abbreviation row_entropy :=
  (MonoDesign.row_entropy EE ee_subtract ee_entropy w).
Local Abbreviation design_row :=
  (MonoDesign.design_row EE ee_add ee_subtract ee_entropy heap w).
Local Abbreviation design_pass :=
  (MonoDesign.design_pass EE ee_add ee_subtract ee_entropy heap w).
Local Abbreviation coded ty r :=
  (fold_left (code_tile ty) (seqZ 0 (_tiles_x w)) r).

Lemma coded_keeps ty r :
  rd_row_filters (coded ty r) = rd_row_filters r
  /\ rd_total_entropy (coded ty r) = rd_total_entropy r.
Proof.
  revert r. induction (seqZ 0 (_tiles_x w)) as [| tx l IH]; intros r;
    [done |].
  cbn [fold_left]. destruct (IH (code_tile ty r tx)) as [-> ->]. done.
Qed.

(** X10. For a tile row, [designRowFilters] stores the first of the four
    row filters (RF_NOOP, RF_A, RF_B, RF_C in this order) whose coded row
    has the least entropy, and adds that least entropy to the running
    total, which wraps at 32 bits. *)
Theorem design_row_picks_first_minimum passes r ty :
  0 <= ty -> (Z.to_nat ty < length (rd_row_filters r))%nat ->
  let e := row_entropy passes (coded ty r) ty in
  let r' := design_row passes r ty in
  let best := peek (rd_row_filters r') (Z.to_nat ty) in
  0 <= best <= 3
  /\ (forall k, 0 <= k <= 3 -> e best <= e k)
  /\ (forall k, 0 <= k < best -> e best < e k)
  /\ rd_total_entropy r' = u32w (rd_total_entropy r + e best).
Proof.
  intros Hty Hlen. cbn zeta. unfold MonoDesign.design_row.
  set (r1 := coded ty r).
  set (e := row_entropy passes r1 ty).
  destruct (coded_keeps ty r) as [Hrf Hte]. fold r1 in Hrf, Hte.
  pose proof (best_row_filter_spec (e 0) (e 1) (e 2) (e 3)) as Hbest.
  cbn zeta in Hbest.
  destruct (best_row_filter (e 0) (e 1) (e 2) (e 3)) as [best_e best_i].
  cbn [fst snd] in Hbest. destruct Hbest as (Hi & He & Hmin & Hfirst).
  cbn [rd_row_filters rd_total_entropy].
  unfold peek, poke. rewrite list_lookup_insert_eq by (rewrite Hrf; lia).
  change (default 0 (Some best_i)) with best_i.
  assert (Hsel : forall k, 0 <= k <= 3 ->
            (if k =? 0 then e 0 else if k =? 1 then e 1
             else if k =? 2 then e 2 else e 3) = e k).
  { intros k Hk.
    assert (Hcases : k = 0 \/ k = 1 \/ k = 2 \/ k = 3) by lia.
    by destruct Hcases as [-> | [-> | [-> | ->]]]. }
  rewrite Hsel in He by done. subst best_e.
  split; [done |]. split.
  { intros k Hk. rewrite <- (Hsel k) by done. by apply Hmin. }
  split.
  { intros k Hk. rewrite <- (Hsel k) by lia. by apply Hfirst. }
  by rewrite Hte.
Qed.

Lemma design_row_filters passes r ty :
  exists best, 0 <= best <= 3
    /\ rd_row_filters (design_row passes r ty)
       = poke (rd_row_filters r) (Z.to_nat ty) best.
Proof.
  unfold MonoDesign.design_row.
  set (r1 := coded ty r).
  set (e := row_entropy passes r1 ty).
  destruct (coded_keeps ty r) as [Hrf _]. fold r1 in Hrf.
  pose proof (best_row_filter_spec (e 0) (e 1) (e 2) (e 3)) as Hbest.
  cbn zeta in Hbest.
  destruct (best_row_filter (e 0) (e 1) (e 2) (e 3)) as [best_e best_i].
  cbn [fst snd] in Hbest. destruct Hbest as (Hi & _).
  exists best_i. cbn [rd_row_filters]. by rewrite Hrf.
Qed.

Lemma rows_two_bits passes (n : nat) r :
  let r' := fold_left (design_row passes) (seqZ 0 (Z.of_nat n)) r in
  length (rd_row_filters r') = length (rd_row_filters r)
  /\ forall i, (i < n)%nat -> (i < length (rd_row_filters r))%nat ->
       0 <= peek (rd_row_filters r') i <= 3.
Proof.
  cbn zeta. induction n as [| n [IHlen IHval]].
  - cbn. split; [done | intros; lia].
  - rewrite seqZ_snoc, fold_left_app. cbn [fold_left].
    destruct (design_row_filters passes
                (fold_left (design_row passes) (seqZ 0 (Z.of_nat n)) r)
                (Z.of_nat n)) as (best & Hbest & ->).
    unfold poke. rewrite length_insert. split; [done |].
    intros i Hi Hin. rewrite Nat2Z.id. unfold peek.
    destruct (Nat.eq_dec i n) as [-> | Hne].
    + rewrite list_lookup_insert_eq by lia. done.
    + rewrite list_lookup_insert_ne by lia. apply IHval; lia.
Qed.

Lemma design_pass_two_bits r passes :
  length (rd_row_filters r) = Z.to_nat (_tiles_y w) ->
  length (rd_row_filters (design_pass r passes)) = Z.to_nat (_tiles_y w)
  /\ forall i, (i < Z.to_nat (_tiles_y w))%nat ->
       0 <= peek (rd_row_filters (design_pass r passes)) i <= 3.
Proof.
  intros Hlen. unfold MonoDesign.design_pass.
  destruct (Z.le_gt_cases (_tiles_y w) 0) as [Hle | Hpos].
  - rewrite seqZ_nil by lia. cbn. split; [done |]. intros i Hi. lia.
  - remember (Z.to_nat (_tiles_y w)) as n eqn:Hn.
    replace (_tiles_y w) with (Z.of_nat n) by lia.
    match goal with |- context [fold_left _ _ ?r0] =>
      destruct (rows_two_bits passes n r0) as [Hl Hv]
    end.
    cbn [rd_row_filters] in Hl, Hv.
    split; [by rewrite Hl |].
    intros i Hi. apply Hv; lia.
Qed.

Lemma passes_keep_length (n : nat) r :
  length (rd_row_filters r) = Z.to_nat (_tiles_y w) ->
  length (rd_row_filters (fold_left design_pass (seqZ 0 (Z.of_nat n)) r))
  = Z.to_nat (_tiles_y w).
Proof.
  intros Hlen. induction n as [| n IH]; [done |].
  rewrite seqZ_snoc, fold_left_app. cbn [fold_left].
  by apply design_pass_two_bits.
Qed.

(** X11. After [designRowFilters] has made at least one pass, the row
    filter of every tile row is one of 0, 1, 2, 3, so the field
    [writeRowHeader] writes for a row of a writer without a child holds a
    value that fits its two bits. *)
Theorem designRowFilters_rows_fit_two_bits :
  1 <= MAX_ROW_PASSES ->
  length (_tile_row_filters w) = Z.to_nat (_tiles_y w) ->
  let w' := designRowFilters EE ee_init ee_add ee_subtract ee_entropy
              MAX_ROW_PASSES heap codes0 total_entropy0 w in
  (forall ty, 0 <= ty < _tiles_y w ->
     0 <= peek (_tile_row_filters w') (Z.to_nat ty) <= 3)
  /\ (forall y, _filter_encoder w = None ->
        u16w (Z.shiftr y (_tile_bits_y w)) < _tiles_y w ->
        exists v, writeRowHeader w' y = [mkField v 2] /\ 0 <= v < 2 ^ 2).
Proof.
  intros Hmax Hlen. cbn zeta.
  assert (Hrows : forall ty, 0 <= ty < _tiles_y w ->
            0 <= peek (rd_row_filters
                         (row_passes EE ee_init ee_add ee_subtract ee_entropy
                            MAX_ROW_PASSES heap codes0 total_entropy0 w))
                      (Z.to_nat ty) <= 3).
  { intros ty Hty. unfold row_passes.
    replace MAX_ROW_PASSES with (Z.of_nat (S (Z.to_nat (MAX_ROW_PASSES - 1))))
      by lia.
    rewrite seqZ_snoc, fold_left_app. cbn [fold_left].
    match goal with |- context [design_pass ?r0 ?p] =>
      destruct (design_pass_two_bits r0 p) as [Hl Hv]
    end.
    { by apply passes_keep_length. }
    apply Hv. lia. }
  split; [exact Hrows |].
  intros y Hchild Hy.
  destruct w as [? ? bits_y ? ? ? tiles_y ? ? row_filters ? ? ? ? ? ? ? ? ? ?
                 child].
  cbn in Hchild. subst child.
  unfold designRowFilters, set_row_filters. cbn [writeRowHeader].
  eexists. split; [reflexivity |].
  change (2 ^ 2) with 4.
  cbn [Mono._tile_bits_y Mono._tiles_y] in Hy.
  assert (0 <= u16w (Z.shiftr y bits_y)) by (apply Z.mod_pos_bound; lia).
  specialize (Hrows (u16w (Z.shiftr y bits_y)) ltac:(cbn; lia)).
  cbn in Hrows |- *. lia.
Qed.

Lemma coded_p ty r :
  0 <= _tiles_x w -> rd_p (coded ty r) = rd_p r + _tiles_x w.
Proof.
  intros Hx.
  assert (H : forall n : nat,
            rd_p (fold_left (code_tile ty) (seqZ 0 (Z.of_nat n)) r)
            = rd_p r + Z.of_nat n).
  { induction n as [| n IH]; [rewrite seqZ_nil by lia; cbn [fold_left]; lia |].
    rewrite seqZ_snoc, fold_left_app. cbn [fold_left].
    unfold MonoDesign.code_tile at 1. cbn [rd_p]. lia. }
  specialize (H (Z.to_nat (_tiles_x w))).
  by rewrite Z2Nat.id in H by lia.
Qed.

Lemma design_row_p passes r ty :
  0 <= _tiles_x w -> rd_p (design_row passes r ty) = rd_p r + _tiles_x w.
Proof.
  intros Hx. unfold MonoDesign.design_row.
  destruct (best_row_filter _ _ _ _). cbn [rd_p]. by apply coded_p.
Qed.

Lemma design_pass_p r passes :
  0 <= _tiles_x w -> 0 <= _tiles_y w ->
  rd_p (design_pass r passes) = rd_p r + _tiles_y w * _tiles_x w.
Proof.
  intros Hx Hy. unfold MonoDesign.design_pass.
  match goal with |- context [fold_left _ _ ?r0] =>
    assert (H : forall n : nat,
              rd_p (fold_left (design_row passes) (seqZ 0 (Z.of_nat n)) r0)
              = rd_p r + Z.of_nat n * _tiles_x w)
  end.
  { induction n as [| n IH]; [rewrite seqZ_nil by lia; cbn [fold_left rd_p]; lia |].
    rewrite seqZ_snoc, fold_left_app. cbn [fold_left].
    rewrite design_row_p, IH by done. lia. }
  specialize (H (Z.to_nat (_tiles_y w))).
  by rewrite Z2Nat.id in H by lia.
Qed.

(** X12. [designRowFilters] never sets [p] back to [_tiles]: after n
    passes it stands n * tiles_x * tiles_y bytes past the start, so every
    pass after the first reads its tile bytes from beyond the tiles of the
    pass before it. *)
Theorem row_passes_never_rewind (n : nat) r :
  0 <= _tiles_x w -> 0 <= _tiles_y w ->
  rd_p (fold_left design_pass (seqZ 0 (Z.of_nat n)) r)
  = rd_p r + Z.of_nat n * (_tiles_y w * _tiles_x w).
Proof.
  intros Hx Hy. induction n as [| n IH]; [rewrite seqZ_nil by lia; cbn [fold_left]; lia |].
  rewrite seqZ_snoc, fold_left_app. cbn [fold_left].
  rewrite design_pass_p, IH by done. lia.
Qed.
End Rows.

(** X10 on a sample: on the first row of the 2x2 tile map 1 2 / 1 2 over
    three filters the plain codes 1 2 cost two bits and the codes relative
    to the left tile, 1 1, cost none; RF_A is stored. *)
Lemma design_row_picks_first_minimum_witness :
  let e := row_entropy (list Z) MoreSamples.ee_subtract
             MoreSamples.ee_entropy MoreSamples.two_rows 0
             (fold_left (code_tile (list Z) MoreSamples.zeroed
                                   MoreSamples.two_rows 0)
                        (seqZ 0 2) MoreSamples.two_rows_start) 0 in
  let r' := design_row (list Z) MoreSamples.ee_add MoreSamples.ee_subtract
              MoreSamples.ee_entropy MoreSamples.zeroed MoreSamples.two_rows
              0 MoreSamples.two_rows_start 0 in
  let best := peek (rd_row_filters r') 0 in
  (e 0 = 2 /\ e 1 = 0 /\ best = 1)
  /\ 0 <= best <= 3
  /\ (forall k, 0 <= k <= 3 -> e best <= e k)
  /\ (forall k, 0 <= k < best -> e best < e k)
  /\ rd_total_entropy r' = u32w (0 + e best).
Proof.
  split; [by vm_compute |].
  exact (design_row_picks_first_minimum (list Z) MoreSamples.ee_add
           MoreSamples.ee_subtract MoreSamples.ee_entropy MoreSamples.zeroed
           MoreSamples.two_rows 0 MoreSamples.two_rows_start 0
           ltac:(lia) ltac:(vm_compute; lia)).
Defined.

(** X11 on the same sample with two passes: both rows end on a row filter
    below four. *)
Lemma designRowFilters_rows_fit_two_bits_witness :
  let w' := designRowFilters (list Z) [] MoreSamples.ee_add
              MoreSamples.ee_subtract MoreSamples.ee_entropy 2
              MoreSamples.zeroed MoreSamples.zeroed 0 MoreSamples.two_rows in
  _tile_row_filters w' = [0; 0]
  /\ (forall ty, 0 <= ty < 2 ->
        0 <= peek (_tile_row_filters w') (Z.to_nat ty) <= 3)
  /\ (forall y, u16w (Z.shiftr y 1) < 2 ->
        exists v, writeRowHeader w' y = [mkField v 2] /\ 0 <= v < 2 ^ 2).
Proof.
  split; [by vm_compute |].
  destruct (designRowFilters_rows_fit_two_bits (list Z) [] MoreSamples.ee_add
              MoreSamples.ee_subtract MoreSamples.ee_entropy 2
              MoreSamples.zeroed MoreSamples.zeroed 0 MoreSamples.two_rows
              ltac:(lia) ltac:(reflexivity)) as [Hrows Hheader].
  split; [exact Hrows |].
  intros y Hy. exact (Hheader y eq_refl Hy).
Defined.

(** X12 on the sample: after its two passes over the four tiles, [p] is
    eight bytes past [_tiles]. *)
Lemma row_passes_never_rewind_witness :
  rd_p (row_passes (list Z) [] MoreSamples.ee_add MoreSamples.ee_subtract
                   MoreSamples.ee_entropy 2 MoreSamples.zeroed
                   MoreSamples.zeroed 0 MoreSamples.two_rows)
  = 0 + 2 * (2 * 2).
Proof.
  exact (row_passes_never_rewind (list Z) MoreSamples.ee_add
           MoreSamples.ee_subtract MoreSamples.ee_entropy MoreSamples.zeroed
           MoreSamples.two_rows 2
           (mkRowDesign 0 [] MoreSamples.zeroed [0; 0] 0)
           ltac:(vm_compute; discriminate) ltac:(vm_compute; discriminate)).
Defined.

End RowFilterFacts.

(** * More facts about the chaos scan *)

Module ScanFacts.
Import Mono MonoDesign.

Section Symbols.
Variable RESIDUAL_SCORE : Z -> Z.
Variable CHAOS : Z -> Z.
Variable w : MonoWriter.

Local Abbreviation elem := (scan_elem RESIDUAL_SCORE CHAOS w).
Local Abbreviation row := (scan_row RESIDUAL_SCORE CHAOS w).
Local Abbreviation symbols s :=
  (map (fun c => (c_x c, c_y c, c_sym c)) (sc_coded s)).
Local Abbreviation width := (size_x (_params w)).

Lemma scan_elem_symbols y s x :
  sc_residuals (elem y s x) = S (sc_residuals s)
  /\ symbols (elem y s x)
     = symbols s ++ (if codable w x y
                     then [(x, y, peek (_residuals w) (sc_residuals s))]
                     else []).
Proof.
  unfold scan_elem, codable.
  destruct ((getTile w x y =? MASK_TILE) || mask (_params w) x y);
    cbn [negb andb sc_residuals sc_coded]; [by rewrite app_nil_r |].
  destruct (_normal_filter_count w <=? getTile w x y);
    cbn [negb sc_residuals sc_coded]; [by rewrite app_nil_r |].
  by rewrite map_app.
Qed.

Lemma scan_columns_symbols y (n x0 : nat) s :
  sc_residuals s = (y * width + x0)%nat ->
  let s' := fold_left (elem y) (seq x0 n) s in
  sc_residuals s' = (y * width + x0 + n)%nat
  /\ symbols s'
     = symbols s ++ map (residual_at w y)
                        (filter (fun x => codable w x y = true) (seq x0 n)).
Proof.
  cbn zeta. revert x0 s. induction n as [| n IH]; intros x0 s Hs.
  - cbn. rewrite app_nil_r. split; [lia | done].
  - cbn [seq fold_left].
    destruct (scan_elem_symbols y s x0) as [Hres Hsym].
    destruct (IH (S x0) (elem y s x0) ltac:(lia)) as [-> ->].
    split; [lia |]. rewrite Hsym, <- app_assoc. f_equal.
    destruct (codable w x0 y) eqn:Hc.
    + rewrite filter_cons_True by done. cbn. unfold residual_at at 2.
      by rewrite Hs.
    + rewrite filter_cons_False by (by rewrite Hc). done.
Qed.

Lemma scan_rows_symbols (m y0 : nat) s :
  sc_residuals s = (y0 * width)%nat ->
  let s' := fold_left row (seq y0 m) s in
  sc_residuals s' = ((y0 + m) * width)%nat
  /\ symbols s'
     = symbols s
       ++ flat_map (fun y => map (residual_at w y)
                               (filter (fun x => codable w x y = true)
                                       (seq 0 width)))
                   (seq y0 m).
Proof.
  cbn zeta. revert y0 s. induction m as [| m IH]; intros y0 s Hs.
  - cbn. rewrite app_nil_r. split; [lia | done].
  - cbn [seq fold_left flat_map]. unfold scan_row at 2 4.
    match goal with |- context [fold_left (elem y0) _ ?s0] =>
      destruct (scan_columns_symbols y0 width 0 s0) as [Hres Hsym]
    end.
    { cbn. lia. }
    cbn zeta in Hres, Hsym. cbn [sc_coded] in Hsym.
    match goal with |- context [fold_left row _ ?s1] =>
      destruct (IH (S y0) s1) as [-> ->]
    end.
    { rewrite Hres. lia. }
    split; [lia |]. by rewrite Hsym, <- app_assoc.
Qed.

Lemma scan_plane_symbols :
  let s := scan_plane RESIDUAL_SCORE CHAOS w in
  sc_residuals s = (size_y (_params w) * width)%nat
  /\ symbols s = codable_residuals w.
Proof.
  cbn zeta. unfold scan_plane.
  match goal with |- context [fold_left row _ ?s0] =>
    destruct (scan_rows_symbols (size_y (_params w)) 0 s0) as [Hres Hsym]
  end.
  { done. }
  split; [exact Hres |]. exact Hsym.
Qed.
End Symbols.

(** X13. The scan of [designChaos] for any number of chaos levels and the
    scan of [initializeEncoders] hand the estimators and the encoders the
    same symbols: the residual of every element that is not masked and
    whose tile is on a normal filter, once, in row order, each read from
    the element's own place in the residual plane.  The chaos tables only
    decide the bin.  Both scans end with the residual cursor past the whole
    plane. *)
Theorem chaos_scans_code_each_codable_residual_once
    (RESIDUAL_SCORE : Z -> Z) (CHAOS_MAPS : Z -> Z -> Z) (w : MonoWriter)
    (chaos_levels : nat) :
  let design := level_scan RESIDUAL_SCORE CHAOS_MAPS w chaos_levels in
  let encode := initializeEncoders RESIDUAL_SCORE CHAOS_MAPS w in
  map (fun c => (c_x c, c_y c, c_sym c)) (sc_coded design)
  = codable_residuals w
  /\ map (fun c => (c_x c, c_y c, c_sym c)) (sc_coded encode)
     = codable_residuals w
  /\ sc_residuals design = (size_y (_params w) * size_x (_params w))%nat
  /\ sc_residuals encode = (size_y (_params w) * size_x (_params w))%nat.
Proof.
  cbn zeta. unfold level_scan, initializeEncoders.
  destruct (scan_plane_symbols RESIDUAL_SCORE
              (CHAOS_MAPS (Z.of_nat chaos_levels - 1)) w) as [Hr1 Hs1].
  destruct (scan_plane_symbols RESIDUAL_SCORE
              (CHAOS_MAPS (_chaos_levels w - 1)) w) as [Hr2 Hs2].
  done.
Qed.

End ScanFacts.

(** * Facts about the tile grid of [process] *)

Module GeometryFacts.
Import Mono.

Lemma ceil_shift n bits :
  0 <= bits ->
  n <= Z.shiftr (n + Z.shiftl 1 bits - 1) bits * 2 ^ bits < n + 2 ^ bits.
Proof.
  intros Hb.
  rewrite Z.shiftl_mul_pow2, Z.shiftr_div_pow2, Z.mul_1_l by lia.
  assert (HT : 0 < 2 ^ bits) by (apply Z.pow_pos_nonneg; lia).
  pose proof (Z.div_mod (n + 2 ^ bits - 1) (2 ^ bits) ltac:(lia)) as Hdm.
  pose proof (Z.mod_pos_bound (n + 2 ^ bits - 1) (2 ^ bits) HT) as Hm.
  nia.
Qed.

(** A count of tiles that just covers n elements is at most n. *)
Lemma tiles_le n T t : 0 <= n -> 0 < T -> n <= t * T < n + T -> 0 <= t <= n.
Proof.
  intros Hn HT [Hlo Hhi]. split.
  - destruct (Z.le_gt_cases 0 t) as [| Hneg]; [lia |].
    assert (t * T <= -1 * T) by (apply Z.mul_le_mono_nonneg_r; lia). lia.
  - destruct (Z.le_gt_cases t n) as [| Hgt]; [lia |].
    assert ((n + 1) * T <= t * T) by (apply Z.mul_le_mono_nonneg_r; lia).
    assert (n * 1 <= n * T) by (apply Z.mul_le_mono_nonneg_l; lia).
    lia.
Qed.

(** Up to 15 bits and 65535 elements a side nothing wraps: the edge and the
    tile counts are below 2^16. *)
Lemma tiles_fit_u16 n bits :
  0 <= bits <= 15 -> 0 <= n <= 65535 ->
  u16w (Z.shiftl 1 bits) = 2 ^ bits
  /\ u16w (Z.shiftr (n + u16w (Z.shiftl 1 bits) - 1) bits)
     = Z.shiftr (n + Z.shiftl 1 bits - 1) bits.
Proof.
  intros Hb Hn.
  assert (HT : 0 < 2 ^ bits <= 2 ^ 15)
    by (split; [apply Z.pow_pos_nonneg | apply Z.pow_le_mono_r]; lia).
  assert (Hedge : u16w (Z.shiftl 1 bits) = 2 ^ bits).
  { unfold u16w. rewrite Z.shiftl_mul_pow2, Z.mul_1_l by lia.
    apply Z.mod_small. lia. }
  split; [exact Hedge |].
  rewrite Hedge. replace (2 ^ bits) with (Z.shiftl 1 bits)
    by (rewrite Z.shiftl_mul_pow2; lia).
  pose proof (ceil_shift n bits ltac:(lia)) as Hceil.
  unfold u16w. apply Z.mod_small. nia.
Qed.

(** X14. For a bit count from 0 to 15 and a plane of at most 65535
    elements a side and 0x7fffffff elements in all, the tile grid [process]
    sets up covers the plane with no spare row or column of tiles: the tile
    edge is 2^bits and the tile counts are the plane's sizes divided by it,
    rounded up; there are at most 0x7fffffff tiles, the tile array holds one
    byte per tile and the row filter array one byte per tile row. *)
Theorem init_bits_tiles_cover_plane w bits :
  0 <= bits <= 15 ->
  Z.of_nat (size_x (_params w)) <= 65535 ->
  Z.of_nat (size_y (_params w)) <= 65535 ->
  Z.of_nat (size_x (_params w)) * Z.of_nat (size_y (_params w)) <= INT_MAX ->
  let w' := init_bits w bits in
  let T := 2 ^ bits in
  _tile_bits_x w' = bits /\ _tile_bits_y w' = bits
  /\ _tile_size_x w' = T /\ _tile_size_y w' = T
  /\ Z.of_nat (size_x (_params w)) <= _tiles_x w' * T
     < Z.of_nat (size_x (_params w)) + T
  /\ Z.of_nat (size_y (_params w)) <= _tiles_y w' * T
     < Z.of_nat (size_y (_params w)) + T
  /\ _tiles_count w' = _tiles_x w' * _tiles_y w'
  /\ 0 <= _tiles_count w' <= INT_MAX
  /\ length (_tiles w') = Z.to_nat (_tiles_count w')
  /\ length (_tile_row_filters w') = Z.to_nat (_tiles_y w').
Proof.
  intros Hb Hx Hy Hxy; cbn.
  destruct (tiles_fit_u16 (Z.of_nat (size_x (_params w))) bits Hb
                          ltac:(lia)) as [Hedge Htx].
  destruct (tiles_fit_u16 (Z.of_nat (size_y (_params w))) bits Hb
                          ltac:(lia)) as [_ Hty].
  rewrite Htx, Hty, Hedge, !length_replicate.
  assert (Hbits : u16w bits = bits) by (apply Z.mod_small; lia).
  pose proof (ceil_shift (Z.of_nat (size_x (_params w))) bits ltac:(lia))
    as Hcx.
  pose proof (ceil_shift (Z.of_nat (size_y (_params w))) bits ltac:(lia))
    as Hcy.
  assert (HT : 0 < 2 ^ bits) by (apply Z.pow_pos_nonneg; lia).
  clear Htx Hty.
  set (tx := Z.shiftr (Z.of_nat (size_x (_params w)) + Z.shiftl 1 bits - 1)
                      bits) in *.
  set (ty := Z.shiftr (Z.of_nat (size_y (_params w)) + Z.shiftl 1 bits - 1)
                      bits) in *.
  assert (Htxr : 0 <= tx <= Z.of_nat (size_x (_params w)))
    by (apply (tiles_le _ (2 ^ bits)); lia).
  assert (Htyr : 0 <= ty <= Z.of_nat (size_y (_params w)))
    by (apply (tiles_le _ (2 ^ bits)); lia).
  repeat split; try exact Hbits; try lia; try nia.
Qed.

(** X14 on a sample: an 8x8 plane in 4x4 tiles is a grid of 2x2. *)
Lemma init_bits_tiles_cover_plane_witness :
  let w' := init_bits (fresh Samples.two_sizes) 2 in
  (0 <= 2 <= 15 /\ _tiles_x w' = 2 /\ _tiles_y w' = 2)
  /\ _tile_bits_x w' = 2 /\ _tile_bits_y w' = 2
  /\ _tile_size_x w' = 4 /\ _tile_size_y w' = 4
  /\ 8 <= _tiles_x w' * 4 < 8 + 4
  /\ 8 <= _tiles_y w' * 4 < 8 + 4
  /\ _tiles_count w' = _tiles_x w' * _tiles_y w'
  /\ 0 <= _tiles_count w' <= INT_MAX
  /\ length (_tiles w') = Z.to_nat (_tiles_count w')
  /\ length (_tile_row_filters w') = Z.to_nat (_tiles_y w').
Proof.
  split; [by vm_compute |].
  exact (init_bits_tiles_cover_plane (fresh Samples.two_sizes) 2
           ltac:(lia) ltac:(vm_compute; discriminate)
           ltac:(vm_compute; discriminate) ltac:(vm_compute; discriminate)).
Defined.

(** At 16 bits the edge no longer fits its member: it is stored as 0. *)
Example tile_edge_wraps_at_16_bits :
  _tile_size_x (init_bits (fresh Samples.two_sizes) 16) = 0.
Proof. reflexivity. Qed.

End GeometryFacts.


(** * More facts about [writeTables] and [writeRowHeader] *)

Module TablesFacts.
Import Mono.

Lemma mod_pow2_of_u32w v bc :
  0 < bc <= 32 -> u32w v mod 2 ^ bc = v mod 2 ^ bc.
Proof.
  intros Hbc. unfold u32w.
  change 4294967296 with (2 ^ 32).
  apply Z.mod_mod_divide.
  exists (2 ^ (32 - bc)). rewrite <- Z.pow_add_r by lia. f_equal; lia.
Qed.

Lemma congruent_close a b N :
  0 < N -> a mod N = b mod N -> - N < a - b < N -> a = b.
Proof.
  intros HN Heq Hclose.
  assert (Hd : (a - b) mod N = 0).
  { rewrite Zminus_mod, Heq, Z.sub_diag. apply Zmod_0_l. }
  apply Z.mod_divide in Hd; [| lia].
  destruct Hd as [k Hk].
  assert (k = 0) by nia. subst k. lia.
Qed.

(** X16. The tile-size field of [writeTables] tells the tile bit counts
    of a parameter set apart: for two writers over the same parameters
    whose bit counts lie between [min_bits] and [max_bits], the field has
    the same width, at most 32 bits, and values that differ in their low
    bits of that width unless the bit counts are equal.  The value itself
    is [_tile_bits_x - max_bits] wrapped to 32 bits, so it fills the width
    only through its low bits. *)
Theorem tile_size_field_decodable w1 w2 :
  _params w1 = _params w2 ->
  0 < max_bits (_params w1) - min_bits (_params w1) < 4294967296 ->
  min_bits (_params w1) <= _tile_bits_x w1 <= max_bits (_params w1) ->
  min_bits (_params w1) <= _tile_bits_x w2 <= max_bits (_params w1) ->
  exists bc v1 v2,
    tile_size_fields w1 = [mkField v1 bc]
    /\ tile_size_fields w2 = [mkField v2 bc]
    /\ 0 < bc <= 32
    /\ (v1 mod 2 ^ bc = v2 mod 2 ^ bc -> _tile_bits_x w1 = _tile_bits_x w2).
Proof.
  intros Hp Hrange Hb1 Hb2.
  unfold tile_size_fields. rewrite <- Hp.
  set (hi := max_bits (_params w1)) in *.
  set (lo := min_bits (_params w1)) in *.
  assert (Hr : u32w (hi - lo) = hi - lo) by (apply Z.mod_small; lia).
  rewrite Hr.
  destruct (Z.ltb_spec 0 (hi - lo)) as [_ | ?]; [| lia].
  unfold BSR32.
  pose proof (Z.log2_spec (hi - lo) ltac:(lia)) as [Hlo Hhi].
  pose proof (Z.log2_nonneg (hi - lo)) as Hnn.
  assert (Hlt : Z.log2 (hi - lo) < 32)
    by (apply Z.log2_lt_pow2; [lia | change (2 ^ 32) with 4294967296; lia]).
  replace (Z.succ (Z.log2 (hi - lo))) with (Z.log2 (hi - lo) + 1) in Hhi by lia.
  eexists _, _, _. split; [reflexivity |]. split; [reflexivity |].
  split; [lia |].
  intros Heq.
  rewrite !mod_pow2_of_u32w in Heq by lia.
  assert (_tile_bits_x w1 - hi = _tile_bits_x w2 - hi); [| lia].
  apply (congruent_close _ _ (2 ^ (Z.log2 (hi - lo) + 1))); lia.
Qed.

(** X16 on a sample: with bit counts 2 and 3 allowed the field is one bit
    wide; 2 is written as 0xffffffff, 3 as 0, and the low bits differ. *)
Lemma tile_size_field_decodable_witness :
  let w1 := init_bits (fresh Samples.two_sizes) 2 in
  let w2 := init_bits (fresh Samples.two_sizes) 3 in
  (tile_size_fields w1 = [mkField 4294967295 1]
   /\ tile_size_fields w2 = [mkField 0 1])
  /\ exists bc v1 v2,
       tile_size_fields w1 = [mkField v1 bc]
       /\ tile_size_fields w2 = [mkField v2 bc]
       /\ 0 < bc <= 32
       /\ (v1 mod 2 ^ bc = v2 mod 2 ^ bc -> _tile_bits_x w1 = _tile_bits_x w2).
Proof.
  split; [by vm_compute |].
  exact (tile_size_field_decodable
           (init_bits (fresh Samples.two_sizes) 2)
           (init_bits (fresh Samples.two_sizes) 3)
           eq_refl ltac:(cbn; lia) ltac:(vm_compute; split; discriminate)
           ltac:(vm_compute; split; discriminate)).
Defined.


End TablesFacts.

(** * More facts about [readFilter] and [readSafe] *)

Module PixelFacts.
Import Reader.

Lemma peek_poke_eq l (i : nat) v :
  (i < length l)%nat -> peek (poke l i v) i = v.
Proof.
  intros Hi. unfold peek, poke. by rewrite list_lookup_insert_eq.
Qed.

Lemma length_poke l (i : nat) v : length (poke l i v) = length l.
Proof. apply length_insert. Qed.

Lemma u8w_lnot a : u8w (Z.lnot a) = 255 - u8w a.
Proof.
  unfold u8w, Z.lnot.
  pose proof (Z.div_mod a 256 ltac:(lia)) as Hdm.
  pose proof (Z.mod_pos_bound a 256 ltac:(lia)) as Hm.
  symmetry. apply (Zmod_unique _ _ (- (a / 256) - 1)); lia.
Qed.

Section Decoder.
Variable Stream : Type.
Variable y_next u_next v_next : Z -> Stream -> Z * Stream.
Variable MonoReader : Type.
Variable mono_read mono_read_unsafe :
  MonoReader -> Z -> Stream -> Z * MonoReader * Stream.
Variable RGBChaos : Type.
Variable chaos_get : RGBChaos -> Z -> Z * Z * Z.
Variable chaos_store : RGBChaos -> Z -> Z * Z * Z -> RGBChaos.
Variable YUV2RGB_FILTERS : Z -> YUV2RGBFilterFunction.

Local Abbreviation Decoder := (ImageRGBAReader MonoReader RGBChaos).
Local Abbreviation read_safe :=
  (readSafe Stream y_next u_next v_next MonoReader mono_read RGBChaos
            chaos_get chaos_store YUV2RGB_FILTERS).
Local Abbreviation read_unsafe :=
  (readUnsafe Stream y_next u_next v_next MonoReader mono_read
              mono_read_unsafe RGBChaos chaos_get chaos_store
              YUV2RGB_FILTERS).
Local Abbreviation read_filter :=
  (readFilter Stream MonoReader mono_read RGBChaos YUV2RGB_FILTERS).
Local Abbreviation y_symbol :=
  (Reader.y_symbol Stream y_next MonoReader RGBChaos chaos_get).
Local Abbreviation before_prediction :=
  (Reader.before_prediction Stream y_next u_next v_next MonoReader mono_read
                            RGBChaos chaos_get YUV2RGB_FILTERS).
Local Abbreviation column d x :=
  (Z.to_nat (u16w (Z.shiftr x (_tile_bits_x _ _ d)))).

Lemma readFilter_frame (d : Decoder) x y reader :
  let d1 := fst (fst (read_filter d x y reader)) in
  _rgba _ _ d1 = _rgba _ _ d /\ _xsize _ _ d1 = _xsize _ _ d
  /\ _tile_bits_x _ _ d1 = _tile_bits_x _ _ d
  /\ _a_decoder _ _ d1 = _a_decoder _ _ d /\ _chaos _ _ d1 = _chaos _ _ d
  /\ length (_filters _ _ d1) = length (_filters _ _ d).
Proof.
  cbn zeta. unfold readFilter.
  destruct (ready _); [done |].
  destruct (mono_read (_cf_decoder _ _ d) _ reader) as [[cf_id cfd] r1].
  destruct (mono_read (_sf_decoder _ _ d) _ r1) as [[sf_id sfd] r2].
  cbn. by rewrite length_insert.
Qed.

(** X19. For a tile column inside the filter array, the selection
    [readFilter] hands back is ready, and from then on [readFilter] at any
    pixel of that column hands back the same selection and leaves the
    decoder and the stream alone: a column's filter ids are read once.  The
    selections of the other columns are not touched. *)
Theorem readFilter_reads_a_column_once (d : Decoder) x y reader :
  (column d x < length (_filters _ _ d))%nat ->
  let d1 := fst (fst (read_filter d x y reader)) in
  let filter := snd (read_filter d x y reader) in
  ready filter = true
  /\ (forall x' y' reader',
        column d x' = column d x ->
        read_filter d1 x' y' reader' = (d1, reader', filter))
  /\ (forall tx, tx <> column d x -> filter_at _ _ d1 tx = filter_at _ _ d tx).
Proof.
  intros Hin. cbn zeta.
  destruct (read_filter d x y reader) as [[d1 r1] f1] eqn:Hrf.
  cbn [fst snd]. unfold readFilter in Hrf.
  destruct (ready (filter_at _ _ d (column d x))) eqn:Hready.
  - injection Hrf as <- <- <-. split; [done |]. split; [| done].
    intros x' y' reader' Hcol. unfold readFilter.
    rewrite Hcol. by rewrite Hready.
  - destruct (mono_read (_cf_decoder _ _ d) _ reader) as [[cf_id cfd] r1'].
    destruct (mono_read (_sf_decoder _ _ d) _ r1') as [[sf_id sfd] r2].
    injection Hrf as <- <- <-. split; [done |]. split.
    + intros x' y' reader' Hcol. unfold readFilter.
      cbn [_tile_bits_x _filters]. rewrite Hcol.
      unfold filter_at. cbn [_filters].
      rewrite list_lookup_insert_eq by done.
      cbn [from_option id ready cf]. done.
    + intros tx Htx. unfold filter_at. cbn [_filters].
      by rewrite list_lookup_insert_ne.
Qed.

Lemma put_rgb_frame rgba p rgb :
  length (put_rgb rgba p rgb) = length rgba
  /\ forall i, (i < p \/ p + 2 < i)%nat -> peek (put_rgb rgba p rgb) i = peek rgba i.
Proof.
  destruct rgb as [[r g] b]. unfold put_rgb.
  rewrite !length_poke. split; [done |]. intros i Hi.
  rewrite !MonoChaosFacts.peek_poke_ne by lia. done.
Qed.

Lemma add_pred_frame rgba p pred :
  length (add_pred rgba p pred) = length rgba
  /\ forall i, (i < p \/ p + 2 < i)%nat ->
       peek (add_pred rgba p pred) i = peek rgba i.
Proof.
  destruct pred as [[r g] b]. unfold add_pred.
  rewrite !length_poke. split; [done |]. intros i Hi.
  rewrite !MonoChaosFacts.peek_poke_ne by lia. done.
Qed.

Lemma add_pred_bytes rgba p pred :
  (p + 2 < length rgba)%nat ->
  let '(r, g, b) := pred in
  peek (add_pred rgba p pred) p = u8w (peek rgba p + r)
  /\ peek (add_pred rgba p pred) (p + 1) = u8w (peek rgba (p + 1) + g)
  /\ peek (add_pred rgba p pred) (p + 2) = u8w (peek rgba (p + 2) + b).
Proof.
  intros Hp. destruct pred as [[r g] b]. unfold add_pred.
  repeat split.
  - rewrite !MonoChaosFacts.peek_poke_ne by lia.
    by rewrite peek_poke_eq by lia.
  - rewrite MonoChaosFacts.peek_poke_ne by lia.
    by rewrite peek_poke_eq by (rewrite length_poke; lia).
  - by rewrite peek_poke_eq by (rewrite !length_poke; lia).
Qed.

Ltac one_pixel_frame Hframe :=
  match goal with |- context [add_pred ?r ?p ?pr] =>
    let Hl2 := fresh "Hl2" in
    let Hf2 := fresh "Hf2" in
    destruct (add_pred_frame r p pr) as [Hl2 Hf2];
    match type of Hl2 with context [put_rgb ?r0 p ?c] =>
      let Hl1 := fresh "Hl1" in
      let Hf1 := fresh "Hf1" in
      destruct (put_rgb_frame r0 p c) as [Hl1 Hf1];
      split;
      [ by rewrite length_poke, Hl2, Hl1, Hframe
      | let i := fresh "i" in
        let Hi := fresh "Hi" in
        intros i Hi;
        rewrite MonoChaosFacts.peek_poke_ne, Hf2, Hf1, Hframe by lia;
        done ]
    end
  end.

(** X20. [readSafe] and [readUnsafe] keep the size of the pixel buffer and
    write at most the four bytes of the pixel at [p]: every byte before [p]
    or after [p + 3] is as it was. *)
Theorem read_writes_one_pixel (d : Decoder) x y (p : nat) reader :
  let d' := fst (read_safe d x y p reader) in
  let d'' := fst (read_unsafe d x y p reader) in
  (length (_rgba _ _ d') = length (_rgba _ _ d)
   /\ forall i, (i < p \/ p + 3 < i)%nat ->
        peek (_rgba _ _ d') i = peek (_rgba _ _ d) i)
  /\ (length (_rgba _ _ d'') = length (_rgba _ _ d)
      /\ forall i, (i < p \/ p + 3 < i)%nat ->
           peek (_rgba _ _ d'') i = peek (_rgba _ _ d) i).
Proof.
  cbn zeta. unfold readSafe, readUnsafe.
  destruct (chaos_get (_chaos _ _ d) x) as [[cy cu] cv].
  destruct (y_next cy reader) as [code reader1].
  destruct (256 <=? u16w code); [done |].
  destruct (u_next cu reader1) as [u reader2].
  destruct (v_next cv reader2) as [v reader3].
  pose proof (readFilter_frame d x y reader3) as Hframe. cbn zeta in Hframe.
  destruct (read_filter d x y reader3) as [[d1 reader4] filter].
  cbn [fst] in Hframe. destruct Hframe as (Hrgba & _).
  destruct (mono_read (_a_decoder _ _ d1) x reader4) as [[a ad] reader5].
  destruct (mono_read_unsafe (_a_decoder _ _ d1) x reader4)
    as [[a' ad'] reader5'].
  cbn [fst _rgba set_pixel_state].
  split; one_pixel_frame Hrgba.
Qed.

(** X21. When the Y symbol is a literal (below 256) and the pixel lies
    inside the buffer, [readSafe] leaves at [p] the colour filter's output
    plus the spatial filter's prediction, each channel cut to a byte, and at
    [p + 3] the complement 255 - a of the alpha symbol it read. *)
Theorem readSafe_adds_the_prediction (d : Decoder) x y (p : nat) reader :
  fst (y_symbol d x reader) < 256 ->
  (p + 3 < length (_rgba _ _ d))%nat ->
  exists d1 reader4 filter rgba1,
    before_prediction d x y p reader = Some (d1, reader4, filter, rgba1)
    /\ let '(r, g, b) := safe (sf filter) rgba1 p x y (_xsize _ _ d1) in
       let a := fst (fst (mono_read (_a_decoder _ _ d1) x reader4)) in
       let out := _rgba _ _ (fst (read_safe d x y p reader)) in
       peek out p = u8w (peek rgba1 p + r)
       /\ peek out (p + 1) = u8w (peek rgba1 (p + 1) + g)
       /\ peek out (p + 2) = u8w (peek rgba1 (p + 2) + b)
       /\ peek out (p + 3) = 255 - u8w a.
Proof.
  unfold Reader.y_symbol, Reader.before_prediction, readSafe.
  destruct (chaos_get (_chaos _ _ d) x) as [[cy cu] cv]. cbn [fst].
  destruct (y_next cy reader) as [code reader1]. cbn [fst].
  intros Hliteral Hp.
  destruct (Z.leb_spec 256 (u16w code)); [lia |].
  destruct (u_next cu reader1) as [u reader2].
  destruct (v_next cv reader2) as [v reader3].
  pose proof (readFilter_frame d x y reader3) as Hframe. cbn zeta in Hframe.
  destruct (read_filter d x y reader3) as [[d1 reader4] filter].
  cbn [fst] in Hframe. destruct Hframe as (Hrgba & _).
  eexists d1, reader4, filter, _. split; [reflexivity |].
  match goal with |- context [put_rgb ?r p ?c] =>
    destruct (put_rgb_frame r p c) as [Hl1 _];
    set (rgba1 := put_rgb r p c) in *
  end.
  pose proof (add_pred_bytes rgba1 p
                (safe (sf filter) rgba1 p x y (_xsize _ _ d1))
                ltac:(rewrite Hl1, Hrgba; lia)) as Hbytes.
  destruct (add_pred_frame rgba1 p
              (safe (sf filter) rgba1 p x y (_xsize _ _ d1))) as [Hl2 _].
  destruct (safe (sf filter) rgba1 p x y (_xsize _ _ d1)) as [[r g] b].
  destruct (mono_read (_a_decoder _ _ d1) x reader4) as [[a ad] reader5].
  cbn [fst _rgba set_pixel_state].
  destruct Hbytes as (H0 & H1 & H2).
  rewrite !MonoChaosFacts.peek_poke_ne by lia.
  rewrite peek_poke_eq by (rewrite Hl2, Hl1, Hrgba; lia).
  rewrite u8w_lnot. done.
Qed.
End Decoder.

(** X19 on the sample stream: the first pixel of the a b a b image reads
    the ids of tile column 0; a second call at pixel 3 of the same column
    reads nothing. *)
Lemma readFilter_reads_a_column_once_witness :
  let first := Codec.readFilter Samples.abab_start 0 0
                 (Codec.mkTokens [1; 1; 0] []) in
  (Codec.pending (snd (fst first)) = [0]
   /\ (0 < length (_filters _ _ Samples.abab_start))%nat)
  /\ ready (snd first) = true
  /\ (forall x' y' reader',
        Z.to_nat (u16w (Z.shiftr x' 2)) = Z.to_nat (u16w (Z.shiftr 0 2)) ->
        Codec.readFilter (fst (fst first)) x' y' reader'
        = (fst (fst first), reader', snd first))
  /\ (forall tx, tx <> Z.to_nat (u16w (Z.shiftr 0 2)) ->
        filter_at _ _ (fst (fst first)) tx
        = filter_at _ _ Samples.abab_start tx).
Proof.
  split; [split; [reflexivity | vm_compute; lia] |].
  exact (readFilter_reads_a_column_once Codec.Tokens Codec.MonoMap
           Codec.tok_mono Codec.RGBChaos Codec.YUV2RGB_FILTERS
           Samples.abab_start 0 0 (Codec.mkTokens [1; 1; 0] [])
           ltac:(vm_compute; lia)).
Defined.

(** X21 on the sample stream: the first pixel of the a b a b image, read
    from the symbols 20, 10, 246, the filter ids 1, 1 and the alpha symbol
    0, comes out as (10, 20, 30, 255). *)
Lemma readSafe_adds_the_prediction_witness :
  take 4 (_rgba _ _ (fst (Codec.readSafe Samples.abab_start 0 0 0%nat
                            MoreSamples.first_pixel)))
  = [10; 20; 30; 255]
  /\ exists d1 reader4 filter rgba1,
       Reader.before_prediction Codec.Tokens Codec.tok_y Codec.tok_u
         Codec.tok_v Codec.MonoMap Codec.tok_mono Codec.RGBChaos
         Codec.chaos_get Codec.YUV2RGB_FILTERS Samples.abab_start 0 0 0%nat
         MoreSamples.first_pixel
       = Some (d1, reader4, filter, rgba1)
       /\ let '(r, g, b) := safe (sf filter) rgba1 0%nat 0 0
                                 (_xsize _ _ d1) in
          let a := fst (fst (Codec.tok_mono (_a_decoder _ _ d1) 0
                                            reader4)) in
          let out := _rgba _ _ (fst (Codec.readSafe Samples.abab_start 0 0
                                       0%nat MoreSamples.first_pixel)) in
          peek out 0 = u8w (peek rgba1 0 + r)
          /\ peek out (0 + 1) = u8w (peek rgba1 (0 + 1) + g)
          /\ peek out (0 + 2) = u8w (peek rgba1 (0 + 2) + b)
          /\ peek out (0 + 3) = 255 - u8w a.
Proof.
  split; [reflexivity |].
  exact (readSafe_adds_the_prediction Codec.Tokens Codec.tok_y Codec.tok_u
           Codec.tok_v Codec.MonoMap Codec.tok_mono Codec.RGBChaos
           Codec.chaos_get Codec.chaos_store Codec.YUV2RGB_FILTERS
           Samples.abab_start 0 0 0%nat MoreSamples.first_pixel
           ltac:(vm_compute; reflexivity) ltac:(vm_compute; lia)).
Defined.

End PixelFacts.

(** * Facts about the filter matrix of ImageCMWriter *)

Module MatrixFacts.
Import MonoDesign.

Lemma peekZ_pokeZ l i j v :
  0 <= i < Z.of_nat (length l) ->
  peekZ (pokeZ l i v) j = if j =? i then v else peekZ l j.
Proof.
  intros Hi. unfold peekZ, pokeZ, peek, poke.
  destruct (Z.leb_spec 0 i); [| lia].
  destruct (Z.eqb_spec j i) as [-> | Hne].
  - destruct (Z.leb_spec 0 i); [| lia].
    by rewrite list_lookup_insert_eq by lia.
  - destruct (Z.leb_spec 0 j); [| done].
    by rewrite list_lookup_insert_ne by lia.
Qed.

Section Zones.
Variable FILTER_ZONE_SIZE_SHIFT : Z.

Local Abbreviation zone := (CM.zone FILTER_ZONE_SIZE_SHIFT).
Local Abbreviation setFilter := (CM.setFilter FILTER_ZONE_SIZE_SHIFT).
Local Abbreviation getFilter := (CM.getFilter FILTER_ZONE_SIZE_SHIFT).
Local Abbreviation zx x := (Z.shiftr x FILTER_ZONE_SIZE_SHIFT).

(** X22. For pixels with coordinates that are not negative, in zone
    columns below [_w] and a zone inside the matrix, [getFilter] after
    [setFilter] at (x, y) gives the filter set (cut to 16 bits) at every
    pixel of the zone of (x, y), and what it gave before at every pixel of
    another zone. *)
Theorem getFilter_after_setFilter cm x y filter x' y' :
  0 <= x -> 0 <= y -> 0 <= x' -> 0 <= y' ->
  zx x < CM._w cm -> zx x' < CM._w cm ->
  zone cm x y < Z.of_nat (length (CM._matrix cm)) ->
  getFilter (setFilter cm x y filter) x' y'
  = if (zx x' =? zx x) && (zx y' =? zx y) then u16w filter
    else getFilter cm x' y'.
Proof.
  intros Hx Hy Hx' Hy' Hw Hw' Hlen.
  unfold CM.getFilter, CM.setFilter. cbn [CM._matrix].
  change (CM.zone FILTER_ZONE_SIZE_SHIFT (CM.mkImageCMWriter ?a ?b ?c) ?u ?v)
    with (zone cm u v).
  assert (H0 : 0 <= zx x) by (by apply Z.shiftr_nonneg).
  assert (H1 : 0 <= zx y) by (by apply Z.shiftr_nonneg).
  assert (H2 : 0 <= zx x') by (by apply Z.shiftr_nonneg).
  assert (H3 : 0 <= zx y') by (by apply Z.shiftr_nonneg).
  unfold CM.zone in *.
  rewrite peekZ_pokeZ by nia.
  destruct (Z.eqb_spec (zx x') (zx x)) as [Hex | Hex];
    destruct (Z.eqb_spec (zx y') (zx y)) as [Hey | Hey]; cbn [andb].
  - rewrite Hex, Hey, Z.eqb_refl. done.
  - destruct (Z.eqb_spec (zx x' + zx y' * CM._w cm)
                         (zx x + zx y * CM._w cm)); [nia | done].
  - destruct (Z.eqb_spec (zx x' + zx y' * CM._w cm)
                         (zx x + zx y * CM._w cm)); [nia | done].
  - destruct (Z.eqb_spec (zx x' + zx y' * CM._w cm)
                         (zx x + zx y * CM._w cm)); [nia | done].
Qed.
End Zones.

(** X22 on a sample: with 4x4 zones, setting filter 7 at pixel (5, 2) is
    seen at pixel (4, 3) of the same zone. *)
Lemma getFilter_after_setFilter_witness :
  CM.getFilter 2 (CM.setFilter 2 MoreSamples.four_zones 5 2 7) 4 3
  = if (Z.shiftr 4 2 =? Z.shiftr 5 2) && (Z.shiftr 3 2 =? Z.shiftr 2 2)
    then u16w 7 else CM.getFilter 2 MoreSamples.four_zones 4 3.
Proof.
  exact (getFilter_after_setFilter 2 MoreSamples.four_zones 5 2 7 4 3
           ltac:(lia) ltac:(lia) ltac:(lia) ltac:(lia)
           ltac:(vm_compute; reflexivity) ltac:(vm_compute; reflexivity)
           ltac:(vm_compute; reflexivity)).
Defined.

End MatrixFacts.

(** * Facts about the visited map and the palette codes of ImageLPWriter *)

Module LocalPaletteFacts.
Import MonoDesign LP.

(** X23. For a pixel inside the visited map and a match index of 0 to
    65535, [visited] after [visit] gives index + 1 at that pixel and what
    it gave before at any other; the mark is a 16-bit value, so the index
    65535 is stored as 0, the value of a pixel never visited. *)
Theorem visited_after_visit lp x y index x' y' :
  0 <= x + y * _width lp < Z.of_nat (length (_visited lp)) ->
  0 <= index <= 65535 ->
  visited (visit lp x y index) x' y'
  = if x' + y' * _width lp =? x + y * _width lp
    then (if index =? 65535 then 0 else index + 1)
    else visited lp x' y'.
Proof.
  intros Hcell Hindex. unfold visited, visit. cbn [_visited _width].
  rewrite MatrixFacts.peekZ_pokeZ by done.
  destruct (_ =? x + y * _width lp); [| done].
  unfold u16w. destruct (Z.eqb_spec index 65535) as [-> | Hne]; [done |].
  apply Z.mod_small. lia.
Qed.

Lemma find_seqZ (f : Z -> bool) (n : nat) (s : Z) :
  match List.find f (seqZ s (Z.of_nat n)) with
  | Some i => s <= i < s + Z.of_nat n /\ f i = true
              /\ forall j, s <= j < i -> f j = false
  | None => forall j, s <= j < s + Z.of_nat n -> f j = false
  end.
Proof.
  revert s. induction n as [| n IH]; intros s.
  - cbn. intros j Hj. lia.
  - rewrite seqZ_cons by lia. cbn [List.find].
    replace (Z.pred (Z.of_nat (S n))) with (Z.of_nat n) by lia.
    destruct (f s) eqn:Hs.
    + split; [lia |]. split; [done |]. intros j Hj. lia.
    + specialize (IH (Z.succ s)).
      destruct (List.find f (seqZ (Z.succ s) (Z.of_nat n))) as [i |].
      * destruct IH as (Hi & Hfi & Hbefore). split; [lia |].
        split; [done |]. intros j Hj.
        destruct (Z.eq_dec j s) as [-> | Hne]; [done | apply Hbefore; lia].
      * intros j Hj.
        destruct (Z.eq_dec j s) as [-> | Hne]; [done | apply IH; lia].
Qed.

(** X24. For a match that uses one colour or none [writePixel] writes
    nothing.  For a match that uses more it writes exactly one code, that
    of the first of the used palette slots whose colour equals the byte
    read at [x + y * _width] of the byte buffer [_rgba], and that of slot 0
    when no used slot holds it. *)
Theorem writePixel_codes_first_matching_color lp match_ x y m :
  1 <= match_ ->
  _exact_matches lp !! Z.to_nat (match_ - 1) = Some m ->
  let color := peekZ (_rgba lp) (x + y * _width lp) in
  if 1 <? used m then
    exists index,
      writePixel lp match_ x y
      = [Mono.mkField (peekZ (codes m) index) (peekZ (codelens m) index)]
      /\ 0 <= index < used m
      /\ (forall j, 0 <= j < index -> peekZ (colors m) j <> color)
      /\ (peekZ (colors m) index = color
          \/ (index = 0
              /\ forall j, 0 <= j < used m -> peekZ (colors m) j <> color))
  else writePixel lp match_ x y = [].
Proof.
  intros Hmatch Hm. cbn zeta. unfold writePixel.
  destruct (Z.leb_spec 0 (match_ - 1)); [| lia].
  rewrite Hm. cbn [default from_option id].
  destruct (Z.ltb_spec 1 (used m)) as [Hused | Hused]; [| done].
  set (color := peekZ (_rgba lp) (x + y * _width lp)).
  unfold color_index. fold color.
  pose proof (find_seqZ (fun ii => color =? peekZ (colors m) ii)
                        (Z.to_nat (used m)) 0) as Hfind.
  rewrite Z2Nat.id in Hfind by lia.
  destruct (List.find _ (seqZ 0 (used m))) as [i |].
  - destruct Hfind as (Hi & Hfi & Hbefore).
    exists i. split; [done |]. split; [lia |]. split.
    + intros j Hj Heq. specialize (Hbefore j ltac:(lia)).
      cbn in Hbefore. rewrite Heq, Z.eqb_refl in Hbefore. done.
    + left. cbn in Hfi. apply Z.eqb_eq in Hfi. done.
  - exists 0. split; [done |]. split; [lia |]. split; [intros; lia |].
    right. split; [done |]. intros j Hj Heq.
    specialize (Hfind j ltac:(lia)). cbn in Hfind.
    rewrite Heq, Z.eqb_refl in Hfind. done.
Qed.
(** X23 on a sample: pixel (1, 1) of a 2x2 image marked with match
    index 0. *)
Lemma visited_after_visit_witness :
  visited (visit MoreSamples.two_by_two 1 1 0) 1 1
  = if 1 + 1 * 2 =? 1 + 1 * 2 then (if 0 =? 65535 then 0 else 0 + 1)
    else visited MoreSamples.two_by_two 1 1.
Proof.
  exact (visited_after_visit MoreSamples.two_by_two 1 1 0 1 1
           ltac:(vm_compute; split; discriminate || reflexivity)
           ltac:(lia)).
Defined.

(** X24 on a sample: the byte at (1, 0) is 20, the colour of slot 1 of the
    two-colour match, whose code (1, one bit long) is written. *)
Lemma writePixel_codes_first_matching_color_witness :
  writePixel MoreSamples.two_by_two 1 1 0 = [Mono.mkField 1 1]
  /\ exists index,
       writePixel MoreSamples.two_by_two 1 1 0
       = [Mono.mkField (peekZ (codes MoreSamples.two_colors) index)
                       (peekZ (codelens MoreSamples.two_colors) index)]
       /\ 0 <= index < 2
       /\ (forall j, 0 <= j < index ->
             peekZ (colors MoreSamples.two_colors) j <> 20)
       /\ (peekZ (colors MoreSamples.two_colors) index = 20
           \/ (index = 0
               /\ forall j, 0 <= j < 2 ->
                    peekZ (colors MoreSamples.two_colors) j <> 20)).
Proof.
  split; [reflexivity |].
  exact (writePixel_codes_first_matching_color MoreSamples.two_by_two 1 1 0
           MoreSamples.two_colors ltac:(lia) eq_refl).
Defined.

End LocalPaletteFacts.

(** * The order in which a pixel read takes its symbols *)

Module StreamOrderFacts.
Import Reader Codec.

Lemma tl_drop {A} (k : nat) (l : list A) : tl (drop k l) = drop (S k) l.
Proof.
  revert l. induction k as [| k IH]; intros [| a l]; cbn; auto.
Qed.

(** X25. For a literal pixel (Y symbol below 256) [readSafe] and
    [readUnsafe] take their symbols from the stream in the order Y, U, V,
    then the CF id and the SF id of the tile column if it was not seen yet,
    then the alpha symbol: four symbols for a pixel of a seen column, six
    for the first pixel of a column. *)
Theorem read_takes_symbols_in_order (d : Decoder) x y (p : nat) (s : Tokens) :
  u16w (hd 0 (pending s)) < 256 ->
  let '(cy, cu, cv) := chaos_get (_chaos _ _ d) x in
  let tx := tile_column d x in
  let ids :=
    if ready (filter_at _ _ d (Z.to_nat tx)) then []
    else [mono_event (_cf_decoder _ _ d) tx;
          mono_event (_sf_decoder _ _ d) tx] in
  let order := [EvY cy; EvU cu; EvV cv] ++ ids
               ++ [mono_event (_a_decoder _ _ d) x] in
  let s' := snd (readSafe d x y p s) in
  let s'' := snd (readUnsafe d x y p s) in
  (trace s' = trace s ++ order
   /\ pending s' = drop (4 + length ids) (pending s))
  /\ (trace s'' = trace s ++ order
      /\ pending s'' = drop (4 + length ids) (pending s)).
Proof.
  intros Hliteral. destruct s as [pend tr]. cbn [pending trace] in *.
  unfold readSafe, readUnsafe, Reader.readSafe, Reader.readUnsafe,
    Reader.readFilter, tile_column.
  destruct (chaos_get (_chaos _ _ d) x) as [[cy cu] cv]. cbn zeta.
  unfold tok_y, tok_u, tok_v, tok_mono, take. cbn [fst snd pending trace].
  destruct (Z.leb_spec 256 (u16w (hd 0 pend))); [lia |].
  destruct (ready (filter_at _ _ d _));
    cbn [fst snd pending trace length _a_decoder];
    rewrite <- !app_assoc; cbn [app];
    (split; (split; [done |]));
    rewrite <- (drop_0 pend) at 1; by rewrite !tl_drop.
Qed.

(** X25 on the sample stream: the first pixel of the a b a b image takes
    all six symbols, in the order Y, U, V, CF id, SF id, alpha. *)
Lemma read_takes_symbols_in_order_witness :
  let s' := snd (readSafe Samples.abab_start 0 0 0%nat
                          MoreSamples.first_pixel) in
  let s'' := snd (readUnsafe Samples.abab_start 0 0 0%nat
                             MoreSamples.first_pixel) in
  (trace s' = [EvY 0; EvU 0; EvV 0; EvCF 0; EvSF 0; EvA 0]
   /\ pending s' = [])
  /\ (trace s'' = [EvY 0; EvU 0; EvV 0; EvCF 0; EvSF 0; EvA 0]
      /\ pending s'' = []).
Proof.
  exact (read_takes_symbols_in_order Samples.abab_start 0 0 0%nat
           MoreSamples.first_pixel ltac:(vm_compute; reflexivity)).
Defined.

End StreamOrderFacts.
